(** * Impersonation search services: similarity scorer and search orchestration

    A shallow embedding of the three platform services of the repository
    (Twitter in [src/index.ts], YouTube and Facebook in the two unnamed
    source files).  The three files share one [calculateSimilarity]; each
    has its own API step, scraping fallbacks and [/api/search] handler, and
    Twitter has [/api/check-account] as well.  The file of YouTube has an
    early error and is never loaded: the properties of searches and
    handlers are those of Twitter and Facebook. *)

From Stdlib Require Import ZArith NArith Ascii String Lia.
From Stdlib Require Import Floats.SpecFloat.
From stdpp Require Import list.

Local Open Scope Z_scope.

(** ** JavaScript strings

    A JavaScript string is a sequence of UTF-16 code units; [length] counts
    code units, [s[i]] reads one and [===] on single-unit strings compares
    them. *)

Definition code_unit := N.
Abbreviation jsstring := (list N).

(** Literals of the development are Basic Latin text. *)
Definition js (s : string) : jsstring :=
  map N_of_ascii (list_ascii_of_string s).

(** A surrogate pair stands for one code point above U+FFFF; any other
    code unit, a lone surrogate too, is a code point of its own. *)
Definition is_high_surrogate (c : code_unit) : bool := ((0xD800 <=? c) && (c <=? 0xDBFF))%N.
Definition is_low_surrogate (c : code_unit) : bool := ((0xDC00 <=? c) && (c <=? 0xDFFF))%N.

Fixpoint StringToCodePoints (s : jsstring) : list N :=
  match s with
  | [] => []
  | c :: s' =>
      match s' with
      | d :: s'' =>
          if is_high_surrogate c && is_low_surrogate d
          then (0x10000 + (c - 0xD800) * 0x400 + (d - 0xDC00))%N :: StringToCodePoints s''
          else c :: StringToCodePoints s'
      | [] => [c]
      end
  end.

Definition code_point_units (cp : N) : list code_unit :=
  if (cp <? 0x10000)%N then [cp]
  else [(0xD800 + (cp - 0x10000) / 0x400)%N; (0xDC00 + (cp - 0x10000) mod 0x400)%N].

Definition CodePointsToString (cps : list N) : jsstring :=
  concat (map code_point_units cps).

(** [String.prototype.toLowerCase] is a built-in of the language, not code
    of the repository: the string is read as code points, each is given its
    lower-case mapping of the Unicode Character Database (version 14), and
    the result is written back as code units.  The tables are in ascending
    order.  An entry [(first, last, step, target)] of the mappings sends
    [first], [first + step], ... up to [last] to [target], [target + step],
    ...; a code point in no entry is its own lower-case form. *)
Definition lower_case_mappings : list (N * N * N * N) :=
  [
   (0x41, 0x5A, 1, 0x61); (0xC0, 0xD6, 1, 0xE0); (0xD8, 0xDE, 1, 0xF8); (0x100, 0x12E, 2, 0x101);
   (0x132, 0x136, 2, 0x133); (0x139, 0x147, 2, 0x13A); (0x14A, 0x176, 2, 0x14B); (0x178, 0x178, 1, 0xFF);
   (0x179, 0x17D, 2, 0x17A); (0x181, 0x181, 1, 0x253); (0x182, 0x184, 2, 0x183); (0x186, 0x186, 1, 0x254);
   (0x187, 0x187, 1, 0x188); (0x189, 0x18A, 1, 0x256); (0x18B, 0x18B, 1, 0x18C); (0x18E, 0x18E, 1, 0x1DD);
   (0x18F, 0x18F, 1, 0x259); (0x190, 0x190, 1, 0x25B); (0x191, 0x191, 1, 0x192); (0x193, 0x193, 1, 0x260);
   (0x194, 0x194, 1, 0x263); (0x196, 0x196, 1, 0x269); (0x197, 0x197, 1, 0x268); (0x198, 0x198, 1, 0x199);
   (0x19C, 0x19C, 1, 0x26F); (0x19D, 0x19D, 1, 0x272); (0x19F, 0x19F, 1, 0x275); (0x1A0, 0x1A4, 2, 0x1A1);
   (0x1A6, 0x1A6, 1, 0x280); (0x1A7, 0x1A7, 1, 0x1A8); (0x1A9, 0x1A9, 1, 0x283); (0x1AC, 0x1AC, 1, 0x1AD);
   (0x1AE, 0x1AE, 1, 0x288); (0x1AF, 0x1AF, 1, 0x1B0); (0x1B1, 0x1B2, 1, 0x28A); (0x1B3, 0x1B5, 2, 0x1B4);
   (0x1B7, 0x1B7, 1, 0x292); (0x1B8, 0x1B8, 1, 0x1B9); (0x1BC, 0x1BC, 1, 0x1BD); (0x1C4, 0x1C4, 1, 0x1C6);
   (0x1C5, 0x1C5, 1, 0x1C6); (0x1C7, 0x1C7, 1, 0x1C9); (0x1C8, 0x1C8, 1, 0x1C9); (0x1CA, 0x1CA, 1, 0x1CC);
   (0x1CB, 0x1DB, 2, 0x1CC); (0x1DE, 0x1EE, 2, 0x1DF); (0x1F1, 0x1F1, 1, 0x1F3); (0x1F2, 0x1F4, 2, 0x1F3);
   (0x1F6, 0x1F6, 1, 0x195); (0x1F7, 0x1F7, 1, 0x1BF); (0x1F8, 0x21E, 2, 0x1F9); (0x220, 0x220, 1, 0x19E);
   (0x222, 0x232, 2, 0x223); (0x23A, 0x23A, 1, 0x2C65); (0x23B, 0x23B, 1, 0x23C); (0x23D, 0x23D, 1, 0x19A);
   (0x23E, 0x23E, 1, 0x2C66); (0x241, 0x241, 1, 0x242); (0x243, 0x243, 1, 0x180); (0x244, 0x244, 1, 0x289);
   (0x245, 0x245, 1, 0x28C); (0x246, 0x24E, 2, 0x247); (0x370, 0x372, 2, 0x371); (0x376, 0x376, 1, 0x377);
   (0x37F, 0x37F, 1, 0x3F3); (0x386, 0x386, 1, 0x3AC); (0x388, 0x38A, 1, 0x3AD); (0x38C, 0x38C, 1, 0x3CC);
   (0x38E, 0x38F, 1, 0x3CD); (0x391, 0x3A1, 1, 0x3B1); (0x3A3, 0x3AB, 1, 0x3C3); (0x3CF, 0x3CF, 1, 0x3D7);
   (0x3D8, 0x3EE, 2, 0x3D9); (0x3F4, 0x3F4, 1, 0x3B8); (0x3F7, 0x3F7, 1, 0x3F8); (0x3F9, 0x3F9, 1, 0x3F2);
   (0x3FA, 0x3FA, 1, 0x3FB); (0x3FD, 0x3FF, 1, 0x37B); (0x400, 0x40F, 1, 0x450); (0x410, 0x42F, 1, 0x430);
   (0x460, 0x480, 2, 0x461); (0x48A, 0x4BE, 2, 0x48B); (0x4C0, 0x4C0, 1, 0x4CF); (0x4C1, 0x4CD, 2, 0x4C2);
   (0x4D0, 0x52E, 2, 0x4D1); (0x531, 0x556, 1, 0x561); (0x10A0, 0x10C5, 1, 0x2D00); (0x10C7, 0x10C7, 1, 0x2D27);
   (0x10CD, 0x10CD, 1, 0x2D2D); (0x13A0, 0x13EF, 1, 0xAB70); (0x13F0, 0x13F5, 1, 0x13F8); (0x1C90, 0x1CBA, 1, 0x10D0);
   (0x1CBD, 0x1CBF, 1, 0x10FD); (0x1E00, 0x1E94, 2, 0x1E01); (0x1E9E, 0x1E9E, 1, 0xDF); (0x1EA0, 0x1EFE, 2, 0x1EA1);
   (0x1F08, 0x1F0F, 1, 0x1F00); (0x1F18, 0x1F1D, 1, 0x1F10); (0x1F28, 0x1F2F, 1, 0x1F20); (0x1F38, 0x1F3F, 1, 0x1F30);
   (0x1F48, 0x1F4D, 1, 0x1F40); (0x1F59, 0x1F5F, 2, 0x1F51); (0x1F68, 0x1F6F, 1, 0x1F60); (0x1F88, 0x1F8F, 1, 0x1F80);
   (0x1F98, 0x1F9F, 1, 0x1F90); (0x1FA8, 0x1FAF, 1, 0x1FA0); (0x1FB8, 0x1FB9, 1, 0x1FB0); (0x1FBA, 0x1FBB, 1, 0x1F70);
   (0x1FBC, 0x1FBC, 1, 0x1FB3); (0x1FC8, 0x1FCB, 1, 0x1F72); (0x1FCC, 0x1FCC, 1, 0x1FC3); (0x1FD8, 0x1FD9, 1, 0x1FD0);
   (0x1FDA, 0x1FDB, 1, 0x1F76); (0x1FE8, 0x1FE9, 1, 0x1FE0); (0x1FEA, 0x1FEB, 1, 0x1F7A); (0x1FEC, 0x1FEC, 1, 0x1FE5);
   (0x1FF8, 0x1FF9, 1, 0x1F78); (0x1FFA, 0x1FFB, 1, 0x1F7C); (0x1FFC, 0x1FFC, 1, 0x1FF3); (0x2126, 0x2126, 1, 0x3C9);
   (0x212A, 0x212A, 1, 0x6B); (0x212B, 0x212B, 1, 0xE5); (0x2132, 0x2132, 1, 0x214E); (0x2160, 0x216F, 1, 0x2170);
   (0x2183, 0x2183, 1, 0x2184); (0x24B6, 0x24CF, 1, 0x24D0); (0x2C00, 0x2C2F, 1, 0x2C30); (0x2C60, 0x2C60, 1, 0x2C61);
   (0x2C62, 0x2C62, 1, 0x26B); (0x2C63, 0x2C63, 1, 0x1D7D); (0x2C64, 0x2C64, 1, 0x27D); (0x2C67, 0x2C6B, 2, 0x2C68);
   (0x2C6D, 0x2C6D, 1, 0x251); (0x2C6E, 0x2C6E, 1, 0x271); (0x2C6F, 0x2C6F, 1, 0x250); (0x2C70, 0x2C70, 1, 0x252);
   (0x2C72, 0x2C72, 1, 0x2C73); (0x2C75, 0x2C75, 1, 0x2C76); (0x2C7E, 0x2C7F, 1, 0x23F); (0x2C80, 0x2CE2, 2, 0x2C81);
   (0x2CEB, 0x2CED, 2, 0x2CEC); (0x2CF2, 0x2CF2, 1, 0x2CF3); (0xA640, 0xA66C, 2, 0xA641); (0xA680, 0xA69A, 2, 0xA681);
   (0xA722, 0xA72E, 2, 0xA723); (0xA732, 0xA76E, 2, 0xA733); (0xA779, 0xA77B, 2, 0xA77A); (0xA77D, 0xA77D, 1, 0x1D79);
   (0xA77E, 0xA786, 2, 0xA77F); (0xA78B, 0xA78B, 1, 0xA78C); (0xA78D, 0xA78D, 1, 0x265); (0xA790, 0xA792, 2, 0xA791);
   (0xA796, 0xA7A8, 2, 0xA797); (0xA7AA, 0xA7AA, 1, 0x266); (0xA7AB, 0xA7AB, 1, 0x25C); (0xA7AC, 0xA7AC, 1, 0x261);
   (0xA7AD, 0xA7AD, 1, 0x26C); (0xA7AE, 0xA7AE, 1, 0x26A); (0xA7B0, 0xA7B0, 1, 0x29E); (0xA7B1, 0xA7B1, 1, 0x287);
   (0xA7B2, 0xA7B2, 1, 0x29D); (0xA7B3, 0xA7B3, 1, 0xAB53); (0xA7B4, 0xA7C2, 2, 0xA7B5); (0xA7C4, 0xA7C4, 1, 0xA794);
   (0xA7C5, 0xA7C5, 1, 0x282); (0xA7C6, 0xA7C6, 1, 0x1D8E); (0xA7C7, 0xA7C9, 2, 0xA7C8); (0xA7D0, 0xA7D0, 1, 0xA7D1);
   (0xA7D6, 0xA7D8, 2, 0xA7D7); (0xA7F5, 0xA7F5, 1, 0xA7F6); (0xFF21, 0xFF3A, 1, 0xFF41); (0x10400, 0x10427, 1, 0x10428);
   (0x104B0, 0x104D3, 1, 0x104D8); (0x10570, 0x1057A, 1, 0x10597); (0x1057C, 0x1058A, 1, 0x105A3); (0x1058C, 0x10592, 1, 0x105B3);
   (0x10594, 0x10595, 1, 0x105BB); (0x10C80, 0x10CB2, 1, 0x10CC0); (0x118A0, 0x118BF, 1, 0x118C0); (0x16E40, 0x16E5F, 1, 0x16E60);
   (0x1E900, 0x1E921, 1, 0x1E922)
  ]%N.

Fixpoint lower_case_mapping (table : list (N * N * N * N)) (cp : N) : option N :=
  match table with
  | [] => None
  | (first, last, step, target) :: table' =>
      if (cp <? first)%N then None
      else if ((cp <=? last) && ((cp - first) mod step =? 0))%N
      then Some (target + (cp - first))%N
      else lower_case_mapping table' cp
  end.

(** The two properties the mapping of capital sigma depends on:
    [Case_Ignorable], and [Cased] for the code points that are not
    [Case_Ignorable] (it is asked of no other). *)
Definition case_ignorable_ranges : list (N * N) :=
  [
   (0x27, 0x27); (0x2E, 0x2E); (0x3A, 0x3A); (0x5E, 0x5E); (0x60, 0x60); (0xA8, 0xA8);
   (0xAD, 0xAD); (0xAF, 0xAF); (0xB4, 0xB4); (0xB7, 0xB8); (0x2B0, 0x36F); (0x374, 0x375);
   (0x37A, 0x37A); (0x384, 0x385); (0x387, 0x387); (0x483, 0x489); (0x559, 0x559); (0x55F, 0x55F);
   (0x591, 0x5BD); (0x5BF, 0x5BF); (0x5C1, 0x5C2); (0x5C4, 0x5C5); (0x5C7, 0x5C7); (0x5F4, 0x5F4);
   (0x600, 0x605); (0x610, 0x61A); (0x61C, 0x61C); (0x640, 0x640); (0x64B, 0x65F); (0x670, 0x670);
   (0x6D6, 0x6DD); (0x6DF, 0x6E8); (0x6EA, 0x6ED); (0x70F, 0x70F); (0x711, 0x711); (0x730, 0x74A);
   (0x7A6, 0x7B0); (0x7EB, 0x7F5); (0x7FA, 0x7FA); (0x7FD, 0x7FD); (0x816, 0x82D); (0x859, 0x85B);
   (0x888, 0x888); (0x890, 0x891); (0x898, 0x89F); (0x8C9, 0x902); (0x93A, 0x93A); (0x93C, 0x93C);
   (0x941, 0x948); (0x94D, 0x94D); (0x951, 0x957); (0x962, 0x963); (0x971, 0x971); (0x981, 0x981);
   (0x9BC, 0x9BC); (0x9C1, 0x9C4); (0x9CD, 0x9CD); (0x9E2, 0x9E3); (0x9FE, 0x9FE); (0xA01, 0xA02);
   (0xA3C, 0xA3C); (0xA41, 0xA42); (0xA47, 0xA48); (0xA4B, 0xA4D); (0xA51, 0xA51); (0xA70, 0xA71);
   (0xA75, 0xA75); (0xA81, 0xA82); (0xABC, 0xABC); (0xAC1, 0xAC5); (0xAC7, 0xAC8); (0xACD, 0xACD);
   (0xAE2, 0xAE3); (0xAFA, 0xAFF); (0xB01, 0xB01); (0xB3C, 0xB3C); (0xB3F, 0xB3F); (0xB41, 0xB44);
   (0xB4D, 0xB4D); (0xB55, 0xB56); (0xB62, 0xB63); (0xB82, 0xB82); (0xBC0, 0xBC0); (0xBCD, 0xBCD);
   (0xC00, 0xC00); (0xC04, 0xC04); (0xC3C, 0xC3C); (0xC3E, 0xC40); (0xC46, 0xC48); (0xC4A, 0xC4D);
   (0xC55, 0xC56); (0xC62, 0xC63); (0xC81, 0xC81); (0xCBC, 0xCBC); (0xCBF, 0xCBF); (0xCC6, 0xCC6);
   (0xCCC, 0xCCD); (0xCE2, 0xCE3); (0xD00, 0xD01); (0xD3B, 0xD3C); (0xD41, 0xD44); (0xD4D, 0xD4D);
   (0xD62, 0xD63); (0xD81, 0xD81); (0xDCA, 0xDCA); (0xDD2, 0xDD4); (0xDD6, 0xDD6); (0xE31, 0xE31);
   (0xE34, 0xE3A); (0xE46, 0xE4E); (0xEB1, 0xEB1); (0xEB4, 0xEBC); (0xEC6, 0xEC6); (0xEC8, 0xECD);
   (0xF18, 0xF19); (0xF35, 0xF35); (0xF37, 0xF37); (0xF39, 0xF39); (0xF71, 0xF7E); (0xF80, 0xF84);
   (0xF86, 0xF87); (0xF8D, 0xF97); (0xF99, 0xFBC); (0xFC6, 0xFC6); (0x102D, 0x1030); (0x1032, 0x1037);
   (0x1039, 0x103A); (0x103D, 0x103E); (0x1058, 0x1059); (0x105E, 0x1060); (0x1071, 0x1074); (0x1082, 0x1082);
   (0x1085, 0x1086); (0x108D, 0x108D); (0x109D, 0x109D); (0x10FC, 0x10FC); (0x135D, 0x135F); (0x1712, 0x1714);
   (0x1732, 0x1733); (0x1752, 0x1753); (0x1772, 0x1773); (0x17B4, 0x17B5); (0x17B7, 0x17BD); (0x17C6, 0x17C6);
   (0x17C9, 0x17D3); (0x17D7, 0x17D7); (0x17DD, 0x17DD); (0x180B, 0x180F); (0x1843, 0x1843); (0x1885, 0x1886);
   (0x18A9, 0x18A9); (0x1920, 0x1922); (0x1927, 0x1928); (0x1932, 0x1932); (0x1939, 0x193B); (0x1A17, 0x1A18);
   (0x1A1B, 0x1A1B); (0x1A56, 0x1A56); (0x1A58, 0x1A5E); (0x1A60, 0x1A60); (0x1A62, 0x1A62); (0x1A65, 0x1A6C);
   (0x1A73, 0x1A7C); (0x1A7F, 0x1A7F); (0x1AA7, 0x1AA7); (0x1AB0, 0x1ACE); (0x1B00, 0x1B03); (0x1B34, 0x1B34);
   (0x1B36, 0x1B3A); (0x1B3C, 0x1B3C); (0x1B42, 0x1B42); (0x1B6B, 0x1B73); (0x1B80, 0x1B81); (0x1BA2, 0x1BA5);
   (0x1BA8, 0x1BA9); (0x1BAB, 0x1BAD); (0x1BE6, 0x1BE6); (0x1BE8, 0x1BE9); (0x1BED, 0x1BED); (0x1BEF, 0x1BF1);
   (0x1C2C, 0x1C33); (0x1C36, 0x1C37); (0x1C78, 0x1C7D); (0x1CD0, 0x1CD2); (0x1CD4, 0x1CE0); (0x1CE2, 0x1CE8);
   (0x1CED, 0x1CED); (0x1CF4, 0x1CF4); (0x1CF8, 0x1CF9); (0x1D2C, 0x1D6A); (0x1D78, 0x1D78); (0x1D9B, 0x1DFF);
   (0x1FBD, 0x1FBD); (0x1FBF, 0x1FC1); (0x1FCD, 0x1FCF); (0x1FDD, 0x1FDF); (0x1FED, 0x1FEF); (0x1FFD, 0x1FFE);
   (0x200B, 0x200F); (0x2018, 0x2019); (0x2024, 0x2024); (0x2027, 0x2027); (0x202A, 0x202E); (0x2060, 0x2064);
   (0x2066, 0x206F); (0x2071, 0x2071); (0x207F, 0x207F); (0x2090, 0x209C); (0x20D0, 0x20F0); (0x2C7C, 0x2C7D);
   (0x2CEF, 0x2CF1); (0x2D6F, 0x2D6F); (0x2D7F, 0x2D7F); (0x2DE0, 0x2DFF); (0x2E2F, 0x2E2F); (0x3005, 0x3005);
   (0x302A, 0x302D); (0x3031, 0x3035); (0x303B, 0x303B); (0x3099, 0x309E); (0x30FC, 0x30FE); (0xA015, 0xA015);
   (0xA4F8, 0xA4FD); (0xA60C, 0xA60C); (0xA66F, 0xA672); (0xA674, 0xA67D); (0xA67F, 0xA67F); (0xA69C, 0xA69F);
   (0xA6F0, 0xA6F1); (0xA700, 0xA721); (0xA770, 0xA770); (0xA788, 0xA78A); (0xA7F2, 0xA7F4); (0xA7F8, 0xA7F9);
   (0xA802, 0xA802); (0xA806, 0xA806); (0xA80B, 0xA80B); (0xA825, 0xA826); (0xA82C, 0xA82C); (0xA8C4, 0xA8C5);
   (0xA8E0, 0xA8F1); (0xA8FF, 0xA8FF); (0xA926, 0xA92D); (0xA947, 0xA951); (0xA980, 0xA982); (0xA9B3, 0xA9B3);
   (0xA9B6, 0xA9B9); (0xA9BC, 0xA9BD); (0xA9CF, 0xA9CF); (0xA9E5, 0xA9E6); (0xAA29, 0xAA2E); (0xAA31, 0xAA32);
   (0xAA35, 0xAA36); (0xAA43, 0xAA43); (0xAA4C, 0xAA4C); (0xAA70, 0xAA70); (0xAA7C, 0xAA7C); (0xAAB0, 0xAAB0);
   (0xAAB2, 0xAAB4); (0xAAB7, 0xAAB8); (0xAABE, 0xAABF); (0xAAC1, 0xAAC1); (0xAADD, 0xAADD); (0xAAEC, 0xAAED);
   (0xAAF3, 0xAAF4); (0xAAF6, 0xAAF6); (0xAB5B, 0xAB5F); (0xAB69, 0xAB6B); (0xABE5, 0xABE5); (0xABE8, 0xABE8);
   (0xABED, 0xABED); (0xFB1E, 0xFB1E); (0xFBB2, 0xFBC2); (0xFE00, 0xFE0F); (0xFE13, 0xFE13); (0xFE20, 0xFE2F);
   (0xFE52, 0xFE52); (0xFE55, 0xFE55); (0xFEFF, 0xFEFF); (0xFF07, 0xFF07); (0xFF0E, 0xFF0E); (0xFF1A, 0xFF1A);
   (0xFF3E, 0xFF3E); (0xFF40, 0xFF40); (0xFF70, 0xFF70); (0xFF9E, 0xFF9F); (0xFFE3, 0xFFE3); (0xFFF9, 0xFFFB);
   (0x101FD, 0x101FD); (0x102E0, 0x102E0); (0x10376, 0x1037A); (0x10780, 0x10785); (0x10787, 0x107B0); (0x107B2, 0x107BA);
   (0x10A01, 0x10A03); (0x10A05, 0x10A06); (0x10A0C, 0x10A0F); (0x10A38, 0x10A3A); (0x10A3F, 0x10A3F); (0x10AE5, 0x10AE6);
   (0x10D24, 0x10D27); (0x10EAB, 0x10EAC); (0x10F46, 0x10F50); (0x10F82, 0x10F85); (0x11001, 0x11001); (0x11038, 0x11046);
   (0x11070, 0x11070); (0x11073, 0x11074); (0x1107F, 0x11081); (0x110B3, 0x110B6); (0x110B9, 0x110BA); (0x110BD, 0x110BD);
   (0x110C2, 0x110C2); (0x110CD, 0x110CD); (0x11100, 0x11102); (0x11127, 0x1112B); (0x1112D, 0x11134); (0x11173, 0x11173);
   (0x11180, 0x11181); (0x111B6, 0x111BE); (0x111C9, 0x111CC); (0x111CF, 0x111CF); (0x1122F, 0x11231); (0x11234, 0x11234);
   (0x11236, 0x11237); (0x1123E, 0x1123E); (0x112DF, 0x112DF); (0x112E3, 0x112EA); (0x11300, 0x11301); (0x1133B, 0x1133C);
   (0x11340, 0x11340); (0x11366, 0x1136C); (0x11370, 0x11374); (0x11438, 0x1143F); (0x11442, 0x11444); (0x11446, 0x11446);
   (0x1145E, 0x1145E); (0x114B3, 0x114B8); (0x114BA, 0x114BA); (0x114BF, 0x114C0); (0x114C2, 0x114C3); (0x115B2, 0x115B5);
   (0x115BC, 0x115BD); (0x115BF, 0x115C0); (0x115DC, 0x115DD); (0x11633, 0x1163A); (0x1163D, 0x1163D); (0x1163F, 0x11640);
   (0x116AB, 0x116AB); (0x116AD, 0x116AD); (0x116B0, 0x116B5); (0x116B7, 0x116B7); (0x1171D, 0x1171F); (0x11722, 0x11725);
   (0x11727, 0x1172B); (0x1182F, 0x11837); (0x11839, 0x1183A); (0x1193B, 0x1193C); (0x1193E, 0x1193E); (0x11943, 0x11943);
   (0x119D4, 0x119D7); (0x119DA, 0x119DB); (0x119E0, 0x119E0); (0x11A01, 0x11A0A); (0x11A33, 0x11A38); (0x11A3B, 0x11A3E);
   (0x11A47, 0x11A47); (0x11A51, 0x11A56); (0x11A59, 0x11A5B); (0x11A8A, 0x11A96); (0x11A98, 0x11A99); (0x11C30, 0x11C36);
   (0x11C38, 0x11C3D); (0x11C3F, 0x11C3F); (0x11C92, 0x11CA7); (0x11CAA, 0x11CB0); (0x11CB2, 0x11CB3); (0x11CB5, 0x11CB6);
   (0x11D31, 0x11D36); (0x11D3A, 0x11D3A); (0x11D3C, 0x11D3D); (0x11D3F, 0x11D45); (0x11D47, 0x11D47); (0x11D90, 0x11D91);
   (0x11D95, 0x11D95); (0x11D97, 0x11D97); (0x11EF3, 0x11EF4); (0x13430, 0x13438); (0x16AF0, 0x16AF4); (0x16B30, 0x16B36);
   (0x16B40, 0x16B43); (0x16F4F, 0x16F4F); (0x16F8F, 0x16F9F); (0x16FE0, 0x16FE1); (0x16FE3, 0x16FE4); (0x1AFF0, 0x1AFF3);
   (0x1AFF5, 0x1AFFB); (0x1AFFD, 0x1AFFE); (0x1BC9D, 0x1BC9E); (0x1BCA0, 0x1BCA3); (0x1CF00, 0x1CF2D); (0x1CF30, 0x1CF46);
   (0x1D167, 0x1D169); (0x1D173, 0x1D182); (0x1D185, 0x1D18B); (0x1D1AA, 0x1D1AD); (0x1D242, 0x1D244); (0x1DA00, 0x1DA36);
   (0x1DA3B, 0x1DA6C); (0x1DA75, 0x1DA75); (0x1DA84, 0x1DA84); (0x1DA9B, 0x1DA9F); (0x1DAA1, 0x1DAAF); (0x1E000, 0x1E006);
   (0x1E008, 0x1E018); (0x1E01B, 0x1E021); (0x1E023, 0x1E024); (0x1E026, 0x1E02A); (0x1E130, 0x1E13D); (0x1E2AE, 0x1E2AE);
   (0x1E2EC, 0x1E2EF); (0x1E8D0, 0x1E8D6); (0x1E944, 0x1E94B); (0x1F3FB, 0x1F3FF); (0xE0001, 0xE0001); (0xE0020, 0xE007F);
   (0xE0100, 0xE01EF)
  ]%N.

Definition cased_ranges : list (N * N) :=
  [
   (0x41, 0x5A); (0x61, 0x7A); (0xAA, 0xAA); (0xB5, 0xB5); (0xBA, 0xBA); (0xC0, 0xD6);
   (0xD8, 0xF6); (0xF8, 0x1BA); (0x1BC, 0x1BF); (0x1C4, 0x293); (0x295, 0x2AF); (0x370, 0x373);
   (0x376, 0x377); (0x37B, 0x37D); (0x37F, 0x37F); (0x386, 0x386); (0x388, 0x38A); (0x38C, 0x38C);
   (0x38E, 0x3A1); (0x3A3, 0x3F5); (0x3F7, 0x481); (0x48A, 0x52F); (0x531, 0x556); (0x560, 0x588);
   (0x10A0, 0x10C5); (0x10C7, 0x10C7); (0x10CD, 0x10CD); (0x10D0, 0x10FA); (0x10FD, 0x10FF); (0x13A0, 0x13F5);
   (0x13F8, 0x13FD); (0x1C80, 0x1C88); (0x1C90, 0x1CBA); (0x1CBD, 0x1CBF); (0x1D00, 0x1D2B); (0x1D6B, 0x1D77);
   (0x1D79, 0x1D9A); (0x1E00, 0x1F15); (0x1F18, 0x1F1D); (0x1F20, 0x1F45); (0x1F48, 0x1F4D); (0x1F50, 0x1F57);
   (0x1F59, 0x1F59); (0x1F5B, 0x1F5B); (0x1F5D, 0x1F5D); (0x1F5F, 0x1F7D); (0x1F80, 0x1FB4); (0x1FB6, 0x1FBC);
   (0x1FBE, 0x1FBE); (0x1FC2, 0x1FC4); (0x1FC6, 0x1FCC); (0x1FD0, 0x1FD3); (0x1FD6, 0x1FDB); (0x1FE0, 0x1FEC);
   (0x1FF2, 0x1FF4); (0x1FF6, 0x1FFC); (0x2102, 0x2102); (0x2107, 0x2107); (0x210A, 0x2113); (0x2115, 0x2115);
   (0x2119, 0x211D); (0x2124, 0x2124); (0x2126, 0x2126); (0x2128, 0x2128); (0x212A, 0x212D); (0x212F, 0x2134);
   (0x2139, 0x2139); (0x213C, 0x213F); (0x2145, 0x2149); (0x214E, 0x214E); (0x2160, 0x217F); (0x2183, 0x2184);
   (0x24B6, 0x24E9); (0x2C00, 0x2C7B); (0x2C7E, 0x2CE4); (0x2CEB, 0x2CEE); (0x2CF2, 0x2CF3); (0x2D00, 0x2D25);
   (0x2D27, 0x2D27); (0x2D2D, 0x2D2D); (0xA640, 0xA66D); (0xA680, 0xA69B); (0xA722, 0xA76F); (0xA771, 0xA787);
   (0xA78B, 0xA78E); (0xA790, 0xA7CA); (0xA7D0, 0xA7D1); (0xA7D3, 0xA7D3); (0xA7D5, 0xA7D9); (0xA7F5, 0xA7F6);
   (0xA7FA, 0xA7FA); (0xAB30, 0xAB5A); (0xAB60, 0xAB68); (0xAB70, 0xABBF); (0xFB00, 0xFB06); (0xFB13, 0xFB17);
   (0xFF21, 0xFF3A); (0xFF41, 0xFF5A); (0x10400, 0x1044F); (0x104B0, 0x104D3); (0x104D8, 0x104FB); (0x10570, 0x1057A);
   (0x1057C, 0x1058A); (0x1058C, 0x10592); (0x10594, 0x10595); (0x10597, 0x105A1); (0x105A3, 0x105B1); (0x105B3, 0x105B9);
   (0x105BB, 0x105BC); (0x10C80, 0x10CB2); (0x10CC0, 0x10CF2); (0x118A0, 0x118DF); (0x16E40, 0x16E7F); (0x1D400, 0x1D454);
   (0x1D456, 0x1D49C); (0x1D49E, 0x1D49F); (0x1D4A2, 0x1D4A2); (0x1D4A5, 0x1D4A6); (0x1D4A9, 0x1D4AC); (0x1D4AE, 0x1D4B9);
   (0x1D4BB, 0x1D4BB); (0x1D4BD, 0x1D4C3); (0x1D4C5, 0x1D505); (0x1D507, 0x1D50A); (0x1D50D, 0x1D514); (0x1D516, 0x1D51C);
   (0x1D51E, 0x1D539); (0x1D53B, 0x1D53E); (0x1D540, 0x1D544); (0x1D546, 0x1D546); (0x1D54A, 0x1D550); (0x1D552, 0x1D6A5);
   (0x1D6A8, 0x1D6C0); (0x1D6C2, 0x1D6DA); (0x1D6DC, 0x1D6FA); (0x1D6FC, 0x1D714); (0x1D716, 0x1D734); (0x1D736, 0x1D74E);
   (0x1D750, 0x1D76E); (0x1D770, 0x1D788); (0x1D78A, 0x1D7A8); (0x1D7AA, 0x1D7C2); (0x1D7C4, 0x1D7CB); (0x1DF00, 0x1DF09);
   (0x1DF0B, 0x1DF1E); (0x1E900, 0x1E943); (0x1F130, 0x1F149); (0x1F150, 0x1F169); (0x1F170, 0x1F189)
  ]%N.

Fixpoint in_ranges (ranges : list (N * N)) (cp : N) : bool :=
  match ranges with
  | [] => false
  | (first, last) :: ranges' =>
      if (cp <? first)%N then false
      else (cp <=? last)%N || in_ranges ranges' cp
  end.

Fixpoint skip_case_ignorable (cps : list N) : list N :=
  match cps with
  | [] => []
  | cp :: cps' =>
      if in_ranges case_ignorable_ranges cp then skip_case_ignorable cps' else cps
  end.

Definition meets_cased_letter (cps : list N) : bool :=
  match skip_case_ignorable cps with
  | cp :: _ => in_ranges cased_ranges cp
  | [] => false
  end.

(** A capital sigma is final when a cased letter comes before it and none
    after it, code points that are ignorable for case set aside;
    [before] is the text before it, nearest code point first. *)
Definition final_sigma (before after : list N) : bool :=
  meets_cased_letter before && negb (meets_cased_letter after).

(** U+0130 is the one code point with a lower-case form of two code
    points. *)
Definition lower_code_point (before : list N) (cp : N) (after : list N) : list N :=
  if (cp =? 0x3A3)%N then
    if final_sigma before after then [0x3C2%N] else [0x3C3%N]
  else if (cp =? 0x130)%N then [0x69%N; 0x307%N]
  else [default cp (lower_case_mapping lower_case_mappings cp)].

Fixpoint lower_code_points (before cps : list N) : list N :=
  match cps with
  | [] => []
  | cp :: after =>
      lower_code_point before cp after ++ lower_code_points (cp :: before) after
  end.

Definition toLowerCase (s : jsstring) : jsstring :=
  CodePointsToString (lower_code_points [] (StringToCodePoints s)).

(** [haystack.includes(needle)]: some suffix of [haystack] starts with
    [needle]. *)
Fixpoint starts_with (needle s : jsstring) : bool :=
  match needle, s with
  | [], _ => true
  | _ :: _, [] => false
  | a :: needle', b :: s' => (a =? b)%N && starts_with needle' s'
  end.

Fixpoint includes (haystack needle : jsstring) : bool :=
  starts_with needle haystack ||
  match haystack with
  | [] => false
  | _ :: rest => includes rest needle
  end.

(** [String.prototype.isWellFormed]: no lone surrogate.  A high surrogate
    is followed by a low one, and a low one follows a high one. *)
Fixpoint isWellFormed (s : jsstring) : bool :=
  match s with
  | [] => true
  | c :: s' =>
      if is_high_surrogate c then
        match s' with
        | d :: s'' => is_low_surrogate d && isWellFormed s''
        | [] => false
        end
      else negb (is_low_surrogate c) && isWellFormed s'
  end.

(** ** JavaScript numbers

    A number is an IEEE 754 binary64 value.  The matrix of the scorer only
    ever holds integers below 2^53, which binary64 represents exactly, so
    its cells are integers here and become [number]s where the source
    divides. *)

Definition prec : Z := 53.
Definition emax : Z := 1024.

Abbreviation number := spec_float.

Definition NaN : number := S754_nan.
Definition num_of_Z (z : Z) : number := binary_normalize prec emax z 0 false.
Definition num_sub : number -> number -> number := SFsub prec emax.
Definition num_div : number -> number -> number := SFdiv prec emax.
(** [x >= y] *)
Definition num_ge (x y : number) : bool := SFleb y x.
(** [x === y] on numbers *)
Definition num_eqb (x y : number) : bool := SFeqb x y.

Definition num_one : number := Eval cbv in num_of_Z 1.
Definition num_zero : number := S754_zero false.
(** The literal [0.7]: the binary64 value nearest to 7/10. *)
Definition num_0_7 : number := Eval cbv in num_div (num_of_Z 7) (num_of_Z 10).

(** A number is falsy when it is [0], [-0] or [NaN]. *)
Definition num_truthy (x : number) : bool :=
  match x with
  | S754_zero _ | S754_nan => false
  | _ => true
  end.

(** ** Levenshtein distance, as a specification

    Edit scripts turn [s] into [t] by keeping a code unit (cost 0) or by
    deleting, inserting or substituting one (cost 1 each). *)

Inductive edit_script : jsstring -> jsstring -> nat -> Prop :=
| edit_nil : edit_script [] [] 0
| edit_keep a s t n : edit_script s t n -> edit_script (a :: s) (a :: t) n
| edit_subst a b s t n : edit_script s t n -> edit_script (a :: s) (b :: t) (S n)
| edit_delete a s t n : edit_script s t n -> edit_script (a :: s) t (S n)
| edit_insert b s t n : edit_script s t n -> edit_script s (b :: t) (S n).

Definition subst_cost (a b : code_unit) : nat :=
  if (a =? b)%N then 0%nat else 1%nat.

(** The textbook recursion on the heads of the two strings. *)
Local Open Scope nat_scope.
Fixpoint levenshtein (s t : jsstring) : nat :=
  match s with
  | [] => length t
  | a :: s' =>
      (fix against (t : jsstring) : nat :=
         match t with
         | [] => length s
         | b :: t' =>
             Nat.min (Nat.min (levenshtein s' t + 1) (against t' + 1))
               (levenshtein s' t' + subst_cost a b)
         end) t
  end.
Local Close Scope nat_scope.

(** ** [calculateSimilarity]

    The matrix is an array of [len1 + 1] rows of [len2 + 1] cells. *)

Abbreviation matrix := (list (list Z)).

(** [Array(len1 + 1).fill(null).map(() => Array(len2 + 1).fill(0))] *)
Definition new_matrix (len1 len2 : nat) : matrix :=
  replicate (len1 + 1) (replicate (len2 + 1) 0).

(** [matrix[i][j]]; every read of the source is in range. *)
Definition mget (m : matrix) (i j : nat) : Z :=
  match m !! i with
  | Some row => default 0 (row !! j)
  | None => 0
  end.

(** [matrix[i][j] = v]; every write of the source is in range. *)
Definition mset (m : matrix) (i j : nat) (v : Z) : matrix :=
  alter (fun row => <[j := v]> row) i m.

(** [for (let i = 0; i <= len1; i++) matrix[i][0] = i] *)
Definition fill_first_column (len1 : nat) (m : matrix) : matrix :=
  foldl (fun m i => mset m i 0 (Z.of_nat i)) m (seq 0 (len1 + 1)).

(** [for (let j = 0; j <= len2; j++) matrix[0][j] = j] *)
Definition fill_first_row (len2 : nat) (m : matrix) : matrix :=
  foldl (fun m j => mset m 0 j (Z.of_nat j)) m (seq 0 (len2 + 1)).

(** [str1[i - 1] === str2[j - 1] ? 0 : 1] *)
Definition cell_cost (str1 str2 : jsstring) (i j : nat) : Z :=
  if decide (str1 !! (i - 1)%nat = str2 !! (j - 1)%nat) then 0 else 1.

(** The body of the inner loop. *)
Definition fill_cell (str1 str2 : jsstring) (m : matrix) (i j : nat) : matrix :=
  let cost := cell_cost str1 str2 i j in
  mset m i j
    (Z.min (Z.min (mget m (i - 1) j + 1) (mget m i (j - 1) + 1))
       (mget m (i - 1) (j - 1) + cost)).

(** [for (let j = 1; j <= len2; j++) ...] *)
Definition fill_row (str1 str2 : jsstring) (len2 : nat) (m : matrix) (i : nat) : matrix :=
  foldl (fun m j => fill_cell str1 str2 m i j) m (seq 1 len2).

(** [for (let i = 1; i <= len1; i++) ...] *)
Definition fill_matrix (str1 str2 : jsstring) (len1 len2 : nat) (m : matrix) : matrix :=
  foldl (fill_row str1 str2 len2) m (seq 1 len1).

(** The distance the source reads off the matrix. *)
Definition matrix_distance (str1 str2 : jsstring) : Z :=
  let len1 := length str1 in
  let len2 := length str2 in
  let m := new_matrix len1 len2 in
  let m := fill_first_column len1 m in
  let m := fill_first_row len2 m in
  let m := fill_matrix str1 str2 len1 len2 m in
  mget m len1 len2.

Definition calculateSimilarity (str1 str2 : jsstring) : number :=
  let str1 := toLowerCase str1 in
  let str2 := toLowerCase str2 in
  let len1 := length str1 in
  let len2 := length str2 in
  let distance := matrix_distance str1 str2 in
  let maxLen := Nat.max len1 len2 in
  num_sub num_one (num_div (num_of_Z distance) (num_of_Z (Z.of_nat maxLen))).

(** ** Data model *)

Record ImpersonatingAccount := {
  name : jsstring;
  description : option jsstring;
  url : jsstring;
}.

Record CrawlOptions := {
  keyword : jsstring;
  limit : option number;
  throttleMs : option number;
  fuzzyThreshold : option number;
}.

(** The JSON body of a request, with the fields of the request schema; a
    field that is absent (or [null]) is [None]. *)
Record RequestBody := {
  body_keyword : option jsstring;
  body_limit : option number;
  body_throttleMs : option number;
  body_fuzzyThreshold : option number;
}.

(** What a handler answers: [c.json({keyword, count, results})] or
    [c.json({error}, status)]. *)
Inductive HttpResponse :=
| Found (keyword : jsstring) (count : nat) (results : list ImpersonatingAccount)
| Failed (status : Z).

(** [x || d] on an optional number: the default replaces an absent field
    and every falsy number. *)
Definition or_default (x : option number) (d : number) : number :=
  match x with
  | Some v => if num_truthy v then v else d
  | None => d
  end.

(** [s || ''] on an optional string. *)
Definition or_empty (s : option jsstring) : jsstring := default [] s.

(** [description && description.toLowerCase().includes(keyword.toLowerCase())] *)
Definition description_mentions (description : option jsstring) (keyword : jsstring) : bool :=
  match description with
  | Some (c :: d) => includes (toLowerCase (c :: d)) (toLowerCase keyword)
  | _ => false
  end.

(** [r.url === u] *)
Definition same_url (u : jsstring) (r : ImpersonatingAccount) : bool :=
  bool_decide (url r = u).

(** [String.prototype.trim]: white space and line terminators go, at both
    ends. *)
Definition is_space (c : code_unit) : bool :=
  (((0x09 <=? c) && (c <=? 0x0D)) || (c =? 0x20) || (c =? 0xA0) || (c =? 0x1680)
   || ((0x2000 <=? c) && (c <=? 0x200A)) || (c =? 0x2028) || (c =? 0x2029)
   || (c =? 0x202F) || (c =? 0x205F) || (c =? 0x3000) || (c =? 0xFEFF))%N.

Fixpoint trim_start (s : jsstring) : jsstring :=
  match s with
  | c :: s' => if is_space c then trim_start s' else s
  | [] => []
  end.

Definition trim (s : jsstring) : jsstring :=
  reverse (trim_start (reverse (trim_start s))).

(** ** Effects

    A search talks to the upstream over [fetch] and waits with
    [setTimeout]; both are recorded in the order they happen.  Anything
    may throw; [try]/[catch] is [try_catch].  A request is recorded by the
    endpoint it goes to: the query string and the headers are left out, and
    so is what [console.error] and [console.log] print. *)

Inductive endpoint :=
| TwitterUserSearch
| NitterSearch
| TwitterWebSearch
| YouTubeChannelSearch
| YouTubeChannelDetails (channelId : jsstring)
| YouTubeResultsPage
| YouTubeChannelPage (handle : jsstring)
| FacebookPageSearch
| FacebookUserSearch
| FacebookSearchPage.

Inductive event :=
| Fetch (e : endpoint)
| Sleep (ms : number).

Inductive exn := NetworkError | StatusError | ParseError | TypeError | URIError.

Inductive outcome (A : Type) :=
| Returns (a : A)
| Throws (e : exn).
Arguments Returns {A} a.
Arguments Throws {A} e.

Definition M (A : Type) : Type := outcome A * list event.

Definition ret {A} (a : A) : M A := (Returns a, []).
Definition throw {A} (e : exn) : M A := (Throws e, []).
Definition bind {A B} (m : M A) (k : A -> M B) : M B :=
  match m with
  | (Returns a, t) => let '(r, t') := k a in (r, t ++ t')
  | (Throws e, t) => (Throws e, t)
  end.
Definition try_catch {A} (m : M A) (handler : exn -> M A) : M A :=
  match m with
  | (Throws e, t) => let '(r, t') := handler e in (r, t ++ t')
  | returned => returned
  end.
Definition emit (ev : event) : M unit := (Returns tt, [ev]).

#[global] Instance M_ret : MRet M := @ret.
#[global] Instance M_bind : MBind M := fun A B k m => bind m k.

(** [for (const x of xs) body], with the variables the body updates as
    the loop state. *)
Fixpoint for_each {A S} (body : S -> A -> M S) (xs : list A) (s : S) : M S :=
  match xs with
  | [] => ret s
  | x :: xs' => s' ← body s x; for_each body xs' s'
  end.

(** An HTTP response: its [ok] flag and what [json()] or [text()] and the
    pattern of the caller extract from the body; [None] when reading the
    body fails. *)
Record Response (A : Type) := {
  ok : bool;
  content : option A;
}.
Arguments ok {A} r.
Arguments content {A} r.

(** [await fetch(url)]; [None] is a request that does not complete. *)
Definition fetch {A} (e : endpoint) (upstream : option (Response A)) : M (Response A) :=
  emit (Fetch e);;
  match upstream with
  | Some response => ret response
  | None => throw NetworkError
  end.

(** [await response.json()] and [await response.text()] *)
Definition read {A} (response : Response A) : M A :=
  match content response with
  | Some a => ret a
  | None => throw ParseError
  end.

(** [await setTimeout(ms)], recorded with its argument. *)
Definition sleep (ms : number) : M unit := emit (Sleep ms).

(** [encodeURIComponent(s)] in the template of a URL: it throws a
    [URIError] when [s] has a lone surrogate.  What it returns goes into
    the query string, which the trace leaves out. *)
Definition encodeURIComponent (s : jsstring) : M unit :=
  if isWellFormed s then mret tt else throw URIError.

Definition result_of {A} (m : M A) : outcome A := fst m.
Definition trace_of {A} (m : M A) : list event := snd m.

(** ** Twitter ([src/index.ts]) *)

Module Twitter.

(** A user of the API response; a field the response lacks is [None]. *)
Record User := {
  user_name : option jsstring;
  user_username : option jsstring;
  user_description : option jsstring;
}.

(** One match of the pattern on the Nitter page: the three groups. *)
Record NitterMatch := {
  match_username : jsstring;
  match_name : jsstring;
  match_description : jsstring;
}.

(** The embedded JSON of the Twitter search page. *)
Record WebUser := {
  web_name : option jsstring;
  web_screen_name : option jsstring;
  web_description : option jsstring;
}.

Inductive WebPage :=
| NoScript
| BadScript
| Script (users : list WebUser).

(** Process-wide configuration, read from the environment at startup. *)
Record Config := {
  USE_API : bool;
  TWITTER_BEARER_TOKEN : jsstring;
}.

(** What the upstream answers to the requests of one search. *)
Record World := {
  user_search : option (Response (list User));
  nitter_page : option (Response (list NitterMatch));
  twitter_page : option (Response WebPage);
}.

Definition account (name : jsstring) (description : option jsstring) (username : jsstring)
  : ImpersonatingAccount :=
  {| name := name; description := description;
     url := js "https://twitter.com/" ++ username |}.

(** The body of the loop over the API users.  [calculateSimilarity]
    calls [toLowerCase] on its arguments, which throws on a name or a
    username that is not a string. *)
Definition api_step (keyword : jsstring) (throttleMs fuzzyThreshold : number)
    (results : list ImpersonatingAccount) (user : User) : M (list ImpersonatingAccount) :=
  sleep throttleMs;;
  match user_name user, user_username user with
  | Some name, Some username =>
      let description := user_description user in
      let nameSimilarity := calculateSimilarity name keyword in
      let usernameSimilarity := calculateSimilarity username keyword in
      if num_ge nameSimilarity fuzzyThreshold || num_ge usernameSimilarity fuzzyThreshold then
        mret (results ++ [account name description username])
      else if description_mentions description keyword then
        mret (results ++ [account name description username])
      else mret results
  | _, _ => throw TypeError
  end.

Definition searchTwitterAccountsViaAPI (w : World) (options : CrawlOptions)
  : M (list ImpersonatingAccount) :=
  let keyword := keyword options in
  let limit := default (num_of_Z 100) (limit options) in
  let throttleMs := default (num_of_Z 2000) (throttleMs options) in
  let fuzzyThreshold := default num_0_7 (fuzzyThreshold options) in
  try_catch
    (encodeURIComponent keyword;;
     response ← fetch TwitterUserSearch (user_search w);
     if negb (ok response) then throw StatusError
     else
       data ← read response;
       for_each (api_step keyword throttleMs fuzzyThreshold) data [])
    (fun _ => mret []).

(** The body of the loop over the matches of the Nitter page. *)
Definition nitter_step (keyword : jsstring) (throttleMs fuzzyThreshold : number)
    (results : list ImpersonatingAccount) (m : NitterMatch) : M (list ImpersonatingAccount) :=
  sleep throttleMs;;
  let username := match_username m in
  let name := trim (match_name m) in
  let description := trim (match_description m) in
  let nameSimilarity := calculateSimilarity name keyword in
  let usernameSimilarity := calculateSimilarity username keyword in
  if num_ge nameSimilarity fuzzyThreshold || num_ge usernameSimilarity fuzzyThreshold then
    mret (results ++ [account name (Some description) username])
  else if description_mentions (Some description) keyword then
    mret (results ++ [account name (Some description) username])
  else mret results.

Definition scrapeTwitterResults (w : World) (options : CrawlOptions)
  : M (list ImpersonatingAccount) :=
  let keyword := keyword options in
  let throttleMs := default (num_of_Z 3000) (throttleMs options) in
  let fuzzyThreshold := default num_0_7 (fuzzyThreshold options) in
  try_catch
    (encodeURIComponent keyword;;
     response ← fetch NitterSearch (nitter_page w);
     if negb (ok response) then throw StatusError
     else
       html ← read response;
       for_each (nitter_step keyword throttleMs fuzzyThreshold) html [])
    (fun _ => mret []).

(** The body of the loop over the users of the embedded JSON. *)
Definition direct_step (keyword : jsstring) (throttleMs fuzzyThreshold : number)
    (results : list ImpersonatingAccount) (user : WebUser) : M (list ImpersonatingAccount) :=
  sleep throttleMs;;
  let name := or_empty (web_name user) in
  let username := or_empty (web_screen_name user) in
  let description := or_empty (web_description user) in
  let nameSimilarity := calculateSimilarity name keyword in
  let usernameSimilarity := calculateSimilarity username keyword in
  if num_ge nameSimilarity fuzzyThreshold
     || num_ge usernameSimilarity fuzzyThreshold
     || includes (toLowerCase description) (toLowerCase keyword) then
    mret (results ++ [account name (Some description) username])
  else mret results.

Definition scrapeDirectTwitterResults (w : World) (options : CrawlOptions)
  : M (list ImpersonatingAccount) :=
  let keyword := keyword options in
  let throttleMs := default (num_of_Z 3000) (throttleMs options) in
  let fuzzyThreshold := default num_0_7 (fuzzyThreshold options) in
  try_catch
    (encodeURIComponent keyword;;
     response ← fetch TwitterWebSearch (twitter_page w);
     if negb (ok response) then throw StatusError
     else
       html ← read response;
       match html with
       | NoScript => mret []
       | BadScript => throw ParseError
       | Script users => for_each (direct_step keyword throttleMs fuzzyThreshold) users []
       end)
    (fun _ => mret []).

(** [USE_API && TWITTER_BEARER_TOKEN && TWITTER_BEARER_TOKEN !== "your_..."] *)
Definition api_enabled (c : Config) : bool :=
  USE_API c
  && negb (bool_decide (TWITTER_BEARER_TOKEN c = []))
  && negb (bool_decide (TWITTER_BEARER_TOKEN c = js "your_twitter_bearer_token_here")).

(** The first block of [searchTwitterAccounts]: [Some] is its early
    [return]. *)
Definition try_api (c : Config) (w : World) (options : CrawlOptions)
  : M (option (list ImpersonatingAccount)) :=
  if api_enabled c then
    try_catch
      (apiResults ← searchTwitterAccountsViaAPI w options;
       if (0 <? length apiResults)%nat then mret (Some apiResults) else mret None)
      (fun _ => mret None)
  else mret None.

(** The second block. *)
Definition try_nitter (w : World) (options : CrawlOptions)
  : M (option (list ImpersonatingAccount)) :=
  try_catch
    (nitterResults ← scrapeTwitterResults w options;
     if (0 <? length nitterResults)%nat then mret (Some nitterResults) else mret None)
    (fun _ => mret None).

Definition searchTwitterAccounts (c : Config) (w : World) (options : CrawlOptions)
  : M (list ImpersonatingAccount) :=
  fromApi ← try_api c w options;
  match fromApi with
  | Some apiResults => mret apiResults
  | None =>
      fromNitter ← try_nitter w options;
      match fromNitter with
      | Some nitterResults => mret nitterResults
      | None => scrapeDirectTwitterResults w options
      end
  end.

(** [{keyword, limit: limit || 100, throttleMs: throttleMs || 2000,
     fuzzyThreshold: fuzzyThreshold || 0.7}] *)
Definition make_options (keyword : jsstring) (body : RequestBody) : CrawlOptions :=
  {| keyword := keyword;
     limit := Some (or_default (body_limit body) (num_of_Z 100));
     throttleMs := Some (or_default (body_throttleMs body) (num_of_Z 2000));
     fuzzyThreshold := Some (or_default (body_fuzzyThreshold body) num_0_7) |}.

(** [app.post("/api/search", ...)]; [None] is a body that is not JSON. *)
Definition api_search (c : Config) (w : World) (request : option RequestBody) : M HttpResponse :=
  try_catch
    (body ← (match request with Some b => mret b | None => throw ParseError end);
     match body_keyword body with
     | None | Some [] => mret (Failed 400)
     | Some keyword =>
         let options := make_options keyword body in
         results ← searchTwitterAccounts c w options;
         mret (Found keyword (length results) results)
     end)
    (fun _ => mret (Failed 500)).

End Twitter.

(** ** Twitter: the check of one account ([/api/check-account]) *)

Module CheckAccount.

(** The requests of the handler, by the user they ask about. *)
Inductive request :=
| UserLookup (username : jsstring)
| ProfilePage (username : jsstring).

(** A computation of the handler: its outcome and the requests it made,
    in order. *)
Definition H (A : Type) : Type := outcome A * list request.

Definition ret {A} (a : A) : H A := (Returns a, []).
Definition throw {A} (e : exn) : H A := (Throws e, []).
Definition bind {A B} (m : H A) (k : A -> H B) : H B :=
  match m with
  | (Returns a, t) => let '(r, t') := k a in (r, t ++ t')
  | (Throws e, t) => (Throws e, t)
  end.
Definition try_catch {A} (m : H A) (handler : exn -> H A) : H A :=
  match m with
  | (Throws e, t) => let '(r, t') := handler e in (r, t ++ t')
  | returned => returned
  end.

#[local] Instance H_ret : MRet H := @ret.
#[local] Instance H_bind : MBind H := fun A B k m => bind m k.

Definition fetch {A} (r : request) (upstream : option (Response A)) : H (Response A) :=
  match upstream with
  | Some response => (Returns response, [r])
  | None => (Throws NetworkError, [r])
  end.

Definition read {A} (response : Response A) : H A :=
  match content response with
  | Some a => ret a
  | None => throw ParseError
  end.

Definition answer_of {A} (m : H A) : outcome A := fst m.
Definition requests_of {A} (m : H A) : list request := snd m.

(** [userData.data] of the lookup by username, [user.fields=name,description]. *)
Record ApiUser := {
  api_name : option jsstring;
  api_description : option jsstring;
}.

(** What the two patterns find on the Nitter profile: the group of each,
    when it matches. *)
Record Profile := {
  fullname : option jsstring;
  bio : option jsstring;
}.

(** What the upstream answers about a user; the lookup answers with
    [userData.data] when the body has one. *)
Record World := {
  user_lookup : jsstring -> option (Response (option ApiUser));
  profile_page : jsstring -> option (Response Profile);
}.

(** The JSON body of the request.  [None] is a field that is absent. *)
Record Body := {
  req_username : option jsstring;
  req_keyword : option jsstring;
  req_fuzzyThreshold : option number;
}.

(** The value of [isImpersonating]: the [||] chain gives [true], or what
    its last operand evaluates to. *)
Inductive Flag :=
| Bool (b : bool)
| Undefined
| Str (s : jsstring).

(** [c.json({account, isImpersonating, similarityScore})] or
    [c.json({error}, status)]. *)
Inductive Answer :=
| Checked (account : ImpersonatingAccount) (isImpersonating : Flag) (similarityScore : number)
| Error (status : Z).

(** [Math.max(x, y)] *)
Definition num_max (x y : number) : number :=
  match x, y with
  | S754_nan, _ | _, S754_nan => NaN
  | S754_zero sx, S754_zero sy => S754_zero (sx && sy)
  | _, _ => if SFleb x y then y else x
  end.

(** [description && description.toLowerCase().includes(keyword.toLowerCase())],
    as a value. *)
Definition mentions (description : option jsstring) (keyword : jsstring) : Flag :=
  match description with
  | None => Undefined
  | Some [] => Str []
  | Some d => Bool (includes (toLowerCase d) (toLowerCase keyword))
  end.

(** [a || b], for a boolean [a]. *)
Definition or_flag (a : bool) (b : Flag) : Flag :=
  if a then Bool true else b.

(** The block under [if (USE_API && ...)]: [Some] is its [return]. *)
Definition check_via_api (c : Twitter.Config) (w : World) (username keyword : jsstring)
    (fuzzyThreshold : number) : H (option Answer) :=
  if Twitter.api_enabled c then
    try_catch
      (response ← fetch (UserLookup username) (user_lookup w username);
       if ok response then
         userData ← read response;
         match userData with
         | Some user =>
             match api_name user with
             | Some name =>
                 let nameSimilarity := calculateSimilarity name keyword in
                 let usernameSimilarity := calculateSimilarity username keyword in
                 let accountData := Twitter.account name (api_description user) username in
                 let isImpersonating :=
                   or_flag (num_ge nameSimilarity fuzzyThreshold
                            || num_ge usernameSimilarity fuzzyThreshold)
                     (mentions (api_description user) keyword) in
                 mret (Some (Checked accountData isImpersonating
                               (num_max nameSimilarity usernameSimilarity)))
             | None => throw TypeError
             end
         | None => mret None
         end
       else mret None)
      (fun _ => mret None)
  else mret None.

(** The fallback: the profile page on Nitter. *)
Definition check_via_nitter (w : World) (username keyword : jsstring)
    (fuzzyThreshold : number) : H (option Answer) :=
  try_catch
    (response ← fetch (ProfilePage username) (profile_page w username);
     if ok response then
       html ← read response;
       let name := match fullname html with Some n => trim n | None => username end in
       let description := match bio html with Some b => trim b | None => [] end in
       let accountData := Twitter.account name (Some description) username in
       let nameSimilarity := calculateSimilarity name keyword in
       let usernameSimilarity := calculateSimilarity username keyword in
       let isImpersonating :=
         num_ge nameSimilarity fuzzyThreshold
         || num_ge usernameSimilarity fuzzyThreshold
         || includes (toLowerCase description) (toLowerCase keyword) in
       mret (Some (Checked accountData (Bool isImpersonating)
                     (num_max nameSimilarity usernameSimilarity)))
     else mret None)
    (fun _ => mret None).

(** [app.post("/api/check-account", ...)]; [None] is a body that is not
    JSON.  The default of the threshold is that of the destructuring
    pattern: it replaces an absent field only. *)
Definition check_account (c : Twitter.Config) (w : World) (request : option Body) : H Answer :=
  try_catch
    (body ← (match request with Some b => mret b | None => throw ParseError end);
     let fuzzyThreshold := default num_0_7 (req_fuzzyThreshold body) in
     match req_username body with
     | None | Some [] => mret (Error 400)
     | Some username =>
         match req_keyword body with
         | None | Some [] => mret (Error 400)
         | Some keyword =>
             fromApi ← check_via_api c w username keyword fuzzyThreshold;
             match fromApi with
             | Some answer => mret answer
             | None =>
                 fromNitter ← check_via_nitter w username keyword fuzzyThreshold;
                 match fromNitter with
                 | Some answer => mret answer
                 | None => mret (Error 404)
                 end
             end
         end
     end)
    (fun _ => mret (Error 500)).

End CheckAccount.

(** ** YouTube (first unnamed source file)

    The body of the loop of [searchYouTubeChannels] declares the constant
    [channelUrl] twice (lines 98 and 124).  Two lexical declarations of one
    name in one block are an early error: the file is rejected when it is
    loaded, and none of its functions or endpoints ever runs.  The
    definitions below are the two search functions and their caller read
    with the second constant as the value it is initialised with, the
    address of the details request; they say what the text of the file
    computes, not what a deployment of it answers. *)

Module YouTube.

(** The names the body of the loop declares, in order: the destructuring
    pattern, the two constants of the first half and the constant of the
    second half. *)
Definition loop_declarations : list string :=
  ["title"; "description"; "channelId"; "channelUrl"; "similarity"; "channelUrl"]%string.

(** "It is a Syntax Error if the lexically declared names of a statement
    list contain any duplicate entries." *)
Fixpoint early_error (names : list string) : bool :=
  match names with
  | [] => false
  | name :: rest => existsb (String.eqb name) rest || early_error rest
  end.

(** [item.snippet] of a channel search result. *)
Record Snippet := {
  title : option jsstring;
  snippet_description : option jsstring;
  channelId : jsstring;
}.

(** [channelData.items[0]]: [snippet?.description] and
    [brandingSettings?.channel?.description]. *)
Record ChannelDetails := {
  details_description : option jsstring;
  details_about : option jsstring;
}.

(** What the two patterns find on a channel page. *)
Record ChannelPage := {
  og_title : option jsstring;
  og_description : option jsstring;
}.

(** [item.snippet] of a video search result. *)
Record VideoSnippet := {
  video_channelId : jsstring;
  channelTitle : option jsstring;
}.

(** What the upstream answers to the requests of one search;
    [channel_details] answers with [channelData.items[0]] when there is
    one. *)
Record World := {
  channel_search : option (Response (list Snippet));
  channel_details : jsstring -> option (Response (option ChannelDetails));
  results_page : option (Response (list jsstring));
  channel_page : jsstring -> option (Response ChannelPage);
  video_search : option (Response (list VideoSnippet));
}.

Definition channel_url (channelId : jsstring) : jsstring :=
  js "https://www.youtube.com/channel/" ++ channelId.

(** [a || b] on strings. *)
Definition or_else (a b : jsstring) : jsstring :=
  match a with [] => b | _ => a end.

(** The [try] block inside the loop: the detailed info of the channel. *)
Definition enrich (w : World) (keyword : jsstring) (name : jsstring) (channelId : jsstring)
    (results : list ImpersonatingAccount) : M (list ImpersonatingAccount) :=
  try_catch
    (channelResponse ← fetch (YouTubeChannelDetails channelId) (channel_details w channelId);
     if ok channelResponse then
       channelData ← read channelResponse;
       match channelData with
       | Some channelDetails =>
           let channelDescription := or_empty (details_description channelDetails) in
           let channelAbout := or_empty (details_about channelDetails) in
           if includes (toLowerCase channelDescription) (toLowerCase keyword)
              || includes (toLowerCase channelAbout) (toLowerCase keyword) then
             if negb (existsb (same_url (channel_url channelId)) results) then
               mret (results ++ [{| name := name;
                                    description := Some (or_else channelDescription channelAbout);
                                    url := channel_url channelId |}])
             else mret results
           else mret results
       | None => mret results
       end
     else mret results)
    (fun _ => mret results).

(** The body of the loop over the API items.  The source declares
    [channelUrl] twice in this block, for the page of the channel and for
    the request of its details; the first is [channelUrl] here and the
    second is the [YouTubeChannelDetails] endpoint of [enrich]. *)
Definition api_step (w : World) (keyword : jsstring) (throttleMs fuzzyThreshold : number)
    (results : list ImpersonatingAccount) (item : Snippet) : M (list ImpersonatingAccount) :=
  sleep throttleMs;;
  match title item with
  | Some name =>
      let description := snippet_description item in
      let channelUrl := channel_url (channelId item) in
      let similarity := calculateSimilarity name keyword in
      let results :=
        if num_ge similarity fuzzyThreshold then
          results ++ [{| name := name; description := description; url := channelUrl |}]
        else if description_mentions description keyword then
          results ++ [{| name := name; description := description; url := channelUrl |}]
        else results in
      results ← enrich w keyword name (channelId item) results;
      sleep throttleMs;;
      mret results
  | None => throw TypeError
  end.

Definition searchYouTubeChannels (w : World) (options : CrawlOptions)
  : M (list ImpersonatingAccount) :=
  let keyword := keyword options in
  let limit := default (num_of_Z 50) (limit options) in
  let throttleMs := default (num_of_Z 1000) (throttleMs options) in
  let fuzzyThreshold := default num_0_7 (fuzzyThreshold options) in
  try_catch
    (encodeURIComponent keyword;;
     response ← fetch YouTubeChannelSearch (channel_search w);
     if negb (ok response) then throw StatusError
     else
       data ← read response;
       for_each (api_step w keyword throttleMs fuzzyThreshold) data [])
    (fun _ => mret []).

(** The [try] block inside the scraping loop: the page of one channel. *)
Definition scrape_channel (w : World) (keyword : jsstring) (handle : jsstring)
    (results : list ImpersonatingAccount) : M (list ImpersonatingAccount) :=
  let channelUrl := js "https://www.youtube.com/" ++ handle in
  try_catch
    (channelResponse ← fetch (YouTubeChannelPage handle) (channel_page w handle);
     if ok channelResponse then
       channelHtml ← read channelResponse;
       let name := default handle (og_title channelHtml) in
       let description := or_empty (og_description channelHtml) in
       let similarity := calculateSimilarity name keyword in
       if num_ge similarity num_0_7
          || includes (toLowerCase description) (toLowerCase keyword) then
         mret (results ++ [{| name := name; description := Some description; url := channelUrl |}])
       else mret results
     else mret results)
    (fun _ => mret results).

Definition scrape_step (w : World) (keyword : jsstring) (throttleMs : number)
    (results : list ImpersonatingAccount) (handle : jsstring) : M (list ImpersonatingAccount) :=
  sleep throttleMs;;
  results ← scrape_channel w keyword handle results;
  sleep throttleMs;;
  mret results.

Definition scrapeYouTubeResults (w : World) (keyword : jsstring) (throttleMs : option number)
  : M (list ImpersonatingAccount) :=
  let throttleMs := default (num_of_Z 2000) throttleMs in
  try_catch
    (encodeURIComponent keyword;;
     response ← fetch YouTubeResultsPage (results_page w);
     if negb (ok response) then throw StatusError
     else
       html ← read response;
       for_each (scrape_step w keyword throttleMs) html [])
    (fun _ => mret []).

(** The part of the [/api/search] handler after the options are built. *)
Definition search (w : World) (options : CrawlOptions) : M (list ImpersonatingAccount) :=
  results ← searchYouTubeChannels w options;
  if bool_decide (length results = 0%nat) then
    scrapeYouTubeResults w (keyword options) (throttleMs options)
  else mret results.

End YouTube.

(** ** Facebook (second unnamed source file) *)

Module Facebook.

(** An item of the page search, [fields=name,about,link]. *)
Record Page := {
  page_name : option jsstring;
  about : option jsstring;
  page_link : jsstring;
}.

(** An item of the user search, [fields=name,link]. *)
Record User := {
  user_name : option jsstring;
  user_link : jsstring;
}.

(** One match of the pattern on the search page: the two groups. *)
Record PageMatch := {
  match_url : jsstring;
  match_name : jsstring;
}.

Record World := {
  page_search : option (Response (list Page));
  user_search : option (Response (list User));
  search_page : option (Response (list PageMatch));
}.

(** The body of the loop over the pages. *)
Definition page_step (keyword : jsstring) (throttleMs fuzzyThreshold : number)
    (results : list ImpersonatingAccount) (item : Page) : M (list ImpersonatingAccount) :=
  sleep throttleMs;;
  match page_name item with
  | Some name =>
      let similarity := calculateSimilarity name keyword in
      if num_ge similarity fuzzyThreshold then
        mret (results ++ [{| name := name; description := about item; url := page_link item |}])
      else mret results
  | None => throw TypeError
  end.

(** The body of the loop over the users. *)
Definition user_step (keyword : jsstring) (throttleMs fuzzyThreshold : number)
    (results : list ImpersonatingAccount) (user : User) : M (list ImpersonatingAccount) :=
  sleep throttleMs;;
  match user_name user with
  | Some name =>
      let similarity := calculateSimilarity name keyword in
      if num_ge similarity fuzzyThreshold then
        mret (results ++ [{| name := name; description := None; url := user_link user |}])
      else mret results
  | None => throw TypeError
  end.

Definition searchFacebookAccounts (w : World) (options : CrawlOptions)
  : M (list ImpersonatingAccount) :=
  let keyword := keyword options in
  let limit := default (num_of_Z 25) (limit options) in
  let throttleMs := default (num_of_Z 1000) (throttleMs options) in
  let fuzzyThreshold := default num_0_7 (fuzzyThreshold options) in
  try_catch
    (encodeURIComponent keyword;;
     response ← fetch FacebookPageSearch (page_search w);
     if negb (ok response) then throw StatusError
     else
       data ← read response;
       results ← for_each (page_step keyword throttleMs fuzzyThreshold) data [];
       encodeURIComponent keyword;;
       userResponse ← fetch FacebookUserSearch (user_search w);
       if negb (ok userResponse) then mret results
       else
         userData ← read userResponse;
         for_each (user_step keyword throttleMs fuzzyThreshold) userData results)
    (fun _ => mret []).

(** The body of the loop over the matches of the search page. *)
Definition scrape_step (keyword : jsstring) (throttleMs : number)
    (results : list ImpersonatingAccount) (m : PageMatch) : M (list ImpersonatingAccount) :=
  sleep throttleMs;;
  let url := match_url m in
  let name := match_name m in
  let similarity := calculateSimilarity name keyword in
  if num_ge similarity num_0_7 then
    mret (results ++ [{| name := name; description := None; url := url |}])
  else mret results.

Definition scrapeFacebookResults (w : World) (keyword : jsstring) (throttleMs : option number)
  : M (list ImpersonatingAccount) :=
  let throttleMs := default (num_of_Z 2000) throttleMs in
  try_catch
    (encodeURIComponent keyword;;
     response ← fetch FacebookSearchPage (search_page w);
     if negb (ok response) then throw StatusError
     else
       html ← read response;
       for_each (scrape_step keyword throttleMs) html [])
    (fun _ => mret []).

Definition make_options (keyword : jsstring) (body : RequestBody) : CrawlOptions :=
  {| keyword := keyword;
     limit := Some (or_default (body_limit body) (num_of_Z 25));
     throttleMs := Some (or_default (body_throttleMs body) (num_of_Z 1000));
     fuzzyThreshold := Some (or_default (body_fuzzyThreshold body) num_0_7) |}.

(** The part of the [/api/search] handler after the options are built. *)
Definition search (w : World) (options : CrawlOptions) : M (list ImpersonatingAccount) :=
  results ← searchFacebookAccounts w options;
  if bool_decide (length results = 0%nat) then
    scrapeFacebookResults w (keyword options) (throttleMs options)
  else mret results.

(** [app.post("/api/search", ...)] *)
Definition api_search (w : World) (request : option RequestBody) : M HttpResponse :=
  try_catch
    (body ← (match request with Some b => mret b | None => throw ParseError end);
     match body_keyword body with
     | None | Some [] => mret (Failed 400)
     | Some keyword =>
         let options := make_options keyword body in
         results ← search w options;
         mret (Found keyword (length results) results)
     end)
    (fun _ => mret (Failed 500)).

End Facebook.

(** ** Notions the properties are stated with *)

(** The distance between the first [i] code units of [str1] and the first
    [j] of [str2]: what cell [(i, j)] of the matrix is meant to hold. *)
Definition prefix_distance (str1 str2 : jsstring) (i j : nat) : Z :=
  Z.of_nat (levenshtein (reverse (take i str1)) (reverse (take j str2))).

(** The matrix has its [len1 + 1] rows of [len2 + 1] cells. *)
Definition well_formed (len1 len2 : nat) (m : matrix) : Prop :=
  length m = (len1 + 1)%nat /\
  forall i row, m !! i = Some row -> length row = (len2 + 1)%nat.

(** The cells selected by [P] hold their prefix distance. *)
Definition filled (str1 str2 : jsstring) (P : nat -> nat -> Prop) (m : matrix) : Prop :=
  well_formed (length str1) (length str2) m /\
  forall i j, (i <= length str1)%nat -> (j <= length str2)%nat -> P i j ->
    mget m i j = prefix_distance str1 str2 i j.


(** An upstream that fails: the request does not complete, the status is
    not a success, or the body cannot be read. *)
Definition unavailable {A} (upstream : option (Response A)) : bool :=
  match upstream with
  | None => true
  | Some response =>
      negb (ok response) || match content response with None => true | Some _ => false end
  end.

(** The requests a computation made. *)
Definition requested {A} (e : endpoint) (m : M A) : Prop := Fetch e ∈ trace_of m.

(** The official API of a platform, as opposed to the pages the scraping
    fallbacks load. *)
Definition api_endpoint (e : endpoint) : bool :=
  match e with
  | TwitterUserSearch
  | YouTubeChannelSearch | YouTubeChannelDetails _
  | FacebookPageSearch | FacebookUserSearch => true
  | NitterSearch | TwitterWebSearch
  | YouTubeResultsPage | YouTubeChannelPage _
  | FacebookSearchPage => false
  end.

Definition scrapes (ev : event) : bool :=
  match ev with
  | Fetch e => negb (api_endpoint e)
  | Sleep _ => false
  end.

(** Some scraping fallback ran. *)
Definition scraped {A} (m : M A) : bool := existsb scrapes (trace_of m).

(** All requests of a trace go to endpoints in [P]. *)
Definition requests_within (P : endpoint -> Prop) (t : list event) : Prop :=
  Forall (fun ev => match ev with Fetch e => P e | Sleep _ => True end) t.

(** "Its similarity score is at least the threshold." *)
Definition scores (x keyword : jsstring) (threshold : number) : Prop :=
  num_ge (calculateSimilarity x keyword) threshold = true.

(** "Its description contains the keyword as a case-insensitive
    substring." *)
Definition contains_keyword (description : option jsstring) (keyword : jsstring) : Prop :=
  exists d, description = Some d /\ includes (toLowerCase d) (toLowerCase keyword) = true.



(** The same for the pages and the users of Facebook. *)
Definition page_candidate (page : Facebook.Page) : ImpersonatingAccount :=
  {| name := or_empty (Facebook.page_name page); description := Facebook.about page;
     url := Facebook.page_link page |}.

Definition page_listed (keyword : jsstring) (threshold : number) (page : Facebook.Page) : bool :=
  match Facebook.page_name page with
  | Some name => num_ge (calculateSimilarity name keyword) threshold
  | None => false
  end.



(** What the scraping fallbacks make of one match of their pattern and of
    one user of the embedded JSON. *)
Definition nitter_candidate (m : Twitter.NitterMatch) : ImpersonatingAccount :=
  Twitter.account (trim (Twitter.match_name m)) (Some (trim (Twitter.match_description m)))
    (Twitter.match_username m).

Definition web_candidate (user : Twitter.WebUser) : ImpersonatingAccount :=
  Twitter.account (or_empty (Twitter.web_name user)) (Some (or_empty (Twitter.web_description user)))
    (or_empty (Twitter.web_screen_name user)).

Definition match_candidate (m : Facebook.PageMatch) : ImpersonatingAccount :=
  {| name := Facebook.match_name m; description := None; url := Facebook.match_url m |}.






(** What the lookup by username tells the check of an account: the user
    of the response, when the API is enabled and the request succeeds; and
    the profile the fallback reads, when the page loads. *)
Definition looked_up (c : Twitter.Config) (w : CheckAccount.World) (username : jsstring)
  : option CheckAccount.ApiUser :=
  if Twitter.api_enabled c then
    match CheckAccount.user_lookup w username with
    | Some response => if ok response then mjoin (content response) else None
    | None => None
    end
  else None.

Definition profile_of (w : CheckAccount.World) (username : jsstring)
  : option CheckAccount.Profile :=
  match CheckAccount.profile_page w username with
  | Some response => if ok response then content response else None
  | None => None
  end.

(** A request that names the account and the keyword. *)
Definition names (body : CheckAccount.Body) (username keyword : jsstring) : Prop :=
  CheckAccount.req_username body = Some username /\ username <> [] /\
  CheckAccount.req_keyword body = Some keyword /\ keyword <> [].

(** * Properties *)

(** ** The model at work *)

Example toLowerCase_ascii : toLowerCase (js "Acme Corp") = js "acme corp".
Proof. reflexivity. Qed.

(** U+0130 becomes "i" and a combining dot: the length changes. *)
Example toLowerCase_dotted_I : toLowerCase [0x130%N] = [0x69%N; 0x307%N].
Proof. reflexivity. Qed.

(** Cyrillic "АКМЕ" becomes "акме". *)
Example toLowerCase_cyrillic :
  toLowerCase [0x410%N; 0x41A%N; 0x41C%N; 0x415%N] = [0x430%N; 0x43A%N; 0x43C%N; 0x435%N].
Proof. reflexivity. Qed.

(** Greek "ΣΟΣ": the sigma that ends the word becomes U+03C2, the one that
    starts it U+03C3. *)
Example toLowerCase_final_sigma :
  toLowerCase [0x3A3%N; 0x39F%N; 0x3A3%N] = [0x3C3%N; 0x3BF%N; 0x3C2%N].
Proof. reflexivity. Qed.

(** A letter above U+FFFF, here U+10400 of Deseret, is lowered as one code
    point and stays a surrogate pair; a lone surrogate is left as it is. *)
Example toLowerCase_surrogates :
  toLowerCase [0xD801%N; 0xDC00%N] = [0xD801%N; 0xDC28%N] /\
  toLowerCase [0xDC00%N; 0x41%N] = [0xDC00%N; 0x61%N].
Proof. split; reflexivity. Qed.

Example includes_inside : includes (js "the official acme store") (js "acme") = true.
Proof. reflexivity. Qed.

Example includes_longer : includes (js "acm") (js "acme") = false.
Proof. reflexivity. Qed.

Example includes_empty : includes (js "") (js "") = true.
Proof. reflexivity. Qed.

Example trim_both_ends : trim (js "  Acme Corp ") = js "Acme Corp".
Proof. reflexivity. Qed.

Example matrix_distance_kitten : matrix_distance (js "kitten") (js "sitting") = 3.
Proof. reflexivity. Qed.

(** [1 - 5/9], printed [0.4444444444444444]. *)
Example calculateSimilarity_acme :
  calculateSimilarity (js "acme") (js "Acme Corp") = S754_finite false 8006399337547548 (-54).
Proof. reflexivity. Qed.

Example num_0_7_value : num_0_7 = S754_finite false 6305039478318694 (-53).
Proof. reflexivity. Qed.

Example isWellFormed_pair : isWellFormed [0x61%N; 0xD83D%N; 0xDE00%N] = true.
Proof. reflexivity. Qed.

Example isWellFormed_lone : isWellFormed [0x61%N; 0xD83D%N] = false.
Proof. reflexivity. Qed.

(** The file of the YouTube service is rejected when it is loaded. *)
Example YouTube_early_error : YouTube.early_error YouTube.loop_declarations = true.
Proof. reflexivity. Qed.

(** ** The Levenshtein distance *)

Section Levenshtein.

Lemma levenshtein_nil_r s : levenshtein s [] = length s.
Proof. by destruct s. Qed.

Lemma levenshtein_cons a b s t :
  levenshtein (a :: s) (b :: t) =
  Nat.min (Nat.min (levenshtein s (b :: t) + 1) (levenshtein (a :: s) t + 1))
    (levenshtein s t + subst_cost a b).
Proof. reflexivity. Qed.

Lemma subst_cost_sym a b : subst_cost a b = subst_cost b a.
Proof. unfold subst_cost. by rewrite N.eqb_sym. Qed.

Lemma levenshtein_sym s : forall t, levenshtein s t = levenshtein t s.
Proof.
  induction s as [|a s IHs]; intros t.
  - by rewrite levenshtein_nil_r.
  - induction t as [|b t IHt]; [done|].
    rewrite !levenshtein_cons, IHt, !IHs, (subst_cost_sym a b). lia.
Qed.

(** The recursion yields the cost of a script ... *)
Lemma levenshtein_script s : forall t, edit_script s t (levenshtein s t).
Proof.
  induction s as [|a s IHs]; intros t.
  - induction t as [|b t IHt]; [constructor|]. by apply edit_insert.
  - induction t as [|b t IHt].
    + rewrite levenshtein_nil_r. simpl. apply edit_delete.
      specialize (IHs []). by rewrite levenshtein_nil_r in IHs.
    + rewrite levenshtein_cons.
      assert (Hsub : edit_script (a :: s) (b :: t) (levenshtein s t + subst_cost a b)).
      { unfold subst_cost. destruct (N.eqb_spec a b) as [->|_].
        - rewrite Nat.add_0_r. apply edit_keep, IHs.
        - rewrite Nat.add_1_r. apply edit_subst, IHs. }
      assert (Hdel : edit_script (a :: s) (b :: t) (levenshtein s (b :: t) + 1)).
      { rewrite Nat.add_1_r. apply edit_delete, IHs. }
      assert (Hins : edit_script (a :: s) (b :: t) (levenshtein (a :: s) t + 1)).
      { rewrite Nat.add_1_r. by apply edit_insert. }
      destruct (Nat.min_spec (Nat.min (levenshtein s (b :: t) + 1) (levenshtein (a :: s) t + 1))
                  (levenshtein s t + subst_cost a b)) as [[_ ->]|[_ ->]]; [|done].
      by destruct (Nat.min_spec (levenshtein s (b :: t) + 1) (levenshtein (a :: s) t + 1))
        as [[_ ->]|[_ ->]].
Qed.

(** ... and no script is cheaper. *)
Lemma levenshtein_least s t n : edit_script s t n -> (levenshtein s t <= n)%nat.
Proof.
  induction 1 as [|a s t n _ IH|a b s t n _ IH|a s t n _ IH|b s t n _ IH].
  - done.
  - rewrite levenshtein_cons. unfold subst_cost. rewrite N.eqb_refl. lia.
  - rewrite levenshtein_cons. unfold subst_cost. destruct (a =? b)%N; lia.
  - destruct t as [|b t].
    + rewrite levenshtein_nil_r in *. simpl. lia.
    + rewrite levenshtein_cons. lia.
  - destruct s as [|a s].
    + simpl in *. lia.
    + rewrite levenshtein_cons. lia.
Qed.

Lemma edit_script_app s t n s' t' n' :
  edit_script s t n -> edit_script s' t' n' -> edit_script (s ++ s') (t ++ t') (n + n').
Proof. induction 1; intros; simpl; [done|constructor; auto..]. Qed.

Lemma edit_script_reverse s t n :
  edit_script s t n -> edit_script (reverse s) (reverse t) n.
Proof.
  induction 1 as [|a s t n _ IH|a b s t n _ IH|a s t n _ IH|b s t n _ IH];
    rewrite ?reverse_nil, ?reverse_cons.
  - constructor.
  - rewrite <- (Nat.add_0_r n). apply edit_script_app; [done|]. repeat constructor.
  - rewrite <- Nat.add_1_r. apply edit_script_app; [done|]. repeat constructor.
  - rewrite <- Nat.add_1_r, <- (app_nil_r (reverse t)).
    apply edit_script_app; [done|]. repeat constructor.
  - rewrite <- Nat.add_1_r, <- (app_nil_r (reverse s)).
    apply edit_script_app; [done|]. repeat constructor.
Qed.

Lemma levenshtein_reverse s t :
  levenshtein (reverse s) (reverse t) = levenshtein s t.
Proof.
  apply Nat.le_antisymm.
  - apply levenshtein_least, edit_script_reverse, levenshtein_script.
  - rewrite <- (reverse_involutive s), <- (reverse_involutive t) at 1.
    apply levenshtein_least, edit_script_reverse, levenshtein_script.
Qed.

Lemma edit_script_length s t n :
  edit_script s t n -> (length s <= length t + n)%nat /\ (length t <= length s + n)%nat.
Proof. induction 1; simpl; lia. Qed.

Lemma edit_script_zero s t : edit_script s t 0 -> s = t.
Proof.
  remember 0%nat as n eqn:Hn. induction 1; try discriminate; [done|].
  f_equal. auto.
Qed.

Lemma levenshtein_refl s : levenshtein s s = 0%nat.
Proof.
  induction s as [|a s IH]; [done|].
  rewrite levenshtein_cons, IH. unfold subst_cost. rewrite N.eqb_refl. lia.
Qed.

Lemma levenshtein_zero s t : levenshtein s t = 0%nat <-> s = t.
Proof.
  split.
  - intros H. apply edit_script_zero. rewrite <- H. apply levenshtein_script.
  - intros ->. apply levenshtein_refl.
Qed.

Lemma levenshtein_le_max s t : (levenshtein s t <= Nat.max (length s) (length t))%nat.
Proof.
  revert t. induction s as [|a s IHs]; intros t; [simpl; lia|].
  destruct t as [|b t]; [rewrite levenshtein_nil_r; simpl; lia|].
  rewrite levenshtein_cons. specialize (IHs t). unfold subst_cost.
  destruct (a =? b)%N; simpl; lia.
Qed.

End Levenshtein.

(** ** The matrix of [calculateSimilarity] *)

Lemma foldl_seq_invariant {A} (I : nat -> A -> Prop) (f : A -> nat -> A) n : forall a x,
  I a x ->
  (forall k y, (a <= k < a + n)%nat -> I k y -> I (S k) (f y k)) ->
  I (a + n)%nat (foldl f x (seq a n)).
Proof.
  induction n as [|n IH]; intros a x Hx Hstep; simpl.
  - by rewrite Nat.add_0_r.
  - rewrite <- Nat.add_succ_comm. apply IH.
    + apply Hstep; [lia|done].
    + intros k y Hk. apply Hstep. lia.
Qed.

Section Matrix.
Variables str1 str2 : jsstring.
Let len1 := length str1.
Let len2 := length str2.

Lemma mget_mset m i j v :
  well_formed len1 len2 m -> (i <= len1)%nat -> (j <= len2)%nat ->
  mget (mset m i j v) i j = v.
Proof.
  intros [Hlen Hrows] Hi Hj. unfold mget, mset.
  rewrite list_lookup_alter_eq.
  destruct (lookup_lt_is_Some_2 m i) as [row Hrow]; [lia|].
  rewrite Hrow. simpl. rewrite list_lookup_insert_eq; [done|].
  rewrite (Hrows _ _ Hrow). lia.
Qed.

Lemma mget_mset_ne m i j v i' j' :
  i <> i' \/ j <> j' -> mget (mset m i j v) i' j' = mget m i' j'.
Proof.
  intros Hne. unfold mget, mset.
  destruct (decide (i = i')) as [<-|Hi].
  - rewrite list_lookup_alter_eq. destruct (m !! i) as [row|]; [|done].
    simpl. rewrite list_lookup_insert_ne; [done|]. by destruct Hne.
  - by rewrite list_lookup_alter_ne.
Qed.

Lemma mset_well_formed m i j v :
  well_formed len1 len2 m -> well_formed len1 len2 (mset m i j v).
Proof.
  intros [Hlen Hrows]. unfold mset. split.
  - by rewrite length_alter.
  - intros i' row. destruct (decide (i = i')) as [<-|Hi].
    + rewrite list_lookup_alter_eq. destruct (m !! i) as [row'|] eqn:Hrow; [|done].
      simpl. intros [= <-]. rewrite length_insert. eauto.
    + rewrite list_lookup_alter_ne; [|done]. eauto.
Qed.

Lemma new_matrix_well_formed : well_formed len1 len2 (new_matrix len1 len2).
Proof.
  unfold new_matrix. split.
  - by rewrite length_replicate.
  - intros i row Hrow. apply lookup_replicate_1 in Hrow as [-> _].
    by rewrite length_replicate.
Qed.

Lemma prefix_distance_column i :
  (i <= len1)%nat -> prefix_distance str1 str2 i 0 = Z.of_nat i.
Proof.
  intros Hi. unfold prefix_distance.
  by rewrite take_0, levenshtein_nil_r, length_reverse, length_take_le.
Qed.

Lemma prefix_distance_row j :
  (j <= len2)%nat -> prefix_distance str1 str2 0 j = Z.of_nat j.
Proof.
  intros Hj. unfold prefix_distance.
  rewrite take_0. simpl. by rewrite length_reverse, length_take_le.
Qed.

Lemma prefix_distance_step i j :
  (1 <= i <= len1)%nat -> (1 <= j <= len2)%nat ->
  prefix_distance str1 str2 i j =
  Z.min (Z.min (prefix_distance str1 str2 (i - 1) j + 1)
           (prefix_distance str1 str2 i (j - 1) + 1))
    (prefix_distance str1 str2 (i - 1) (j - 1) + cell_cost str1 str2 i j).
Proof.
  intros Hi Hj. unfold prefix_distance, cell_cost.
  destruct i as [|i]; [lia|]. destruct j as [|j]; [lia|].
  replace (S i - 1)%nat with i by lia. replace (S j - 1)%nat with j by lia.
  destruct (lookup_lt_is_Some_2 str1 i) as [a Ha]; [fold len1; lia|].
  destruct (lookup_lt_is_Some_2 str2 j) as [b Hb]; [fold len2; lia|].
  rewrite (take_S_r _ _ _ Ha), (take_S_r _ _ _ Hb), !reverse_snoc, levenshtein_cons.
  rewrite Ha, Hb. unfold subst_cost.
  rewrite !Nat2Z.inj_min, !Nat2Z.inj_add.
  destruct (N.eqb_spec a b) as [->|Hab]; case_decide; try done; congruence.
Qed.

(** After the first loop the first column is in place ... *)
Lemma fill_first_column_filled :
  filled str1 str2 (fun i j => j = 0%nat) (fill_first_column len1 (new_matrix len1 len2)).
Proof.
  unfold fill_first_column.
  pose (I := fun k m => well_formed len1 len2 m /\
    forall i, (i < k)%nat -> (i <= len1)%nat -> mget m i 0 = prefix_distance str1 str2 i 0).
  assert (H : I (0 + (len1 + 1))%nat
                (foldl (fun m i => mset m i 0 (Z.of_nat i)) (new_matrix len1 len2)
                   (seq 0 (len1 + 1)))).
  { apply foldl_seq_invariant.
    - split; [apply new_matrix_well_formed|lia].
    - intros k m Hk [Hwf Hcells]. split; [by apply mset_well_formed|].
      intros i Hi Hi'. destruct (decide (i = k)) as [->|Hne].
      + rewrite mget_mset by (done || lia). by rewrite prefix_distance_column.
      + rewrite mget_mset_ne by (left; lia). apply Hcells; lia. }
  destruct H as [Hwf Hcells]. split; [done|].
  intros i j Hi _ ->. apply Hcells; lia.
Qed.

(** ... after the second the first row as well ... *)
Lemma fill_first_row_filled m :
  filled str1 str2 (fun i j => j = 0%nat) m ->
  filled str1 str2 (fun i j => i = 0%nat \/ j = 0%nat) (fill_first_row len2 m).
Proof.
  intros [Hwf0 Hcol]. unfold fill_first_row.
  pose (I := fun k m => well_formed len1 len2 m /\
    (forall i, (i <= len1)%nat -> mget m i 0 = prefix_distance str1 str2 i 0) /\
    forall j, (j < k)%nat -> (j <= len2)%nat -> mget m 0 j = prefix_distance str1 str2 0 j).
  assert (H : I (0 + (len2 + 1))%nat
                (foldl (fun m j => mset m 0 j (Z.of_nat j)) m (seq 0 (len2 + 1)))).
  { apply foldl_seq_invariant.
    - split; [done|]. split; [|lia]. intros i Hi. apply Hcol; lia.
    - intros k m' Hk (Hwf & Hcol' & Hcells). split; [by apply mset_well_formed|]. split.
      + intros i Hi. destruct (decide (i = 0%nat /\ k = 0%nat)) as [[-> ->]|Hne].
        * rewrite mget_mset by (done || lia). by rewrite prefix_distance_row by lia.
        * rewrite mget_mset_ne by lia. by apply Hcol'.
      + intros j Hj Hj'. destruct (decide (j = k)) as [->|Hne].
        * rewrite mget_mset by (done || lia). by rewrite prefix_distance_row.
        * rewrite mget_mset_ne by (right; lia). apply Hcells; lia. }
  destruct H as (Hwf & Hcol' & Hcells). split; [done|].
  intros i j Hi Hj [->| ->]; [apply Hcells; lia|by apply Hcol'].
Qed.

(** ... and each pass of the inner loop completes one more row. *)
Lemma fill_row_filled m i :
  (1 <= i <= len1)%nat ->
  filled str1 str2 (fun i' j' => (i' < i)%nat \/ j' = 0%nat) m ->
  filled str1 str2 (fun i' j' => (i' < S i)%nat \/ j' = 0%nat) (fill_row str1 str2 len2 m i).
Proof.
  intros Hi Hm. unfold fill_row.
  pose (I := fun k m => filled str1 str2
    (fun i' j' => (i' < i)%nat \/ j' = 0%nat \/ (i' = i /\ j' < k)%nat) m).
  assert (H : I (1 + len2)%nat
                (foldl (fun m j => fill_cell str1 str2 m i j) m (seq 1 len2))).
  { apply foldl_seq_invariant.
    - destruct Hm as [Hwf Hcells]. split; [done|].
      intros i' j' Hi' Hj' Hsel. apply Hcells; [done..|]. lia.
    - intros k m' Hk [Hwf Hcells]. split; [by apply mset_well_formed|].
      intros i' j' Hi' Hj' Hsel. unfold fill_cell.
      destruct (decide (i' = i /\ j' = k)) as [[-> ->]|Hne].
      + rewrite mget_mset by (done || fold len1 len2; lia).
        rewrite prefix_distance_step by lia.
        rewrite !Hcells by lia. done.
      + rewrite mget_mset_ne by lia. apply Hcells; [done..|]. lia. }
  destruct H as [Hwf Hcells]. split; [done|].
  intros i' j' Hi' Hj' Hsel. apply Hcells; [done..|]. fold len2 in Hj'. lia.
Qed.

Lemma fill_matrix_filled m :
  filled str1 str2 (fun i j => i = 0%nat \/ j = 0%nat) m ->
  filled str1 str2 (fun _ _ => True) (fill_matrix str1 str2 len1 len2 m).
Proof.
  intros Hm. unfold fill_matrix.
  pose (I := fun k m => filled str1 str2 (fun i' j' => (i' < k)%nat \/ j' = 0%nat) m).
  assert (H : I (1 + len1)%nat (foldl (fill_row str1 str2 len2) m (seq 1 len1))).
  { apply foldl_seq_invariant.
    - destruct Hm as [Hwf Hcells]. split; [done|].
      intros i' j' Hi' Hj' Hsel. apply Hcells; [done..|]. lia.
    - intros k m' Hk Hm'. apply fill_row_filled; [lia|done]. }
  destruct H as [Hwf Hcells]. split; [done|].
  intros i' j' Hi' Hj' _. apply Hcells; [done..|]. fold len1 in Hi'. lia.
Qed.

(** The cell the source reads holds the Levenshtein distance. *)
Lemma matrix_distance_levenshtein :
  matrix_distance str1 str2 = Z.of_nat (levenshtein str1 str2).
Proof.
  unfold matrix_distance.
  destruct (fill_matrix_filled _ (fill_first_row_filled _ fill_first_column_filled))
    as [_ Hcells].
  rewrite Hcells by (done || lia).
  unfold prefix_distance.
  by rewrite !take_ge, levenshtein_reverse by lia.
Qed.

End Matrix.

(** What the function computes, for all arguments: in binary64,
    [1 - distance / maxLen] of the lower-cased strings. *)
Lemma calculateSimilarity_formula a b :
  calculateSimilarity a b =
  num_sub num_one
    (num_div (num_of_Z (Z.of_nat (levenshtein (toLowerCase a) (toLowerCase b))))
       (num_of_Z (Z.of_nat (Nat.max (length (toLowerCase a)) (length (toLowerCase b)))))).
Proof. unfold calculateSimilarity. by rewrite matrix_distance_levenshtein. Qed.

(** ** Integers as binary64 numbers *)

Lemma digits2_pos_size p : digits2_pos p = Pos.size p.
Proof. induction p; simpl; congruence. Qed.

(** 2^(d-1) <= p < 2^d *)
Lemma digits2_pos_bounds p :
  2 ^ (Zpos (digits2_pos p) - 1) <= Zpos p < 2 ^ Zpos (digits2_pos p).
Proof.
  induction p as [p IH|p IH|]; simpl digits2_pos; [| |simpl; lia];
    rewrite Pos2Z.inj_succ;
    replace (Z.succ (Zpos (digits2_pos p)) - 1) with (Z.succ (Zpos (digits2_pos p) - 1)) by lia;
    rewrite !Z.pow_succ_r by lia; lia.
Qed.

Lemma digits2_pos_unique p d :
  2 ^ (d - 1) <= Zpos p < 2 ^ d -> Zpos (digits2_pos p) = d.
Proof.
  intros [Hlo Hhi]. pose proof (digits2_pos_bounds p) as [Hlo' Hhi'].
  assert (0 < d).
  { destruct (Z_lt_le_dec 0 d); [done|]. rewrite (Z.pow_neg_r 2 (d - 1)) in Hlo by lia.
    destruct (Z.eq_dec d 0) as [->|]; [simpl in Hhi; lia|].
    rewrite Z.pow_neg_r in Hhi by lia. lia. }
  destruct (Z.lt_trichotomy (Zpos (digits2_pos p)) d) as [Hlt|[Heq|Hgt]]; [|done|].
  - assert (2 ^ Zpos (digits2_pos p) <= 2 ^ (d - 1)) by (apply Z.pow_le_mono_r; lia). lia.
  - assert (2 ^ d <= 2 ^ (Zpos (digits2_pos p) - 1)) by (apply Z.pow_le_mono_r; lia). lia.
Qed.

Lemma digits2_pos_iter p k :
  digits2_pos (Pos.iter xO p k) = (digits2_pos p + k)%positive.
Proof.
  induction k as [|k IH] using Pos.peano_ind.
  - simpl. lia.
  - rewrite Pos.iter_succ. simpl. rewrite IH. lia.
Qed.

Lemma iter_xO_shift p k : Zpos (Pos.iter xO p k) = Zpos p * 2 ^ Zpos k.
Proof.
  induction k as [|k IH] using Pos.peano_ind.
  - simpl. lia.
  - rewrite Pos.iter_succ, Pos2Z.inj_succ, Z.pow_succ_r by lia.
    rewrite Pos2Z.inj_xO, IH. lia.
Qed.

(** [iter_pos] is plain iteration. *)
Lemma iter_pos_nat {A} (f : A -> A) n : forall x,
  SpecFloat.iter_pos f n x = Nat.iter (Pos.to_nat n) f x.
Proof.
  induction n as [n IH|n IH|]; intros x; simpl SpecFloat.iter_pos.
  - rewrite !IH. replace (Pos.to_nat n~1) with (S (Pos.to_nat n + Pos.to_nat n)) by lia.
    by rewrite Nat.iter_succ_r, Nat.iter_add.
  - rewrite !IH. replace (Pos.to_nat n~0) with (Pos.to_nat n + Pos.to_nat n)%nat by lia.
    by rewrite Nat.iter_add.
  - done.
Qed.

(** Shifting a non-negative mantissa right: the quotient, and no lost
    bit when the remainder is zero. *)
Lemma shr_1_m mrs : 0 <= shr_m mrs -> shr_m (shr_1 mrs) = shr_m mrs / 2.
Proof.
  destruct mrs as [m r s]. cbn [shr_m]. intros Hm.
  destruct m as [|[p|p|]|p]; cbn [shr_1 shr_m]; Z.div_mod_to_equations; lia.
Qed.

Lemma shr_1_exact mrs :
  0 <= shr_m mrs -> shr_r mrs = false -> shr_s mrs = false -> shr_m mrs mod 2 = 0 ->
  shr_r (shr_1 mrs) = false /\ shr_s (shr_1 mrs) = false.
Proof.
  destruct mrs as [m r s]. cbn [shr_m shr_r shr_s]. intros Hm -> -> Hmod.
  destruct m as [|[p|p|]|p]; cbn [shr_1 shr_m shr_r shr_s orb]; try done;
    exfalso; Z.div_mod_to_equations; lia.
Qed.

Lemma shr_iter_m n : forall mrs,
  0 <= shr_m mrs -> shr_m (Nat.iter n shr_1 mrs) = shr_m mrs / 2 ^ Z.of_nat n.
Proof.
  induction n as [|n IH]; intros mrs Hm.
  - simpl. by rewrite Z.div_1_r.
  - rewrite Nat.iter_succ_r, IH.
    + rewrite shr_1_m by done. rewrite Nat2Z.inj_succ, Z.pow_succ_r by lia.
      by rewrite Z.div_div by lia.
    + rewrite shr_1_m by done. apply Z.div_pos; lia.
Qed.

Lemma shr_iter_exact n : forall mrs,
  0 <= shr_m mrs -> shr_r mrs = false -> shr_s mrs = false ->
  shr_m mrs mod 2 ^ Z.of_nat n = 0 ->
  shr_r (Nat.iter n shr_1 mrs) = false /\ shr_s (Nat.iter n shr_1 mrs) = false.
Proof.
  induction n as [|n IH]; intros mrs Hm Hr Hs Hmod; [done|].
  rewrite Nat.iter_succ_r.
  rewrite Nat2Z.inj_succ, Z.pow_succ_r in Hmod by lia.
  assert (H2 : shr_m mrs mod 2 = 0).
  { apply Z.mod_divide; [lia|]. apply Z.mod_divide in Hmod; [|lia].
    destruct Hmod as [c Hc]. exists (c * 2 ^ Z.of_nat n). lia. }
  destruct (shr_1_exact mrs Hm Hr Hs H2) as [Hr' Hs'].
  apply IH; try done.
  - rewrite shr_1_m by done. apply Z.div_pos; lia.
  - rewrite shr_1_m by done.
    apply Z.mod_divide; [lia|]. apply Z.mod_divide in Hmod; [|lia].
    destruct Hmod as [c Hc]. exists c. rewrite Hc.
    replace (c * (2 * 2 ^ Z.of_nat n)) with (c * 2 ^ Z.of_nat n * 2) by lia.
    by rewrite Z.div_mul by lia.
Qed.

Lemma shr_record_of_loc_m m l : shr_m (shr_record_of_loc m l) = m.
Proof. by destruct l as [|[]]. Qed.

Lemma shr_spec mrs e n :
  0 <= shr_m mrs -> 0 <= n ->
  exists mrs',
    shr mrs e n = (mrs', e + n) /\
    shr_m mrs' = shr_m mrs / 2 ^ n /\
    (shr_r mrs = false -> shr_s mrs = false -> shr_m mrs mod 2 ^ n = 0 ->
     shr_r mrs' = false /\ shr_s mrs' = false).
Proof.
  intros Hm Hn. destruct n as [|p|p]; [| |lia].
  - exists mrs. simpl. rewrite Z.add_0_r, Z.div_1_r. auto.
  - exists (Nat.iter (Pos.to_nat p) shr_1 mrs). unfold shr.
    rewrite iter_pos_nat. split; [done|]. rewrite <- (positive_nat_Z p) at 1 2.
    split; [by apply shr_iter_m|]. by apply shr_iter_exact.
Qed.

Lemma round_nearest_even_bounds m l :
  m <= round_nearest_even m l <= m + 1.
Proof. destruct l as [|[]]; simpl; try lia. destruct (Z.even m); lia. Qed.

Lemma round_nearest_even_exact m mrs :
  shr_r mrs = false -> shr_s mrs = false ->
  round_nearest_even m (loc_of_shr_record mrs) = m.
Proof. destruct mrs as [m' r s]. simpl. by intros -> ->. Qed.

(** Rounding a positive mantissa of at least 53 digits, in the range of
    the normal numbers. *)
Lemma binary_round_aux_normal q e l :
  let n := Zpos (digits2_pos q) - 53 in
  0 <= n -> -1000 <= e -> e + n < 900 ->
  exists mrs,
    shr (shr_record_of_loc (Zpos q) l) e n = (mrs, e + n) /\
    let m1 := round_nearest_even (shr_m mrs) (loc_of_shr_record mrs) in
    2 ^ 52 <= shr_m mrs < 2 ^ 53 /\
    ((exists mf, binary_round_aux prec emax false (Zpos q) e l = S754_finite false mf (e + n) /\
                 Zpos mf = m1 /\ m1 < 2 ^ 53) \/
     (binary_round_aux prec emax false (Zpos q) e l = S754_finite false (2 ^ 52) (e + n + 1) /\
      m1 = 2 ^ 53)).
Proof.
  intros n Hn He Hen.
  destruct (shr_spec (shr_record_of_loc (Zpos q) l) e n) as (mrs & Hshr & Hm & _);
    [rewrite shr_record_of_loc_m; lia|done|].
  rewrite shr_record_of_loc_m in Hm.
  exists mrs. split; [done|]. intros m1.
  pose proof (digits2_pos_bounds q) as [Hlo Hhi].
  assert (Hm1 : 2 ^ 52 <= shr_m mrs < 2 ^ 53).
  { rewrite Hm. replace (Zpos (digits2_pos q)) with (n + 53) in Hhi by lia.
    replace (Zpos (digits2_pos q) - 1) with (n + 52) in Hlo by lia.
    rewrite Z.pow_add_r in Hlo, Hhi by lia. split.
    - apply Z.div_le_lower_bound; lia.
    - apply Z.div_lt_upper_bound; lia. }
  split; [done|].
  pose proof (round_nearest_even_bounds (shr_m mrs) (loc_of_shr_record mrs)) as Hr.
  fold m1 in Hr.
  unfold binary_round_aux, shr_fexp. cbn [Zdigits2].
  assert (Hf : fexp prec emax (Zpos (digits2_pos q) + e) - e = n).
  { unfold fexp, emin, prec, emax. lia. }
  rewrite Hf, Hshr. fold m1.
  destruct m1 as [|p1|p1] eqn:Hp1; try lia. cbn [Zdigits2].
  destruct (Z_lt_le_dec (Zpos p1) (2 ^ 53)) as [Hlt|Hge].
  - left. exists p1.
    assert (Hd : Zpos (digits2_pos p1) = 53) by (apply digits2_pos_unique; lia).
    assert (Hf2 : fexp prec emax (Zpos (digits2_pos p1) + (e + n)) - (e + n) = 0).
    { rewrite Hd. unfold fexp, emin, prec, emax. lia. }
    rewrite Hf2. cbn [shr shr_record_of_loc shr_m].
    assert (Hle : (e + n <=? emax - prec) = true) by (apply Z.leb_le; unfold emax, prec; lia).
    by rewrite Hle.
  - right. assert (Heq : Zpos p1 = 2 ^ 53) by lia. split; [|done].
    assert (Hd : Zpos (digits2_pos p1) = 54) by (apply digits2_pos_unique; lia).
    assert (Hf2 : fexp prec emax (Zpos (digits2_pos p1) + (e + n)) - (e + n) = 1).
    { rewrite Hd. unfold fexp, emin, prec, emax. lia. }
    rewrite Hf2. injection Heq as ->.
    cbn [shr shr_record_of_loc SpecFloat.iter_pos shr_1 shr_m].
    assert (Hle : (e + n + 1 <=? emax - prec) = true) by (apply Z.leb_le; unfold emax, prec; lia).
    by rewrite Hle.
Qed.

(** A mantissa of 53 digits needs no rounding. *)
Lemma binary_round_aux_exact q e :
  Zpos (digits2_pos q) = 53 -> -1000 <= e <= 900 ->
  binary_round_aux prec emax false (Zpos q) e loc_Exact = S754_finite false q e.
Proof.
  intros Hd He. unfold binary_round_aux, shr_fexp. cbn [Zdigits2].
  assert (Hf : fexp prec emax (Zpos (digits2_pos q) + e) - e = 0).
  { rewrite Hd. unfold fexp, emin, prec, emax. lia. }
  rewrite Hf. cbn [shr shr_record_of_loc shr_m loc_of_shr_record round_nearest_even Zdigits2].
  rewrite Hf. cbn [shr shr_record_of_loc shr_m].
  assert (Hle : (e <=? emax - prec) = true) by (apply Z.leb_le; unfold emax, prec; lia).
  by rewrite Hle.
Qed.

(** A positive integer below 2^53 is a normal number with the exponent of
    its size. *)
Lemma num_of_Z_normal z :
  0 < z < 2 ^ 53 ->
  exists m e, num_of_Z z = S754_finite false m e /\
              2 ^ 52 <= Zpos m < 2 ^ 53 /\ -52 <= e <= 0.
Proof.
  intros Hz. destruct z as [|p|p]; try lia.
  unfold num_of_Z, binary_normalize, binary_round.
  pose proof (digits2_pos_bounds p) as [Hlo Hhi].
  assert (Hd : Zpos (digits2_pos p) <= 53).
  { destruct (Z_le_gt_dec (Zpos (digits2_pos p)) 53) as [|Hgt]; [done|].
    assert (2 ^ 53 <= 2 ^ (Zpos (digits2_pos p) - 1)) by (apply Z.pow_le_mono_r; lia). lia. }
  assert (Hfexp : fexp prec emax (Zpos (digits2_pos p) + 0) = Zpos (digits2_pos p) - 53).
  { unfold fexp, emin, prec, emax. lia. }
  rewrite Hfexp. unfold shl_align.
  destruct (Zpos (digits2_pos p) - 53 - 0) as [|k|k] eqn:Hk; try lia.
  - rewrite binary_round_aux_exact by lia.
    replace (Zpos (digits2_pos p) - 1) with 52 in Hlo by lia.
    exists p, 0. split; [done|]. lia.
  - pose proof (digits2_pos_bounds (Pos.iter xO p k)) as Hb.
    rewrite binary_round_aux_exact by (rewrite ?digits2_pos_iter; lia).
    rewrite digits2_pos_iter in Hb.
    replace (Zpos (digits2_pos p + k) - 1) with 52 in Hb by lia.
    replace (Zpos (digits2_pos p + k)) with 53 in Hb by lia.
    eexists _, _. split; [done|]. lia.
Qed.

(** The quotient of two normal numbers of moderate exponents is normal,
    and its exponent does not go below their difference less 53. *)
Lemma num_div_normal m1 e1 m2 e2 :
  2 ^ 52 <= Zpos m1 < 2 ^ 53 -> 2 ^ 52 <= Zpos m2 < 2 ^ 53 ->
  -52 <= e1 <= 0 -> -52 <= e2 <= 0 ->
  exists mq eq,
    num_div (S754_finite false m1 e1) (S754_finite false m2 e2) = S754_finite false mq eq /\
    2 ^ 52 <= Zpos mq < 2 ^ 53 /\ e1 - e2 - 53 <= eq.
Proof.
  intros Hm1 Hm2 He1 He2. unfold num_div, SFdiv, SFdiv_core_binary. cbn [Zdigits2 xorb].
  rewrite (digits2_pos_unique m1 53), (digits2_pos_unique m2 53) by lia.
  assert (He' : Z.min (fexp prec emax (53 + e1 - (53 + e2))) (e1 - e2) = e1 - e2 - 53).
  { unfold fexp, emin, prec, emax. lia. }
  rewrite He'. replace (e1 - e2 - (e1 - e2 - 53)) with 53 by lia.
  rewrite Z.shiftl_mul_pow2 by lia.
  pose proof (Z_div_mod (Zpos m1 * 2 ^ 53) (Zpos m2) ltac:(lia)) as Hdm.
  destruct (Z.div_eucl (Zpos m1 * 2 ^ 53) (Zpos m2)) as [q r].
  destruct Hdm as [Hq Hr].
  assert (Hqb : 2 ^ 52 <= q < 2 ^ 54) by nia.
  destruct q as [|q|q]; try lia.
  pose proof (digits2_pos_bounds q) as [Hlo Hhi].
  assert (Hdq : 53 <= Zpos (digits2_pos q) <= 54).
  { split.
    - destruct (Z_le_gt_dec 53 (Zpos (digits2_pos q))); [done|].
      assert (2 ^ Zpos (digits2_pos q) <= 2 ^ 52) by (apply Z.pow_le_mono_r; lia). lia.
    - destruct (Z_le_gt_dec (Zpos (digits2_pos q)) 54); [done|].
      assert (2 ^ 54 <= 2 ^ (Zpos (digits2_pos q) - 1)) by (apply Z.pow_le_mono_r; lia). lia. }
  destruct (binary_round_aux_normal q (e1 - e2 - 53) (new_location (Zpos m2) r))
    as (mrs & _ & Hmrs & [(mf & -> & Hmf & Hlt)|[-> _]]); try lia.
  - exists mf, (e1 - e2 - 53 + (Zpos (digits2_pos q) - 53)). split; [done|].
    pose proof (round_nearest_even_bounds (shr_m mrs) (loc_of_shr_record mrs)). lia.
  - exists (2 ^ 52)%positive, (e1 - e2 - 53 + (Zpos (digits2_pos q) - 53) + 1).
    split; [done|]. lia.
Qed.

Lemma binary_round_sign m e m' e' :
  binary_round prec emax true m e <> S754_finite false m' e'.
Proof.
  unfold binary_round, binary_round_aux.
  destruct (shl_align _ _ _) as [mz ez].
  destruct (shr_fexp _ _ _ _ _) as [mrs1 e1].
  destruct (shr_fexp _ _ _ _ _) as [mrs2 e2].
  destruct (shr_m mrs2); try done. by destruct (_ <=? _).
Qed.

(** Subtracting a normal number of exponent at least -105 from [1] never
    gives [1] back. *)
Lemma num_sub_one_normal mq eq :
  2 ^ 52 <= Zpos mq < 2 ^ 53 -> -105 <= eq ->
  num_sub num_one (S754_finite false mq eq) <> num_one.
Proof.
  intros Hmq Heq. unfold num_sub, num_one, SFsub. cbn [cond_Zopp].
  destruct (Z_le_gt_dec (-52) eq) as [Hge|Hlt].
  - (* the difference is not positive *)
    rewrite Z.min_l by done.
    assert (Hfirst : fst (shl_align 4503599627370496 (-52) (-52)) = 4503599627370496%positive)
      by reflexivity.
    rewrite Hfirst.
    assert (Hsecond : 2 ^ 52 <= Zpos (fst (shl_align mq eq (-52)))).
    { unfold shl_align. destruct (-52 - eq) as [|k|k]; cbn [fst]; try lia.
      rewrite iter_xO_shift. assert (1 <= 2 ^ Zpos k) by (apply Z.pow_le_mono_r with (b:=0); lia||lia).
      nia. }
    destruct (Zpos 4503599627370496 - Zpos (fst (shl_align mq eq (-52)))) as [|p|p] eqn:Hdiff;
      [done|lia|].
    cbn [binary_normalize]. unfold num_one. apply binary_round_sign.
  - rewrite Z.min_r by lia.
    assert (Hk : exists k, eq - -52 = Zneg k /\ Zpos k = -52 - eq).
    { destruct (eq - -52) as [|k|k] eqn:E; try lia. exists k. split; [done|lia]. }
    destruct Hk as (k & Hk & Hkv).
    assert (Hfirst : Zpos (fst (shl_align 4503599627370496 (-52) eq)) = 2 ^ (- eq)).
    { unfold shl_align. rewrite Hk. cbn [fst]. rewrite iter_xO_shift, Hkv.
      change (Zpos 4503599627370496) with (2 ^ 52). rewrite <- Z.pow_add_r by lia.
      f_equal. lia. }
    assert (Hsecond : fst (shl_align mq eq eq) = mq).
    { unfold shl_align. by rewrite Z.sub_diag. }
    rewrite Hfirst, Hsecond.
    assert (Hpow : 2 ^ 53 <= 2 ^ (- eq)) by (apply Z.pow_le_mono_r; lia).
    destruct (2 ^ (- eq) - Zpos mq) as [|pM|pM] eqn:HM; try lia.
    cbn [binary_normalize]. unfold binary_round.
    pose proof (digits2_pos_bounds pM) as [Hlo Hhi].
    assert (HdM : Zpos (digits2_pos pM) <= - eq).
    { destruct (Z_le_gt_dec (Zpos (digits2_pos pM)) (- eq)); [done|].
      assert (2 ^ (- eq) <= 2 ^ (Zpos (digits2_pos pM) - 1)) by (apply Z.pow_le_mono_r; lia).
      lia. }
    assert (Hfexp : fexp prec emax (Zpos (digits2_pos pM) + eq) = Zpos (digits2_pos pM) + eq - 53).
    { unfold fexp, emin, prec, emax. lia. }
    rewrite Hfexp. unfold shl_align.
    destruct (Zpos (digits2_pos pM) + eq - 53 - eq) as [|j|j] eqn:Hj.
    + (* 53 digits: exact, with an exponent below -52 *)
      rewrite binary_round_aux_exact by lia. intros [=]. lia.
    + (* more than 53 digits: shifted right, and 54 would be needed to carry *)
      destruct (binary_round_aux_normal pM eq loc_Exact)
        as (mrs & Hshr & Hmrs & [(mf & -> & _)|[-> Hcarry]]); try lia; intros [=]; try lia.
      set (n := Zpos (digits2_pos pM) - 53) in *.
      destruct (shr_spec (shr_record_of_loc (Zpos pM) loc_Exact) eq n)
        as (mrs' & Hshr' & Hm' & Hexact); [simpl; lia|lia|].
      rewrite Hshr in Hshr'. injection Hshr' as <-.
      cbn [shr_record_of_loc shr_m shr_r shr_s] in Hm', Hexact.
      pose proof (round_nearest_even_bounds (shr_m mrs) (loc_of_shr_record mrs)) as Hb.
      assert (Hm1 : shr_m mrs = 2 ^ 53 - 1) by lia.
      assert (Hn : n = - eq - 53) by lia.
      assert (HMlow : (2 ^ 53 - 1) * 2 ^ n <= Zpos pM).
      { rewrite <- Hm1, Hm'. rewrite Z.mul_comm. apply Z.mul_div_le. lia. }
      assert (Hsplit : 2 ^ (- eq) = 2 ^ 53 * 2 ^ n).
      { rewrite <- Z.pow_add_r by lia. f_equal. lia. }
      assert (Hn52 : 2 ^ n <= 2 ^ 52) by (apply Z.pow_le_mono_r; lia).
      assert (Hmq52 : Zpos mq = 2 ^ 52) by nia.
      assert (Hn' : 2 ^ n = 2 ^ 52) by nia.
      assert (Hmod : Zpos pM mod 2 ^ n = 0).
      { replace (Zpos pM) with ((2 ^ 53 - 1) * 2 ^ n) by nia. apply Z.mod_mul. lia. }
      destruct (Hexact eq_refl eq_refl Hmod) as [Hr Hs].
      rewrite (round_nearest_even_exact _ _ Hr Hs) in Hcarry. lia.
    + (* fewer than 53 digits: exact, with an exponent below -52 *)
      rewrite binary_round_aux_exact by (rewrite ?digits2_pos_iter; lia).
      intros [=]. lia.
Qed.

Lemma num_sub_div_ne_one d m :
  0 < d < 2 ^ 53 -> 0 < m < 2 ^ 53 ->
  num_sub num_one (num_div (num_of_Z d) (num_of_Z m)) <> num_one.
Proof.
  intros Hd Hm.
  destruct (num_of_Z_normal d Hd) as (m1 & e1 & -> & Hm1 & He1).
  destruct (num_of_Z_normal m Hm) as (m2 & e2 & -> & Hm2 & He2).
  destruct (num_div_normal m1 e1 m2 e2) as (mq & eq & -> & Hmq & Heq); try done.
  apply num_sub_one_normal; [done|lia].
Qed.

Lemma shr_fexp_nonneg m e l :
  0 <= m -> 0 <= shr_m (fst (shr_fexp prec emax m e l)).
Proof.
  intros Hm. unfold shr_fexp, shr.
  destruct (fexp prec emax (Zdigits2 m + e) - e) as [|p|p]; cbn [fst];
    rewrite ?shr_record_of_loc_m; try done.
  rewrite iter_pos_nat, shr_iter_m by (by rewrite shr_record_of_loc_m).
  rewrite shr_record_of_loc_m. apply Z.div_pos; lia.
Qed.

(** Rounding never gives [NaN]. *)
Lemma binary_round_aux_not_nan s m e l :
  0 <= m -> binary_round_aux prec emax s m e l <> S754_nan.
Proof.
  intros Hm. unfold binary_round_aux.
  pose proof (shr_fexp_nonneg m e l Hm) as H1.
  destruct (shr_fexp prec emax m e l) as [mrs1 e1]. cbn [fst] in H1.
  pose proof (round_nearest_even_bounds (shr_m mrs1) (loc_of_shr_record mrs1)) as Hr.
  pose proof (shr_fexp_nonneg (round_nearest_even (shr_m mrs1) (loc_of_shr_record mrs1))
                e1 loc_Exact ltac:(lia)) as H2.
  destruct (shr_fexp prec emax _ e1 loc_Exact) as [mrs2 e2]. cbn [fst] in H2.
  destruct (shr_m mrs2); [done| |lia]. by destruct (_ <=? _).
Qed.

Lemma binary_normalize_not_nan m e s :
  binary_normalize prec emax m e s <> S754_nan.
Proof.
  destruct m as [|p|p]; [done|..]; cbn [binary_normalize]; unfold binary_round;
    destruct (shl_align _ _ _) as [mz ez]; by apply binary_round_aux_not_nan.
Qed.

(** [1 - d/m] is a number when [m] is positive. *)
Lemma num_sub_div_not_nan d m :
  0 <= d < 2 ^ 53 -> 0 < m < 2 ^ 53 ->
  num_sub num_one (num_div (num_of_Z d) (num_of_Z m)) <> S754_nan.
Proof.
  intros Hd Hm.
  destruct (num_of_Z_normal m Hm) as (m2 & e2 & -> & Hm2 & He2).
  destruct (Z.eq_dec d 0) as [->|Hd0]; [done|].
  destruct (num_of_Z_normal d ltac:(lia)) as (m1 & e1 & -> & Hm1 & He1).
  destruct (num_div_normal m1 e1 m2 e2) as (mq & eq & -> & _); try done.
  unfold num_sub, num_one, SFsub. apply binary_normalize_not_nan.
Qed.

Lemma SFeqb_refl x : x <> S754_nan -> SFeqb x x = true.
Proof.
  unfold SFeqb. destruct x as [s|s| |s m e]; simpl; try done; [by destruct s|].
  intros _. rewrite Z.compare_refl.
  change (PosDef.Pos.compare_cont Eq m m) with (m ?= m)%positive.
  rewrite Pos.compare_refl. by destruct s.
Qed.

Lemma code_point_units_cons cp : exists u us, code_point_units cp = u :: us.
Proof. unfold code_point_units. destruct (cp <? 0x10000)%N; eauto. Qed.

Lemma lower_code_point_cons before cp after :
  exists l ls, lower_code_point before cp after = l :: ls.
Proof.
  unfold lower_code_point.
  repeat match goal with |- context [if ?b then _ else _] => destruct b end; eauto.
Qed.

Lemma StringToCodePoints_cons c s : exists cp cps, StringToCodePoints (c :: s) = cp :: cps.
Proof.
  simpl. destruct s as [|d s]; [by eauto|].
  destruct (is_high_surrogate c && is_low_surrogate d); by eauto.
Qed.

Lemma toLowerCase_nil s : toLowerCase s = [] <-> s = [].
Proof.
  split; [|by intros ->]. destruct s as [|c s]; [done|].
  unfold toLowerCase, CodePointsToString.
  destruct (StringToCodePoints_cons c s) as (cp & cps & ->).
  cbn [lower_code_points].
  destruct (lower_code_point_cons [] cp cps) as (l & ls & ->).
  cbn [app map concat].
  by destruct (code_point_units_cons l) as (u & us & ->).
Qed.

(** Strings with one lower-cased form, not empty and of a length a string
    can have, score [1.0]. *)
Lemma calculateSimilarity_identical a b :
  toLowerCase a = toLowerCase b -> a <> [] ->
  Z.of_nat (length (toLowerCase a)) < 2 ^ 53 ->
  calculateSimilarity a b = num_one.
Proof.
  intros Hab Ha Hlen.
  rewrite calculateSimilarity_formula, <- Hab, levenshtein_refl, Nat.max_id.
  destruct (num_of_Z_normal (Z.of_nat (length (toLowerCase a)))) as (m & e & -> & _);
    [|reflexivity].
  split; [|done]. destruct (toLowerCase a) eqn:Hl; [|simpl; lia].
  destruct Ha. by apply toLowerCase_nil.
Qed.

(** ** Claims about [calculateSimilarity] *)

(** C1.  The claim asks for [1.0] on two empty strings.  The source divides
    [0] by [maxLen = 0] and returns [1 - NaN]: the result is [NaN], which is
    not equal to [1.0]. *)
Theorem calculateSimilarity_empty_empty :
  calculateSimilarity (js "") (js "") = NaN /\
  num_eqb (calculateSimilarity (js "") (js "")) num_one = false.
Proof. split; reflexivity. Qed.

(** C2, as the source has it.  For strings that are not both empty, the
    result is [1] minus the quotient of the least cost of an edit script
    (insertion, deletion and substitution cost 1 each) between the
    lower-cased strings, which is the textbook [levenshtein], by the larger
    of the lengths of the lower-cased strings: the source measures the
    strings after it has lower-cased them.  On "kitten" and "sitting" the
    distance is 3 and the result [1 - 3/7]; on U+0130 and "i", where
    lower-casing makes the first string longer, it is [1 - 1/2]. *)
Theorem calculateSimilarity_levenshtein_ratio :
  (forall a b : jsstring, ~ (a = [] /\ b = []) ->
     let s := toLowerCase a in
     let t := toLowerCase b in
     let d := levenshtein s t in
     edit_script s t d /\
     (forall n, edit_script s t n -> (d <= n)%nat) /\
     calculateSimilarity a b =
       num_sub num_one
         (num_div (num_of_Z (Z.of_nat d))
            (num_of_Z (Z.of_nat (Nat.max (length s) (length t)))))) /\
  levenshtein (js "kitten") (js "sitting") = 3%nat /\
  calculateSimilarity (js "kitten") (js "sitting") =
    num_sub num_one (num_div (num_of_Z 3) (num_of_Z 7)) /\
  calculateSimilarity [0x130%N] (js "i") =
    num_sub num_one (num_div (num_of_Z 1) (num_of_Z 2)).
Proof.
  split; [|split; [|split]; reflexivity].
  intros a b _ s t d. split; [apply levenshtein_script|].
  split; [intros n; apply levenshtein_least|].
  apply calculateSimilarity_formula.
Qed.

Lemma calculateSimilarity_levenshtein_ratio_witness :
  ~ ([0x130%N] = [] /\ js "I" = []) /\
  length (toLowerCase [0x130%N]) = 2%nat /\
  levenshtein (toLowerCase [0x130%N]) (toLowerCase (js "I")) = 1%nat /\
  calculateSimilarity [0x130%N] (js "I") =
  num_sub num_one (num_div (num_of_Z 1) (num_of_Z 2)).
Proof.
  assert (H : ~ ([0x130%N] = [] /\ js "I" = [])) by (intros [Ha _]; discriminate Ha).
  split; [exact H|]. split; [reflexivity|]. split; [reflexivity|].
  destruct (proj1 calculateSimilarity_levenshtein_ratio [0x130%N] (js "I") H)
    as (_ & _ & ->).
  reflexivity.
Defined.

(** The claim divides by the larger of the lengths of the strings as they
    are given.  On U+0130 and "i" that is 1, and the quotient of the claim
    gives [0]; the source divides by 2 and returns [0.5]. *)
Lemma calculateSimilarity_original_lengths :
  let a := [0x130%N] in
  let b := js "i" in
  let d := levenshtein (toLowerCase a) (toLowerCase b) in
  ~ (a = [] /\ b = []) /\
  num_sub num_one (num_div (num_of_Z (Z.of_nat d))
                     (num_of_Z (Z.of_nat (Nat.max (length a) (length b))))) = num_zero /\
  calculateSimilarity a b = num_sub num_one (num_div (num_of_Z 1) (num_of_Z 2)) /\
  ~ calculateSimilarity a b =
      num_sub num_one (num_div (num_of_Z (Z.of_nat d))
                         (num_of_Z (Z.of_nat (Nat.max (length a) (length b))))).
Proof.
  intros a b d. split; [intros [Ha _]; discriminate Ha|].
  split; [reflexivity|]. split; [reflexivity|].
  vm_compute. discriminate.
Qed.

(** C3.  Two empty strings have identical lower-cased forms, and yet the
    result is not [1.0]: it is the [NaN] of C1.  For all other strings (of
    a length below 2^53, which a string cannot exceed) the result is [1.0]
    exactly when the lower-cased forms are identical. *)
Theorem calculateSimilarity_one_iff_identical :
  (toLowerCase (js "") = toLowerCase (js "") /\
   calculateSimilarity (js "") (js "") <> num_one /\
   num_eqb (calculateSimilarity (js "") (js "")) num_one = false) /\
  (forall a b : jsstring,
     ~ (a = [] /\ b = []) ->
     Z.of_nat (length (toLowerCase a)) < 2 ^ 53 ->
     Z.of_nat (length (toLowerCase b)) < 2 ^ 53 ->
     calculateSimilarity a b = num_one <-> toLowerCase a = toLowerCase b).
Proof.
  split; [split; [reflexivity|]; split; [discriminate|reflexivity]|].
  intros a b Hne Ha Hb. split.
  - intros Hone. destruct (decide (toLowerCase a = toLowerCase b)) as [|Hdiff]; [done|].
    exfalso. rewrite calculateSimilarity_formula in Hone.
    pose proof (levenshtein_le_max (toLowerCase a) (toLowerCase b)) as Hle.
    assert (Hd : levenshtein (toLowerCase a) (toLowerCase b) <> 0%nat)
      by (by rewrite levenshtein_zero).
    revert Hone. apply num_sub_div_ne_one; lia.
  - intros Hab. apply calculateSimilarity_identical; [done| |done].
    intros ->. apply Hne. split; [done|]. apply toLowerCase_nil. by rewrite <- Hab.
Qed.

Lemma calculateSimilarity_one_iff_identical_witness :
  (~ (js "Acme" = [] /\ js "ACME" = []) /\
   Z.of_nat (length (toLowerCase (js "Acme"))) < 2 ^ 53 /\
   Z.of_nat (length (toLowerCase (js "ACME"))) < 2 ^ 53) /\
  calculateSimilarity (js "Acme") (js "ACME") = num_one.
Proof.
  assert (H1 : ~ (js "Acme" = [] /\ js "ACME" = [])) by (intros [H _]; discriminate H).
  assert (H2 : Z.of_nat (length (toLowerCase (js "Acme"))) < 2 ^ 53) by (simpl; lia).
  assert (H3 : Z.of_nat (length (toLowerCase (js "ACME"))) < 2 ^ 53) by (simpl; lia).
  split; [done|].
  apply (proj2 calculateSimilarity_one_iff_identical _ _ H1 H2 H3). reflexivity.
Defined.

(** C4.  The result does not depend on the order of the arguments: the
    two calls return the same value, and for strings that are not both
    empty that value is a number, so that [===] holds of the two results
    as well. *)
Theorem calculateSimilarity_sym :
  (forall a b, calculateSimilarity a b = calculateSimilarity b a) /\
  (forall a b : jsstring,
     ~ (a = [] /\ b = []) ->
     Z.of_nat (length (toLowerCase a)) < 2 ^ 53 ->
     Z.of_nat (length (toLowerCase b)) < 2 ^ 53 ->
     num_eqb (calculateSimilarity a b) (calculateSimilarity b a) = true).
Proof.
  assert (Hsym : forall a b, calculateSimilarity a b = calculateSimilarity b a).
  { intros a b. rewrite !calculateSimilarity_formula.
    by rewrite levenshtein_sym, Nat.max_comm. }
  split; [done|]. intros a b Hne Ha Hb. rewrite (Hsym b a). apply SFeqb_refl.
  rewrite calculateSimilarity_formula.
  pose proof (levenshtein_le_max (toLowerCase a) (toLowerCase b)) as Hle.
  apply num_sub_div_not_nan; [lia|].
  split; [|lia].
  destruct (toLowerCase a) eqn:Hla, (toLowerCase b) eqn:Hlb; simpl; try lia.
  destruct Hne. split; by apply toLowerCase_nil.
Qed.

Lemma calculateSimilarity_sym_witness :
  (~ (js "kitten" = [] /\ js "Sitting" = []) /\
   Z.of_nat (length (toLowerCase (js "kitten"))) < 2 ^ 53 /\
   Z.of_nat (length (toLowerCase (js "Sitting"))) < 2 ^ 53) /\
  num_eqb (calculateSimilarity (js "kitten") (js "Sitting"))
    (calculateSimilarity (js "Sitting") (js "kitten")) = true.
Proof.
  assert (H1 : ~ (js "kitten" = [] /\ js "Sitting" = [])) by (intros [H _]; discriminate H).
  assert (H2 : Z.of_nat (length (toLowerCase (js "kitten"))) < 2 ^ 53) by (simpl; lia).
  assert (H3 : Z.of_nat (length (toLowerCase (js "Sitting"))) < 2 ^ 53) by (simpl; lia).
  split; [done|]. exact (proj2 calculateSimilarity_sym _ _ H1 H2 H3).
Defined.

(** ** The effect layer *)

Lemma bind_result {A B} (m : M A) (k : A -> M B) :
  result_of (m ≫= k) =
  match result_of m with
  | Returns a => result_of (k a)
  | Throws e => Throws e
  end.
Proof. destruct m as [[a|e] t]; simpl; [|done]. by destruct (k a). Qed.

Lemma bind_trace {A B} (m : M A) (k : A -> M B) :
  trace_of (m ≫= k) =
  trace_of m ++ match result_of m with
                | Returns a => trace_of (k a)
                | Throws _ => []
                end.
Proof.
  destruct m as [[a|e] t]; simpl; [|by rewrite app_nil_r]. by destruct (k a).
Qed.

Lemma try_catch_result {A} (m : M A) (h : exn -> M A) :
  result_of (try_catch m h) =
  match result_of m with
  | Returns a => Returns a
  | Throws e => result_of (h e)
  end.
Proof. destruct m as [[a|e] t]; simpl; [done|]. by destruct (h e). Qed.

Lemma try_catch_trace {A} (m : M A) (h : exn -> M A) :
  trace_of (try_catch m h) =
  trace_of m ++ match result_of m with
                | Returns _ => []
                | Throws e => trace_of (h e)
                end.
Proof.
  destruct m as [[a|e] t]; simpl; [by rewrite app_nil_r|]. by destruct (h e).
Qed.

(** A [catch] block that returns makes the whole [try] return. *)
Lemma try_catch_returns {A} (m : M A) (x : A) :
  exists a, result_of (try_catch m (fun _ => mret x)) = Returns a.
Proof. rewrite try_catch_result. destruct (result_of m); simpl; eauto. Qed.

Lemma try_catch_throws {A} (m : M A) (x : A) e :
  result_of m = Throws e -> result_of (try_catch m (fun _ => mret x)) = Returns x.
Proof. intros H. by rewrite try_catch_result, H. Qed.

Lemma M_eta {A} (m : M A) : m = (result_of m, trace_of m).
Proof. by destruct m. Qed.


Lemma ret_bind {A B} (a : A) (k : A -> M B) : mret a ≫= k = k a.
Proof. unfold mret, mbind, M_ret, M_bind, ret, bind. by destruct (k a). Qed.

(** A keyword that is well formed is encoded, and the search goes on; a
    keyword with a lone surrogate ends the [try] block before any request. *)
Lemma encode_well_formed {B} keyword (m : M B) :
  isWellFormed keyword = true -> (encodeURIComponent keyword;; m) = m.
Proof. intros H. unfold encodeURIComponent. rewrite H. apply ret_bind. Qed.

Lemma encode_ill_formed {B} keyword (m : M (list B)) :
  isWellFormed keyword = false ->
  try_catch (encodeURIComponent keyword;; m) (fun _ => mret []) = (Returns [], []).
Proof. intros H. unfold encodeURIComponent. by rewrite H. Qed.

(** A loop whose body returns on every element returns the fold of what
    the body computes. *)
Lemma for_each_result {A S} (body : S -> A -> M S) (g : S -> A -> S) xs : forall s,
  (forall s x, x ∈ xs -> result_of (body s x) = Returns (g s x)) ->
  result_of (for_each body xs s) = Returns (foldl g s xs).
Proof.
  induction xs as [|x xs IH]; intros s Hbody; simpl; [done|].
  rewrite bind_result, Hbody by left. apply IH. intros s' x' Hx'. apply Hbody. by right.
Qed.

Lemma for_each_trace {A S} (P : event -> Prop) (body : S -> A -> M S) xs : forall s,
  (forall s x, x ∈ xs -> Forall P (trace_of (body s x))) ->
  Forall P (trace_of (for_each body xs s)).
Proof.
  induction xs as [|x xs IH]; intros s Hbody; simpl; [by constructor|].
  rewrite bind_trace. apply Forall_app. split; [apply Hbody; left|].
  destruct (result_of (body s x)); [|by constructor].
  apply IH. intros s' x' Hx'. apply Hbody. by right.
Qed.

(** Pushing the kept elements one by one is a filter. *)
Lemma foldl_push {A B} (keep : A -> bool) (f : A -> B) xs : forall s,
  foldl (fun s x => if keep x then s ++ [f x] else s) s xs =
  s ++ (f <$> filter (fun x => keep x = true) xs).
Proof.
  induction xs as [|x xs IH]; intros s; simpl; [by rewrite app_nil_r|].
  rewrite IH. rewrite filter_cons. destruct (keep x) eqn:Hk.
  - rewrite decide_True by done. by rewrite <- app_assoc.
  - by rewrite decide_False by done.
Qed.

(** ** Failure reporting *)

Lemma try_api_returns c w options :
  exists r, result_of (Twitter.try_api c w options) = Returns r.
Proof.
  unfold Twitter.try_api. destruct (Twitter.api_enabled c); [|by eexists].
  apply try_catch_returns.
Qed.

Lemma try_nitter_returns w options :
  exists r, result_of (Twitter.try_nitter w options) = Returns r.
Proof. apply try_catch_returns. Qed.

Lemma searchTwitterAccounts_returns c w options :
  exists l, result_of (Twitter.searchTwitterAccounts c w options) = Returns l.
Proof.
  unfold Twitter.searchTwitterAccounts.
  destruct (try_api_returns c w options) as [fromApi Hapi].
  rewrite bind_result, Hapi. destruct fromApi as [l|]; [by eexists|].
  destruct (try_nitter_returns w options) as [fromNitter Hnitter].
  rewrite bind_result, Hnitter. destruct fromNitter as [l|]; [by eexists|].
  apply try_catch_returns.
Qed.

Lemma facebook_search_returns w options :
  exists l, result_of (Facebook.search w options) = Returns l.
Proof.
  unfold Facebook.search.
  assert (exists l, result_of (Facebook.searchFacebookAccounts w options) = Returns l)
    as [l Hl] by apply try_catch_returns.
  rewrite bind_result, Hl.
  case_bool_decide; [apply try_catch_returns|by eexists].
Qed.

Lemma unavailable_inv {A} (upstream : option (Response A)) :
  unavailable upstream = true ->
  upstream = None \/
  exists response, upstream = Some response /\
    (ok response = false \/ (ok response = true /\ content response = None)).
Proof.
  destruct upstream as [[[] [a|]]|]; simpl; intros H; try discriminate; eauto 8.
Qed.

(** A source whose first request fails runs into its [catch]. *)
Lemma failed_source {A S} keyword e (upstream : option (Response A)) (k : A -> M (list S)) :
  unavailable upstream = true ->
  result_of (try_catch
               (encodeURIComponent keyword;;
                response ← fetch e upstream;
                if negb (ok response) then throw StatusError
                else data ← read response; k data)
               (fun _ => mret [])) = Returns [].
Proof.
  intros H. destruct (isWellFormed keyword) eqn:Hwf; [|by rewrite encode_ill_formed].
  rewrite encode_well_formed by done.
  apply unavailable_inv in H as [->|(r & -> & [Hok|[Hok Hc]])].
  - reflexivity.
  - destruct r as [o c]. simpl in Hok. subst o. reflexivity.
  - destruct r as [o c]. simpl in Hok, Hc. subst o c. reflexivity.
Qed.

(** A source given a keyword with a lone surrogate: nothing is requested
    and nothing is found. *)
Lemma ill_formed_source {A S} keyword e (upstream : option (Response A))
    (k : Response A -> M (list S)) :
  isWellFormed keyword = false ->
  try_catch (encodeURIComponent keyword;; response ← fetch e upstream; k response)
    (fun _ => mret []) = (Returns [], []).
Proof. apply encode_ill_formed. Qed.

(** C9.  Every search and scrape function of Twitter and Facebook returns
    a sequence, whatever the keyword is and whatever the upstream answers;
    a request that does not complete, a status that is not a success and a
    body that cannot be read give the empty sequence, and so does a keyword
    that cannot be encoded into the address of the request; and when every
    source of a platform fails, so does the search. *)
Theorem search_functions_never_throw :
  (forall w o, exists l, result_of (Twitter.searchTwitterAccountsViaAPI w o) = Returns l) /\
  (forall w o, exists l, result_of (Twitter.scrapeTwitterResults w o) = Returns l) /\
  (forall w o, exists l, result_of (Twitter.scrapeDirectTwitterResults w o) = Returns l) /\
  (forall c w o, exists l, result_of (Twitter.searchTwitterAccounts c w o) = Returns l) /\
  (forall w o, exists l, result_of (Facebook.searchFacebookAccounts w o) = Returns l) /\
  (forall w k t, exists l, result_of (Facebook.scrapeFacebookResults w k t) = Returns l) /\
  (forall w o, exists l, result_of (Facebook.search w o) = Returns l) /\
  (forall w o, unavailable (Twitter.user_search w) = true ->
     result_of (Twitter.searchTwitterAccountsViaAPI w o) = Returns []) /\
  (forall w o, unavailable (Twitter.nitter_page w) = true ->
     result_of (Twitter.scrapeTwitterResults w o) = Returns []) /\
  (forall w o, unavailable (Twitter.twitter_page w) = true ->
     result_of (Twitter.scrapeDirectTwitterResults w o) = Returns []) /\
  (forall w o, unavailable (Facebook.page_search w) = true ->
     result_of (Facebook.searchFacebookAccounts w o) = Returns []) /\
  (forall w k t, unavailable (Facebook.search_page w) = true ->
     result_of (Facebook.scrapeFacebookResults w k t) = Returns []) /\
  (forall c w o,
     unavailable (Twitter.user_search w) = true ->
     unavailable (Twitter.nitter_page w) = true ->
     unavailable (Twitter.twitter_page w) = true ->
     result_of (Twitter.searchTwitterAccounts c w o) = Returns []) /\
  (forall w o,
     unavailable (Facebook.page_search w) = true ->
     unavailable (Facebook.search_page w) = true ->
     result_of (Facebook.search w o) = Returns []) /\
  (forall c w o, isWellFormed (keyword o) = false ->
     Twitter.searchTwitterAccounts c w o = (Returns [], [])) /\
  (forall w o, isWellFormed (keyword o) = false ->
     Facebook.search w o = (Returns [], [])).
Proof.
  assert (Htw : forall w o, unavailable (Twitter.user_search w) = true ->
            result_of (Twitter.searchTwitterAccountsViaAPI w o) = Returns [])
    by (intros; by apply failed_source).
  assert (Hni : forall w o, unavailable (Twitter.nitter_page w) = true ->
            result_of (Twitter.scrapeTwitterResults w o) = Returns [])
    by (intros; by apply failed_source).
  assert (Hdi : forall w o, unavailable (Twitter.twitter_page w) = true ->
            result_of (Twitter.scrapeDirectTwitterResults w o) = Returns [])
    by (intros; by apply failed_source).
  assert (Hfb : forall w o, unavailable (Facebook.page_search w) = true ->
            result_of (Facebook.searchFacebookAccounts w o) = Returns [])
    by (intros; by apply failed_source).
  assert (Hfs : forall w k t, unavailable (Facebook.search_page w) = true ->
            result_of (Facebook.scrapeFacebookResults w k t) = Returns [])
    by (intros; by apply failed_source).
  repeat split; try done; intros.
  - apply try_catch_returns.
  - apply try_catch_returns.
  - apply try_catch_returns.
  - apply searchTwitterAccounts_returns.
  - apply try_catch_returns.
  - apply try_catch_returns.
  - apply facebook_search_returns.
  - unfold Twitter.searchTwitterAccounts, Twitter.try_api, Twitter.try_nitter.
    rewrite bind_result.
    assert (Hapi : result_of
              (if Twitter.api_enabled c
               then try_catch
                      (apiResults ← Twitter.searchTwitterAccountsViaAPI w o;
                       if (0 <? length apiResults)%nat then mret (Some apiResults) else mret None)
                      (fun _ => mret None)
               else mret None) = Returns None).
    { destruct (Twitter.api_enabled c); [|done].
      by rewrite try_catch_result, bind_result, Htw. }
    rewrite Hapi, bind_result, try_catch_result, bind_result, Hni by done. simpl.
    by apply Hdi.
  - unfold Facebook.search. rewrite bind_result, Hfb by done. simpl. by apply Hfs.
  - unfold Twitter.searchTwitterAccounts, Twitter.try_api, Twitter.try_nitter,
      Twitter.searchTwitterAccountsViaAPI, Twitter.scrapeTwitterResults,
      Twitter.scrapeDirectTwitterResults.
    cbv zeta. rewrite !ill_formed_source by done. by destruct (Twitter.api_enabled c).
  - unfold Facebook.search, Facebook.searchFacebookAccounts, Facebook.scrapeFacebookResults.
    cbv zeta. cbn [keyword]. rewrite !ill_formed_source by done. reflexivity.
Qed.

Lemma search_functions_never_throw_witness :
  let tw := {| Twitter.user_search := None;
               Twitter.nitter_page := Some {| ok := false; content := Some [] |};
               Twitter.twitter_page := Some {| ok := true; content := None |} |} in
  let fb := {| Facebook.page_search := Some {| ok := false; content := None |};
               Facebook.user_search := None;
               Facebook.search_page := None |} in
  let c := {| Twitter.USE_API := true; Twitter.TWITTER_BEARER_TOKEN := js "token" |} in
  let o := {| keyword := js "acme"; limit := None; throttleMs := None; fuzzyThreshold := None |} in
  let lone := {| keyword := [0xD800%N]; limit := None; throttleMs := None;
                 fuzzyThreshold := None |} in
  (unavailable (Twitter.user_search tw) = true /\
   unavailable (Twitter.nitter_page tw) = true /\
   unavailable (Twitter.twitter_page tw) = true /\
   unavailable (Facebook.page_search fb) = true /\
   unavailable (Facebook.search_page fb) = true) /\
  result_of (Twitter.searchTwitterAccounts c tw o) = Returns [] /\
  result_of (Facebook.search fb o) = Returns [] /\
  Facebook.search fb lone = (Returns [], []).
Proof.
  intros tw fb c o lone.
  destruct search_functions_never_throw
    as (_ & _ & _ & _ & _ & _ & _ & _ & _ & _ & _ & _ & Htw & Hfb & _ & Hlone).
  split; [repeat split; reflexivity|].
  split; [apply Htw; reflexivity|].
  split; [apply Hfb; reflexivity|apply Hlone; reflexivity].
Defined.

(** ** Request options *)



(** ** The fallback chain *)

Section Traces.
Variable P : endpoint -> Prop.

Lemma within_ret {A} (a : A) : requests_within P (trace_of (mret a : M A)).
Proof. constructor. Qed.

Lemma within_throw {A} e : requests_within P (trace_of (throw e : M A)).
Proof. constructor. Qed.

Lemma within_sleep ms : requests_within P (trace_of (sleep ms)).
Proof. by repeat constructor. Qed.

Lemma within_read {A} (r : Response A) : requests_within P (trace_of (read r)).
Proof. unfold read. destruct (content r); constructor. Qed.

Lemma within_encode keyword : requests_within P (trace_of (encodeURIComponent keyword)).
Proof. unfold encodeURIComponent. destruct (isWellFormed keyword); constructor. Qed.

Lemma within_fetch {A} e (u : option (Response A)) :
  P e -> requests_within P (trace_of (fetch e u)).
Proof. intros He. destruct u; by repeat constructor. Qed.

Lemma within_bind {A B} (m : M A) (k : A -> M B) :
  requests_within P (trace_of m) ->
  (forall a, requests_within P (trace_of (k a))) ->
  requests_within P (trace_of (m ≫= k)).
Proof.
  intros Hm Hk. rewrite bind_trace. apply Forall_app. split; [done|].
  destruct (result_of m); [apply Hk|constructor].
Qed.

Lemma within_try_catch {A} (m : M A) (h : exn -> M A) :
  requests_within P (trace_of m) ->
  (forall e, requests_within P (trace_of (h e))) ->
  requests_within P (trace_of (try_catch m h)).
Proof.
  intros Hm Hh. rewrite try_catch_trace. apply Forall_app. split; [done|].
  destruct (result_of m); [constructor|apply Hh].
Qed.

Lemma within_for_each {A S} (body : S -> A -> M S) xs s :
  (forall s x, requests_within P (trace_of (body s x))) ->
  requests_within P (trace_of (for_each body xs s)).
Proof. intros H. apply for_each_trace. intros s' x _. apply H. Qed.

End Traces.

(** Breaks a computation down to its requests. *)
Ltac within :=
  repeat first
    [ progress cbv zeta
    | apply within_ret | apply within_throw | apply within_sleep | apply within_read
    | apply within_encode
    | apply within_fetch
    | apply within_try_catch; [|intros ?]
    | apply within_bind; [|intros ?]
    | apply within_for_each; intros ? ?
    | match goal with
      | |- requests_within _ (trace_of (if ?b then _ else _)) => destruct b
      | |- requests_within _ (trace_of (match ?x with _ => _ end)) => destruct x
      | |- requests_within _ (trace_of (let '(_, _) := ?x in _)) => destruct x
      end ].

Lemma within_not_scraped {A} (m : M A) :
  requests_within (fun e => api_endpoint e = true) (trace_of m) -> scraped m = false.
Proof.
  unfold scraped, requests_within. induction 1 as [|ev t Hev _ IH]; [done|].
  simpl. rewrite IH. destruct ev as [e|ms]; [|done]. simpl. by rewrite Hev.
Qed.

Lemma within_not_requested {A} (P : endpoint -> Prop) e (m : M A) :
  requests_within P (trace_of m) -> ~ P e -> ~ requested e m.
Proof.
  unfold requests_within, requested. rewrite Forall_forall.
  intros H Hne Hin. exact (Hne (H _ Hin)).
Qed.

Lemma twitter_api_requests w o :
  requests_within (fun e => e = TwitterUserSearch)
    (trace_of (Twitter.searchTwitterAccountsViaAPI w o)).
Proof. unfold Twitter.searchTwitterAccountsViaAPI, Twitter.api_step. within; done. Qed.

Lemma nitter_requests w o :
  requests_within (fun e => e = NitterSearch) (trace_of (Twitter.scrapeTwitterResults w o)).
Proof. unfold Twitter.scrapeTwitterResults, Twitter.nitter_step. within; done. Qed.

Lemma facebook_api_requests w o :
  requests_within (fun e => api_endpoint e = true)
    (trace_of (Facebook.searchFacebookAccounts w o)).
Proof.
  unfold Facebook.searchFacebookAccounts, Facebook.page_step, Facebook.user_step.
  within; done.
Qed.

(** A source starts with the request that names it. *)
Lemma source_requested {A B} keyword e (u : option (Response A)) (k : Response A -> M B) h :
  isWellFormed keyword = true ->
  requested e (try_catch (encodeURIComponent keyword;; fetch e u ≫= k) h).
Proof.
  intros Hwf. rewrite encode_well_formed by done.
  unfold requested. rewrite try_catch_trace, bind_trace.
  apply elem_of_app. left. apply elem_of_app. left.
  destruct u; simpl; by left.
Qed.

Lemma requested_scraped {A} e (m : M A) :
  requested e m -> api_endpoint e = false -> scraped m = true.
Proof.
  unfold requested, scraped. intros Hin He.
  apply existsb_exists. exists (Fetch e). split; [by apply list_elem_of_In|].
  simpl. by rewrite He.
Qed.

Lemma within_weaken (P Q : endpoint -> Prop) t :
  (forall e, P e -> Q e) -> requests_within P t -> requests_within Q t.
Proof.
  intros HPQ H. eapply Forall_impl; [exact H|]. intros [e|ms]; auto.
Qed.

(** The three blocks of [searchTwitterAccounts], one after the other. *)
Lemma searchTwitterAccounts_chain c w o :
  Twitter.searchTwitterAccounts c w o =
  match (if Twitter.api_enabled c then Twitter.searchTwitterAccountsViaAPI w o
         else (Returns [], [])) with
  | (Returns (x :: l), t) => (Returns (x :: l), t)
  | (_, t) =>
      match Twitter.scrapeTwitterResults w o with
      | (Returns (x :: l), t') => (Returns (x :: l), t ++ t')
      | (_, t') =>
          (result_of (Twitter.scrapeDirectTwitterResults w o),
           t ++ t' ++ trace_of (Twitter.scrapeDirectTwitterResults w o))
      end
  end.
Proof.
  unfold Twitter.searchTwitterAccounts, Twitter.try_api, Twitter.try_nitter.
  destruct (Twitter.scrapeDirectTwitterResults w o) as [rd td].
  destruct (Twitter.scrapeTwitterResults w o) as [[[|y ln]|en] tn];
    destruct (Twitter.api_enabled c);
    try destruct (Twitter.searchTwitterAccountsViaAPI w o) as [[[|x la]|ea] ta];
    simpl; rewrite ?app_nil_r, <- ?app_assoc; reflexivity.
Qed.

Lemma search_chain {A} (api scrape : M (list A)) :
  (results ← api;
   if bool_decide (length results = 0%nat) then scrape else mret results) =
  match api with
  | (Returns [], t) => (result_of scrape, t ++ trace_of scrape)
  | (r, t) => (r, t)
  end.
Proof.
  destruct api as [[[|x l]|e] t], scrape as [r t']; simpl;
    rewrite ?app_nil_r; reflexivity.
Qed.

(** A source that gets a keyword with a lone surrogate. *)
Lemma ill_formed_sources w o :
  isWellFormed (keyword o) = false ->
  Twitter.searchTwitterAccountsViaAPI w o = (Returns [], []) /\
  Twitter.scrapeTwitterResults w o = (Returns [], []) /\
  Twitter.scrapeDirectTwitterResults w o = (Returns [], []).
Proof.
  intros Hwf.
  unfold Twitter.searchTwitterAccountsViaAPI, Twitter.scrapeTwitterResults,
    Twitter.scrapeDirectTwitterResults.
  cbv zeta. by rewrite !ill_formed_source.
Qed.

Lemma ill_formed_facebook_sources w o :
  isWellFormed (keyword o) = false ->
  Facebook.searchFacebookAccounts w o = (Returns [], []) /\
  Facebook.scrapeFacebookResults w (keyword o) (throttleMs o) = (Returns [], []).
Proof.
  intros Hwf. unfold Facebook.searchFacebookAccounts, Facebook.scrapeFacebookResults.
  cbv zeta. by rewrite !ill_formed_source.
Qed.

(** The chain of [searchTwitterAccounts]. *)
Lemma twitter_chain :
  forall c w o,
    let api := Twitter.searchTwitterAccountsViaAPI w o in
    let nitter := Twitter.scrapeTwitterResults w o in
    let direct := Twitter.scrapeDirectTwitterResults w o in
    let all := Twitter.searchTwitterAccounts c w o in
    let from_api := if Twitter.api_enabled c then result_of api else Returns [] in
    let tried := if Twitter.api_enabled c then trace_of api else [] in
    (scraped all = true -> from_api = Returns []) /\
    (forall l, from_api = Returns l -> l <> [] -> all = (Returns l, trace_of api)) /\
    (from_api = Returns [] ->
       (forall l, result_of nitter = Returns l -> l <> [] ->
          all = (Returns l, tried ++ trace_of nitter) /\
          ~ requested TwitterWebSearch all) /\
       (result_of nitter = Returns [] ->
          all = (result_of direct, tried ++ trace_of nitter ++ trace_of direct))) /\
    (isWellFormed (keyword o) = true -> from_api = Returns [] ->
       scraped all = true /\
       requested NitterSearch all /\
       (result_of nitter = Returns [] -> requested TwitterWebSearch all)) /\
    (isWellFormed (keyword o) = false -> all = (Returns [], [])).
Proof.
  intros c w o api nitter direct all from_api tried.
  assert (Hapi_t : requests_within (fun e => e = TwitterUserSearch) tried).
  { unfold tried. destruct (Twitter.api_enabled c); [apply twitter_api_requests|constructor]. }
  assert (Hnit_t := nitter_requests w o). fold nitter in Hnit_t.
  assert (exists ln, result_of nitter = Returns ln) as [ln Hln] by apply try_catch_returns.
  assert (Hfrom : exists la, from_api = Returns la).
  { unfold from_api. destruct (Twitter.api_enabled c); [apply try_catch_returns|by eexists]. }
  destruct Hfrom as [la Hla].
  assert (Hchain := searchTwitterAccounts_chain c w o).
  fold api nitter direct all in Hchain.
  assert (Hpair : (if Twitter.api_enabled c then api else (Returns [], [])) =
                  (from_api, tried)).
  { unfold from_api, tried. destruct (Twitter.api_enabled c); [apply M_eta|done]. }
  rewrite Hpair, Hla in Hchain. rewrite (M_eta nitter), Hln in Hchain.
  assert (Hfull : forall l, from_api = Returns l -> l <> [] -> all = (Returns l, trace_of api)).
  { intros l Hl Hne. rewrite Hla in Hl. injection Hl as ->.
    destruct l as [|x l]; [done|]. rewrite Hchain. f_equal.
    unfold tried, from_api in *. destruct (Twitter.api_enabled c); [done|discriminate]. }
  split; [|split; [done|split; [|split]]].
  - intros Hs. destruct la as [|x la]; [done|]. exfalso.
    rewrite (Hfull _ Hla) in Hs by done.
    rewrite (within_not_scraped (Returns (x :: la), trace_of api)) in Hs; [done|].
    eapply within_weaken; [|apply twitter_api_requests]. by intros e ->.
  - intros Hl. rewrite Hla in Hl. injection Hl as ->. split.
    + intros l Hl Hne. rewrite Hln in Hl. injection Hl as ->.
      destruct l as [|y l]; [done|]. split; [done|].
      rewrite Hchain.
      apply (within_not_requested (fun e => e = TwitterUserSearch \/ e = NitterSearch)).
      * simpl. apply Forall_app. split.
        -- eapply within_weaken; [|exact Hapi_t]. intros e He. by left.
        -- eapply within_weaken; [|exact Hnit_t]. intros e He. by right.
      * intros [?|?]; discriminate.
    + intros Hl. rewrite Hln in Hl. by injection Hl as ->.
  - intros Hwf Hl. rewrite Hla in Hl. injection Hl as ->.
    assert (Hnit_r : requested NitterSearch nitter) by by apply source_requested.
    assert (Hdir_r : requested TwitterWebSearch direct) by by apply source_requested.
    assert (Hreq : requested NitterSearch all).
    { unfold requested in *. rewrite Hchain.
      destruct ln as [|y ln]; simpl; rewrite !elem_of_app; auto. }
    split; [by eapply requested_scraped|]. split; [done|].
    intros Hl. rewrite Hln in Hl. injection Hl as ->.
    unfold requested in *. rewrite Hchain. simpl. rewrite !elem_of_app. auto.
  - intros Hwf. destruct (ill_formed_sources w o Hwf) as (Ha & Hn & Hd).
    unfold all. rewrite searchTwitterAccounts_chain, Ha, Hn, Hd.
    by destruct (Twitter.api_enabled c).
Qed.

(** The chain of Facebook's [/api/search]. *)
Lemma facebook_chain :
  forall w o,
    let api := Facebook.searchFacebookAccounts w o in
    let scrape := Facebook.scrapeFacebookResults w (keyword o) (throttleMs o) in
    let all := Facebook.search w o in
    (scraped all = true -> result_of api = Returns []) /\
    (forall l, result_of api = Returns l -> l <> [] -> all = api) /\
    (result_of api = Returns [] ->
       all = (result_of scrape, trace_of api ++ trace_of scrape)) /\
    (isWellFormed (keyword o) = true -> result_of api = Returns [] ->
       scraped all = true /\ requested FacebookSearchPage all) /\
    (isWellFormed (keyword o) = false -> all = (Returns [], [])).
Proof.
  intros w o api scrape all.
  assert (Hchain : all = match api with
                         | (Returns [], t) => (result_of scrape, t ++ trace_of scrape)
                         | (r, t) => (r, t)
                         end) by apply search_chain.
  assert (Hapi := facebook_api_requests w o). fold api in Hapi.
  assert (Hfull : forall l, result_of api = Returns l -> l <> [] -> all = api).
  { intros l Hl Hne. rewrite Hchain. destruct api as [r t]. simpl in Hl. subst r.
    by destruct l. }
  assert (Hempty : result_of api = Returns [] ->
    all = (result_of scrape, trace_of api ++ trace_of scrape)).
  { intros Hl. rewrite Hchain. destruct api as [r t]. simpl in Hl. by subst r. }
  split; [|split; [done|split; [done|split]]].
  - intros Hs. destruct (result_of api) as [[|x l]|e] eqn:Hr; [done|exfalso..].
    + rewrite (Hfull _ eq_refl) in Hs by done.
      by rewrite within_not_scraped in Hs.
    + assert (exists l, result_of api = Returns l) as [l Hl] by apply try_catch_returns.
      congruence.
  - intros Hwf Hl.
    assert (Hscr : requested FacebookSearchPage scrape) by by apply source_requested.
    assert (Hreq : requested FacebookSearchPage all).
    { unfold requested in *. rewrite (Hempty Hl). simpl. rewrite elem_of_app. auto. }
    split; [by eapply requested_scraped|done].
  - intros Hwf. destruct (ill_formed_facebook_sources w o Hwf) as (Ha & Hs).
    rewrite Hchain. fold api in Ha. fold scrape in Hs. by rewrite Ha, Hs.
Qed.

(** C7.  On Twitter and on Facebook the scraping fallbacks run exactly
    when the API path yields no candidate.  A non-empty list from the API
    is returned as it is, with the requests of the API step only: a
    scraping request is made only when the API path yielded nothing.
    Otherwise the fallbacks follow in their order: on Twitter the Nitter
    search, whose non-empty list is returned without loading the Twitter
    page, and after it the Twitter page; on Facebook the one scraper.  An
    API that fails counts as yielding nothing.  The request of a fallback
    is the trace it leaves: with a keyword that is well formed every
    fallback that runs makes its request; a keyword with a lone surrogate
    makes every source give up before its request, and the search returns
    nothing.  (On Twitter the API path is switched by the configuration
    and yields nothing when it is off.) *)
Theorem fallback_chain :
  (forall c w o,
     let api := Twitter.searchTwitterAccountsViaAPI w o in
     let nitter := Twitter.scrapeTwitterResults w o in
     let direct := Twitter.scrapeDirectTwitterResults w o in
     let all := Twitter.searchTwitterAccounts c w o in
     let from_api := if Twitter.api_enabled c then result_of api else Returns [] in
     let tried := if Twitter.api_enabled c then trace_of api else [] in
     (scraped all = true -> from_api = Returns []) /\
     (forall l, from_api = Returns l -> l <> [] -> all = (Returns l, trace_of api)) /\
     (from_api = Returns [] ->
        (forall l, result_of nitter = Returns l -> l <> [] ->
           all = (Returns l, tried ++ trace_of nitter) /\
           ~ requested TwitterWebSearch all) /\
        (result_of nitter = Returns [] ->
           all = (result_of direct, tried ++ trace_of nitter ++ trace_of direct))) /\
     (isWellFormed (keyword o) = true -> from_api = Returns [] ->
        scraped all = true /\
        requested NitterSearch all /\
        (result_of nitter = Returns [] -> requested TwitterWebSearch all)) /\
     (isWellFormed (keyword o) = false -> all = (Returns [], []))) /\
  (forall w o,
     let api := Facebook.searchFacebookAccounts w o in
     let scrape := Facebook.scrapeFacebookResults w (keyword o) (throttleMs o) in
     let all := Facebook.search w o in
     (scraped all = true -> result_of api = Returns []) /\
     (forall l, result_of api = Returns l -> l <> [] -> all = api) /\
     (result_of api = Returns [] ->
        all = (result_of scrape, trace_of api ++ trace_of scrape)) /\
     (isWellFormed (keyword o) = true -> result_of api = Returns [] ->
        scraped all = true /\ requested FacebookSearchPage all) /\
     (isWellFormed (keyword o) = false -> all = (Returns [], []))) /\
  (forall c w o, isWellFormed (keyword o) = true ->
     unavailable (Twitter.user_search w) = true ->
     scraped (Twitter.searchTwitterAccounts c w o) = true) /\
  (forall w o, isWellFormed (keyword o) = true ->
     unavailable (Facebook.page_search w) = true ->
     scraped (Facebook.search w o) = true).
Proof.
  split; [exact twitter_chain|]. split; [exact facebook_chain|]. split.
  - intros c w o Hwf Hu.
    destruct (twitter_chain c w o) as (_ & _ & _ & Hrun & _). apply Hrun; [done|].
    destruct (Twitter.api_enabled c); [|done]. by apply failed_source.
  - intros w o Hwf Hu.
    destruct (facebook_chain w o) as (_ & _ & _ & Hrun & _). apply Hrun; [done|].
    by apply failed_source.
Qed.

Lemma fallback_chain_witness :
  let o := {| keyword := js "acme"; limit := None; throttleMs := None; fuzzyThreshold := None |} in
  let acme := {| Facebook.page_name := Some (js "Acme"); Facebook.about := None;
                 Facebook.page_link := js "https://www.facebook.com/acme" |} in
  let up := {| Facebook.page_search := Some {| ok := true; content := Some [acme] |};
               Facebook.user_search := Some {| ok := false; content := None |};
               Facebook.search_page := None |} in
  let down := {| Facebook.page_search := None; Facebook.user_search := None;
                 Facebook.search_page := None |} in
  let c := {| Twitter.USE_API := false; Twitter.TWITTER_BEARER_TOKEN := js "" |} in
  let tw := {| Twitter.user_search := None; Twitter.nitter_page := None;
               Twitter.twitter_page := None |} in
  (result_of (Facebook.searchFacebookAccounts up o) =
     Returns [{| name := js "Acme"; description := None;
                 url := js "https://www.facebook.com/acme" |}] /\
   Facebook.search up o = Facebook.searchFacebookAccounts up o) /\
  (isWellFormed (keyword o) = true /\
   result_of (Facebook.searchFacebookAccounts down o) = Returns [] /\
   requested FacebookSearchPage (Facebook.search down o)) /\
  (result_of (Twitter.scrapeTwitterResults tw o) = Returns [] /\
   requested TwitterWebSearch (Twitter.searchTwitterAccounts c tw o)).
Proof.
  intros o acme up down c tw.
  destruct fallback_chain as (Htw & Hfb & _).
  assert (Hwf : isWellFormed (keyword o) = true) by reflexivity.
  split; [|split].
  - assert (H : result_of (Facebook.searchFacebookAccounts up o) =
                Returns [{| name := js "Acme"; description := None;
                            url := js "https://www.facebook.com/acme" |}])
      by reflexivity.
    split; [exact H|].
    destruct (Hfb up o) as (_ & Hfull & _). apply (Hfull _ H). discriminate.
  - assert (H : result_of (Facebook.searchFacebookAccounts down o) = Returns [])
      by reflexivity.
    split; [exact Hwf|]. split; [exact H|].
    destruct (Hfb down o) as (_ & _ & _ & Hrun & _). apply (Hrun Hwf H).
  - assert (H : result_of (Twitter.scrapeTwitterResults tw o) = Returns []) by reflexivity.
    split; [exact H|].
    destruct (Htw c tw o) as (_ & _ & _ & Hrun & _).
    destruct (Hrun Hwf eq_refl) as (_ & _ & Hdirect). apply (Hdirect H).
Defined.

(** ** Inclusion rules *)


Lemma description_mentions_spec description keyword :
  description_mentions description keyword = true <->
  exists d, description = Some d /\ d <> [] /\
    includes (toLowerCase d) (toLowerCase keyword) = true.
Proof.
  unfold description_mentions. split.
  - destruct description as [[|c d]|]; try done. intros H. by exists (c :: d).
  - intros (d & -> & Hne & H). by destruct d.
Qed.

Lemma includes_nil_l needle : includes [] needle = true -> needle = [].
Proof. destruct needle; [done|]. simpl. done. Qed.

(** With a keyword that is not empty, an empty description contains
    nothing: the guard of the source and the words of the claim agree. *)
Lemma description_mentions_contains description keyword :
  keyword <> [] ->
  description_mentions description keyword = true <-> contains_keyword description keyword.
Proof.
  intros Hk. rewrite description_mentions_spec. unfold contains_keyword.
  split; [intros (d & ? & _ & ?); eauto|].
  intros (d & -> & H). exists d. split; [done|]. split; [|done].
  intros ->. apply includes_nil_l in H. apply Hk. by apply toLowerCase_nil.
Qed.

Lemma twitter_api_step_result keyword throttleMs threshold results user name username :
  Twitter.user_name user = Some name ->
  Twitter.user_username user = Some username ->
  result_of (Twitter.api_step keyword throttleMs threshold results user) =
  Returns
    (if num_ge (calculateSimilarity name keyword) threshold
        || num_ge (calculateSimilarity username keyword) threshold
        || description_mentions (Twitter.user_description user) keyword
     then results ++ [Twitter.account name (Twitter.user_description user) username]
     else results).
Proof.
  intros Hn Hu. unfold Twitter.api_step. rewrite bind_result, Hn, Hu. simpl.
  destruct (num_ge (calculateSimilarity name keyword) threshold
            || num_ge (calculateSimilarity username keyword) threshold); [done|].
  simpl. by destruct (description_mentions _ _).
Qed.

Lemma fetch_result {A B} e (r : Response A) (k : Response A -> M B) :
  result_of (fetch e (Some r) ≫= k) = result_of (k r).
Proof. simpl. by destruct (k r). Qed.

Lemma read_result {A B} o (data : A) (k : A -> M B) :
  result_of (read {| ok := o; content := Some data |} ≫= k) = result_of (k data).
Proof. simpl. by destruct (k data). Qed.

(** A source whose request succeeds continues with the data. *)
Lemma source_result {A S} keyword e (data : A) (k : A -> M (list S)) l :
  isWellFormed keyword = true ->
  result_of (k data) = Returns l ->
  result_of (try_catch
               (encodeURIComponent keyword;;
                response ← fetch e (Some {| ok := true; content := Some data |});
                if negb (ok response) then throw StatusError
                else d ← read response; k d)
               (fun _ => mret [])) = Returns l.
Proof.
  intros Hwf H. rewrite encode_well_formed by done.
  simpl. destruct (k data) as [r t]. simpl in *. by subst r.
Qed.


Lemma facebook_page_step_result keyword throttleMs threshold results page name :
  Facebook.page_name page = Some name ->
  result_of (Facebook.page_step keyword throttleMs threshold results page) =
  Returns (if page_listed keyword threshold page
           then results ++ [page_candidate page] else results).
Proof.
  intros Hn. unfold Facebook.page_step, page_listed, page_candidate.
  rewrite bind_result, Hn. simpl. by destruct (num_ge _ _).
Qed.



Lemma scores_iff x keyword threshold :
  num_ge (calculateSimilarity x keyword) threshold = true <-> scores x keyword threshold.
Proof. done. Qed.




(** C6.  The scrapers of YouTube and Facebook compare with the constant
    [0.7], not with the threshold of the request.  With a threshold of
    [0.9] and the API down, a name that scores [0.8] and has no matching
    description is listed by both: by Facebook's search as it runs, and by
    YouTube's as its text reads (the file itself is not loaded). *)
Theorem scrapers_use_fixed_threshold :
  let strict := num_div (num_of_Z 9) (num_of_Z 10) in
  let o := {| keyword := js "acme"; limit := None; throttleMs := None;
              fuzzyThreshold := Some strict |} in
  let yt := {| YouTube.channel_search := None;
               YouTube.channel_details := fun _ => None;
               YouTube.results_page := Some {| ok := true; content := Some [js "@acmes"] |};
               YouTube.channel_page := fun _ =>
                 Some {| ok := true;
                         content := Some {| YouTube.og_title := Some (js "Acmes");
                                            YouTube.og_description := None |} |};
               YouTube.video_search := None |} in
  let fb := {| Facebook.page_search := None;
               Facebook.user_search := None;
               Facebook.search_page :=
                 Some {| ok := true;
                         content := Some [{| Facebook.match_url := js "https://www.facebook.com/acmes";
                                             Facebook.match_name := js "Acmes" |}] |} |} in
  num_ge (calculateSimilarity (js "Acmes") (keyword o)) strict = false /\
  includes (toLowerCase (js "")) (toLowerCase (keyword o)) = false /\
  result_of (YouTube.search yt o) =
    Returns [{| name := js "Acmes"; description := Some (js "");
                url := js "https://www.youtube.com/@acmes" |}] /\
  result_of (Facebook.search fb o) =
    Returns [{| name := js "Acmes"; description := None;
                url := js "https://www.facebook.com/acmes" |}].
Proof. repeat split; reflexivity. Qed.

(** ** Duplicates *)


















(** * Further properties *)

(** ** The range of the score *)

(** The quotient of two integers, and its distance to [1]. *)

Lemma num_of_Z_exact z :
  0 < z < 2 ^ 53 ->
  exists m e, num_of_Z z = S754_finite false m e /\
              2 ^ 52 <= Zpos m < 2 ^ 53 /\ -52 <= e <= 0 /\
              Zpos m = z * 2 ^ (- e).
Proof.
  intros Hz. destruct z as [|p|p]; try lia.
  unfold num_of_Z, binary_normalize, binary_round.
  pose proof (digits2_pos_bounds p) as [Hlo Hhi].
  assert (Hd : Zpos (digits2_pos p) <= 53).
  { destruct (Z_le_gt_dec (Zpos (digits2_pos p)) 53) as [|Hgt]; [done|].
    assert (2 ^ 53 <= 2 ^ (Zpos (digits2_pos p) - 1)) by (apply Z.pow_le_mono_r; lia). lia. }
  assert (Hfexp : fexp prec emax (Zpos (digits2_pos p) + 0) = Zpos (digits2_pos p) - 53).
  { unfold fexp, emin, prec, emax. lia. }
  rewrite Hfexp. unfold shl_align.
  destruct (Zpos (digits2_pos p) - 53 - 0) as [|k|k] eqn:Hk; try lia.
  - rewrite binary_round_aux_exact by lia.
    replace (Zpos (digits2_pos p) - 1) with 52 in Hlo by lia.
    exists p, 0. split; [done|]. simpl. lia.
  - pose proof (digits2_pos_bounds (Pos.iter xO p k)) as Hb.
    rewrite binary_round_aux_exact by (rewrite ?digits2_pos_iter; lia).
    rewrite digits2_pos_iter in Hb.
    replace (Zpos (digits2_pos p + k) - 1) with 52 in Hb by lia.
    replace (Zpos (digits2_pos p + k)) with 53 in Hb by lia.
    eexists _, _. split; [done|]. split; [lia|]. split; [lia|].
    rewrite iter_xO_shift. f_equal. f_equal. lia.
Qed.

Lemma new_location_zero m : new_location m 0 = loc_Exact.
Proof. unfold new_location. by destruct (Z.even m). Qed.

(** A quotient [d/m] with [d <= m] is at most [1]. *)
Lemma num_div_le_one d m :
  0 < d <= m -> m < 2 ^ 53 ->
  exists mq eq,
    num_div (num_of_Z d) (num_of_Z m) = S754_finite false mq eq /\
    2 ^ 52 <= Zpos mq < 2 ^ 53 /\ -105 <= eq /\
    (eq < -52 \/ (eq = -52 /\ mq = 4503599627370496%positive)).
Proof.
  intros Hd Hm.
  destruct (num_of_Z_exact d ltac:(lia)) as (m1 & e1 & -> & Hm1 & He1 & Hv1).
  destruct (num_of_Z_exact m ltac:(lia)) as (m2 & e2 & -> & Hm2 & He2 & Hv2).
  assert (Hp1 : 0 < 2 ^ (- e1)) by (apply Z.pow_pos_nonneg; lia).
  assert (He : e1 <= e2).
  { destruct (Z_le_gt_dec e1 e2) as [|Hgt]; [done|]. exfalso.
    assert (Hsplit : 2 ^ (- e2) = 2 ^ (- e1) * 2 ^ (e1 - e2)).
    { rewrite <- Z.pow_add_r by lia. f_equal. lia. }
    assert (2 ^ 1 <= 2 ^ (e1 - e2)) by (apply Z.pow_le_mono_r; lia).
    change (2 ^ 1) with 2 in *. nia. }
  unfold num_div, SFdiv, SFdiv_core_binary. cbn [Zdigits2 xorb].
  rewrite (digits2_pos_unique m1 53), (digits2_pos_unique m2 53) by lia.
  assert (He' : Z.min (fexp prec emax (53 + e1 - (53 + e2))) (e1 - e2) = e1 - e2 - 53).
  { unfold fexp, emin, prec, emax. lia. }
  rewrite He'. replace (e1 - e2 - (e1 - e2 - 53)) with 53 by lia.
  rewrite Z.shiftl_mul_pow2 by lia.
  pose proof (Z_div_mod (Zpos m1 * 2 ^ 53) (Zpos m2) ltac:(lia)) as Hdm.
  destruct (Z.div_eucl (Zpos m1 * 2 ^ 53) (Zpos m2)) as [q r].
  destruct Hdm as [Hq Hr].
  assert (Hqb : 2 ^ 52 <= q < 2 ^ 54) by nia.
  destruct q as [|q|q]; try lia.
  pose proof (digits2_pos_bounds q) as [Hlo Hhi].
  assert (Hdq : 53 <= Zpos (digits2_pos q) <= 54).
  { split.
    - destruct (Z_le_gt_dec 53 (Zpos (digits2_pos q))); [done|].
      assert (2 ^ Zpos (digits2_pos q) <= 2 ^ 52) by (apply Z.pow_le_mono_r; lia). lia.
    - destruct (Z_le_gt_dec (Zpos (digits2_pos q)) 54); [done|].
      assert (2 ^ 54 <= 2 ^ (Zpos (digits2_pos q) - 1)) by (apply Z.pow_le_mono_r; lia). lia. }
  destruct (binary_round_aux_normal q (e1 - e2 - 53) (new_location (Zpos m2) r))
    as (mrs & Hshr & Hmrs & Hcases); try lia.
  pose proof (round_nearest_even_bounds (shr_m mrs) (loc_of_shr_record mrs)) as Hrne.
  destruct (Z_lt_le_dec e1 e2) as [Hlt|Hge].
  - (* the dividend has fewer digits *)
    destruct Hcases as [(mf & -> & Hmf & Hlt53)|[-> _]].
    + exists mf, (e1 - e2 - 53 + (Zpos (digits2_pos q) - 53)). split; [done|].
      split; [lia|]. split; [lia|]. left. lia.
    + exists (2 ^ 52)%positive, (e1 - e2 - 53 + (Zpos (digits2_pos q) - 53) + 1).
      split; [done|]. split; [lia|]. split; [lia|].
      destruct (Z_lt_le_dec (e1 - e2 - 53 + (Zpos (digits2_pos q) - 53) + 1) (-52));
        [by left|right]. split; [lia|done].
  - (* as many digits: the mantissas are in the order of the integers *)
    assert (e1 = e2) as -> by lia.
    assert (Hm12 : Zpos m1 <= Zpos m2) by nia.
    assert (Hq53 : Zpos q <= 2 ^ 53) by nia.
    destruct (Z_lt_le_dec (Zpos q) (2 ^ 53)) as [Hqlt|Hqge].
    + assert (Hdq53 : Zpos (digits2_pos q) = 53) by (apply digits2_pos_unique; lia).
      destruct Hcases as [(mf & -> & Hmf & Hlt53)|[-> _]].
      * exists mf, (e2 - e2 - 53 + (Zpos (digits2_pos q) - 53)). split; [done|].
        split; [lia|]. split; [lia|]. left. lia.
      * exists (2 ^ 52)%positive, (e2 - e2 - 53 + (Zpos (digits2_pos q) - 53) + 1).
        split; [done|]. split; [lia|]. split; [lia|]. right. split; [lia|done].
    + assert (Hq' : Zpos q = 2 ^ 53) by lia.
      assert (Hr0 : r = 0) by nia. subst r. rewrite new_location_zero in *.
      assert (Hdq54 : Zpos (digits2_pos q) = 54) by (apply digits2_pos_unique; lia).
      destruct (shr_spec (shr_record_of_loc (Zpos q) loc_Exact) (e2 - e2 - 53)
                  (Zpos (digits2_pos q) - 53))
        as (mrs' & Hshr' & Hm' & Hexact); [simpl; lia|lia|].
      rewrite Hshr in Hshr'. injection Hshr' as <-.
      cbn [shr_record_of_loc shr_m shr_r shr_s] in Hm', Hexact.
      rewrite Hdq54, Hq' in Hm', Hexact.
      destruct (Hexact eq_refl eq_refl eq_refl) as [Hrr Hrs].
      rewrite (round_nearest_even_exact _ _ Hrr Hrs) in *.
      change (2 ^ 53 / 2 ^ (54 - 53)) with (2 ^ 52) in Hm'.
      destruct Hcases as [(mf & -> & Hmf & Hlt53)|[_ Hcarry]]; [|lia].
      exists mf, (e2 - e2 - 53 + (Zpos (digits2_pos q) - 53)). split; [done|].
      split; [lia|]. split; [lia|]. right. split; [lia|].
      rewrite Hm' in Hmf. by injection Hmf.
Qed.

(** Below [1]: subtracting a normal number of exponent under -52 from [1]
    leaves a positive number of exponent under -52. *)
Lemma num_sub_one_below mq eq :
  2 ^ 52 <= Zpos mq < 2 ^ 53 -> -105 <= eq < -52 ->
  exists mf ef, num_sub num_one (S754_finite false mq eq) = S754_finite false mf ef /\ ef < -52.
Proof.
  intros Hmq Heq. unfold num_sub, num_one, SFsub. cbn [cond_Zopp].
  rewrite Z.min_r by lia.
  assert (Hk : exists k, eq - -52 = Zneg k /\ Zpos k = -52 - eq).
  { destruct (eq - -52) as [|k|k] eqn:E; try lia. exists k. split; [done|lia]. }
  destruct Hk as (k & Hk & Hkv).
  assert (Hfirst : Zpos (fst (shl_align 4503599627370496 (-52) eq)) = 2 ^ (- eq)).
  { unfold shl_align. rewrite Hk. cbn [fst]. rewrite iter_xO_shift, Hkv.
    change (Zpos 4503599627370496) with (2 ^ 52). rewrite <- Z.pow_add_r by lia.
    f_equal. lia. }
  assert (Hsecond : fst (shl_align mq eq eq) = mq).
  { unfold shl_align. by rewrite Z.sub_diag. }
  rewrite Hfirst, Hsecond.
  assert (Hpow : 2 ^ 53 <= 2 ^ (- eq)) by (apply Z.pow_le_mono_r; lia).
  destruct (2 ^ (- eq) - Zpos mq) as [|pM|pM] eqn:HM; try lia.
  cbn [binary_normalize]. unfold binary_round.
  pose proof (digits2_pos_bounds pM) as [Hlo Hhi].
  assert (HdM : Zpos (digits2_pos pM) <= - eq).
  { destruct (Z_le_gt_dec (Zpos (digits2_pos pM)) (- eq)); [done|].
    assert (2 ^ (- eq) <= 2 ^ (Zpos (digits2_pos pM) - 1)) by (apply Z.pow_le_mono_r; lia).
    lia. }
  assert (Hfexp : fexp prec emax (Zpos (digits2_pos pM) + eq) = Zpos (digits2_pos pM) + eq - 53).
  { unfold fexp, emin, prec, emax. lia. }
  rewrite Hfexp. unfold shl_align.
  destruct (Zpos (digits2_pos pM) + eq - 53 - eq) as [|j|j] eqn:Hj.
  - rewrite binary_round_aux_exact by lia. eexists _, _. split; [done|lia].
  - destruct (binary_round_aux_normal pM eq loc_Exact)
      as (mrs & Hshr & Hmrs & [(mf & -> & _)|[-> Hcarry]]); try lia.
    + eexists _, _. split; [done|lia].
    + eexists _, _. split; [done|].
      destruct (Z_lt_le_dec (eq + (Zpos (digits2_pos pM) - 53) + 1) (-52)) as [|Hge]; [done|].
      exfalso.
      set (n := Zpos (digits2_pos pM) - 53) in *.
      destruct (shr_spec (shr_record_of_loc (Zpos pM) loc_Exact) eq n)
        as (mrs' & Hshr' & Hm' & Hexact); [simpl; lia|lia|].
      rewrite Hshr in Hshr'. injection Hshr' as <-.
      cbn [shr_record_of_loc shr_m shr_r shr_s] in Hm', Hexact.
      pose proof (round_nearest_even_bounds (shr_m mrs) (loc_of_shr_record mrs)) as Hb.
      assert (Hm1 : shr_m mrs = 2 ^ 53 - 1) by lia.
      assert (Hn : n = - eq - 53) by lia.
      assert (HMlow : (2 ^ 53 - 1) * 2 ^ n <= Zpos pM).
      { rewrite <- Hm1, Hm'. rewrite Z.mul_comm. apply Z.mul_div_le. lia. }
      assert (Hsplit : 2 ^ (- eq) = 2 ^ 53 * 2 ^ n).
      { rewrite <- Z.pow_add_r by lia. f_equal. lia. }
      assert (Hn52 : 2 ^ n <= 2 ^ 52) by (apply Z.pow_le_mono_r; lia).
      assert (Hmq52 : Zpos mq = 2 ^ 52) by nia.
      assert (Hn' : 2 ^ n = 2 ^ 52) by nia.
      assert (Hmod : Zpos pM mod 2 ^ n = 0).
      { replace (Zpos pM) with ((2 ^ 53 - 1) * 2 ^ n) by nia. apply Z.mod_mul. lia. }
      destruct (Hexact eq_refl eq_refl Hmod) as [Hr Hs].
      rewrite (round_nearest_even_exact _ _ Hr Hs) in Hcarry. lia.
  - rewrite binary_round_aux_exact by (rewrite ?digits2_pos_iter; lia).
    eexists _, _. split; [done|lia].
Qed.

(** [0 <= 1 - d/m <= 1] for [0 <= d <= m]. *)
Lemma num_sub_div_unit d m :
  0 <= d <= m -> 0 < m < 2 ^ 53 ->
  let x := num_sub num_one (num_div (num_of_Z d) (num_of_Z m)) in
  SFleb (S754_zero false) x = true /\ SFleb x num_one = true.
Proof.
  intros Hd Hm x. unfold x. clear x.
  destruct (Z.eq_dec d 0) as [->|Hd0].
  - destruct (num_of_Z_normal m Hm) as (m2 & e2 & -> & _). done.
  - destruct (num_div_le_one d m) as (mq & eq & -> & Hmq & Heq & [Hlt|[-> ->]]); try lia.
    + destruct (num_sub_one_below mq eq) as (mf & ef & -> & Hef); [done|lia|].
      split; [done|]. unfold SFleb, num_one, SFcompare.
      by destruct (Z.compare_spec ef (-52)); try lia.
    + done.
Qed.

(** The score of two strings that are not both empty lies between 0 and 1. *)
Lemma calculateSimilarity_range (a b : jsstring) :
  ~ (a = [] /\ b = []) ->
  Z.of_nat (length (toLowerCase a)) < 2 ^ 53 ->
  Z.of_nat (length (toLowerCase b)) < 2 ^ 53 ->
  num_ge (calculateSimilarity a b) num_zero = true /\
  num_ge num_one (calculateSimilarity a b) = true.
Proof.
  intros Hne Ha Hb. rewrite calculateSimilarity_formula.
  pose proof (levenshtein_le_max (toLowerCase a) (toLowerCase b)) as Hle.
  apply num_sub_div_unit; [lia|]. split; [|lia].
  destruct (toLowerCase a) eqn:Hla, (toLowerCase b) eqn:Hlb; simpl; try lia.
  destruct Hne. split; by apply toLowerCase_nil.
Qed.

(** X1.  For two strings that are not both empty (and of a length below
    2^53, which a string cannot exceed), the score is a number of the
    closed interval from 0 to 1: it is at least 0 and at most 1. *)
Theorem calculateSimilarity_unit_interval (a b : jsstring) :
  ~ (a = [] /\ b = []) ->
  Z.of_nat (length (toLowerCase a)) < 2 ^ 53 ->
  Z.of_nat (length (toLowerCase b)) < 2 ^ 53 ->
  num_ge (calculateSimilarity a b) num_zero = true /\
  num_ge num_one (calculateSimilarity a b) = true.
Proof. apply calculateSimilarity_range. Qed.

Lemma calculateSimilarity_unit_interval_witness :
  num_ge (calculateSimilarity (js "Acme Corp") (js "acme")) num_zero = true /\
  num_ge num_one (calculateSimilarity (js "Acme Corp") (js "acme")) = true.
Proof.
  apply (calculateSimilarity_unit_interval (js "Acme Corp") (js "acme")).
  - intros [H _]. discriminate H.
  - simpl. lia.
  - simpl. lia.
Defined.

(** ** The distance as a metric *)

Lemma edit_script_trans s t n :
  edit_script s t n -> forall u m, edit_script t u m ->
  exists k, (k <= n + m)%nat /\ edit_script s u k.
Proof.
  induction 1 as [|a s t n _ IH|a b s t n _ IH|a s t n _ IH|b s t n _ IH]; intros u m H2.
  - exists m. split; [lia|done].
  - remember (a :: t) as t0 eqn:Ht0.
    induction H2 as [|a' t' u' m' H2 _|a' b' t' u' m' H2 _|a' t' u' m' H2 _|b' t' u' m' _ IH2];
      simplify_eq.
    + destruct (IH _ _ H2) as (k & Hk & Hs). exists k. split; [lia|by constructor].
    + destruct (IH _ _ H2) as (k & Hk & Hs). exists (S k). split; [lia|by constructor].
    + destruct (IH _ _ H2) as (k & Hk & Hs). exists (S k). split; [lia|by constructor].
    + destruct (IH2 eq_refl) as (k & Hk & Hs). exists (S k). split; [lia|by constructor].
  - remember (b :: t) as t0 eqn:Ht0.
    induction H2 as [|a' t' u' m' H2 _|a' b' t' u' m' H2 _|a' t' u' m' H2 _|b' t' u' m' _ IH2];
      simplify_eq.
    + destruct (IH _ _ H2) as (k & Hk & Hs). exists (S k). split; [lia|by constructor].
    + destruct (IH _ _ H2) as (k & Hk & Hs). exists (S k). split; [lia|by constructor].
    + destruct (IH _ _ H2) as (k & Hk & Hs). exists (S k). split; [lia|by constructor].
    + destruct (IH2 eq_refl) as (k & Hk & Hs). exists (S k). split; [lia|by constructor].
  - destruct (IH _ _ H2) as (k & Hk & Hs). exists (S k). split; [lia|by constructor].
  - remember (b :: t) as t0 eqn:Ht0.
    induction H2 as [|a' t' u' m' H2 _|a' b' t' u' m' H2 _|a' t' u' m' H2 _|b' t' u' m' _ IH2];
      simplify_eq.
    + destruct (IH _ _ H2) as (k & Hk & Hs). exists (S k). split; [lia|by constructor].
    + destruct (IH _ _ H2) as (k & Hk & Hs). exists (S k). split; [lia|by constructor].
    + destruct (IH _ _ H2) as (k & Hk & Hs). exists k. split; [lia|done].
    + destruct (IH2 eq_refl) as (k & Hk & Hs). exists (S k). split; [lia|by constructor].
Qed.

Lemma levenshtein_triangle s t u :
  (levenshtein s u <= levenshtein s t + levenshtein t u)%nat.
Proof.
  destruct (edit_script_trans _ _ _ (levenshtein_script s t) _ _ (levenshtein_script t u))
    as (k & Hk & Hs).
  apply levenshtein_least in Hs. lia.
Qed.

(** X2.  The distance read off the matrix is a metric on strings: it is
    zero exactly between a string and itself, it does not depend on the
    order of the two strings, and going through a third string is never
    shorter. *)
Theorem matrix_distance_metric :
  (forall a b, matrix_distance a b = 0 <-> a = b) /\
  (forall a b, matrix_distance a b = matrix_distance b a) /\
  (forall a b c, matrix_distance a c <= matrix_distance a b + matrix_distance b c).
Proof.
  split; [|split].
  - intros a b. rewrite matrix_distance_levenshtein, <- levenshtein_zero. lia.
  - intros a b. by rewrite !matrix_distance_levenshtein, levenshtein_sym.
  - intros a b c. rewrite !matrix_distance_levenshtein.
    pose proof (levenshtein_triangle a b c). lia.
Qed.

(** X3.  The distance is at least the difference of the two lengths and
    at most the larger of them. *)
Theorem matrix_distance_bounds (a b : jsstring) :
  Z.abs (Z.of_nat (length a) - Z.of_nat (length b)) <= matrix_distance a b
  <= Z.max (Z.of_nat (length a)) (Z.of_nat (length b)).
Proof.
  rewrite matrix_distance_levenshtein.
  pose proof (levenshtein_le_max a b).
  pose proof (edit_script_length _ _ _ (levenshtein_script a b)). lia.
Qed.

(** ** Malformed items *)

(** A loop throws as soon as its body does: an element on which the body
    throws whatever the state makes the whole loop throw. *)
Lemma for_each_throws {A S} (body : S -> A -> M S) xs x :
  x ∈ xs -> (forall s, exists e, result_of (body s x) = Throws e) ->
  forall s, exists e, result_of (for_each body xs s) = Throws e.
Proof.
  intros Hx Hthrows. induction xs as [|y xs IH]; intros s; [by apply elem_of_nil in Hx|].
  simpl. rewrite bind_result. apply elem_of_cons in Hx as [<-|Hx].
  - destruct (Hthrows s) as [e ->]. eauto.
  - destruct (result_of (body s y)); [by apply IH|eauto].
Qed.

(** A source whose loop throws gives the empty sequence. *)
Lemma source_throws {A S} keyword e (data : A) (k : A -> M (list S)) x :
  result_of (k data) = Throws x ->
  result_of (try_catch
               (encodeURIComponent keyword;;
                response ← fetch e (Some {| ok := true; content := Some data |});
                if negb (ok response) then throw StatusError
                else d ← read response; k d)
               (fun _ => mret [])) = Returns [].
Proof.
  intros H. destruct (isWellFormed keyword) eqn:Hwf; [|by rewrite encode_ill_formed].
  rewrite encode_well_formed by done.
  simpl. destruct (k data) as [r t]. simpl in *. by subst r.
Qed.

(** X4.  One item without a name empties the answer of an API step: when
    a user of the Twitter response lacks its name or username, or a page
    or user of the Facebook response its name, the step returns the empty
    sequence, whatever the other items are. *)
Theorem malformed_item_empties_results :
  (forall w o users u,
     Twitter.user_search w = Some {| ok := true; content := Some users |} ->
     u ∈ users -> Twitter.user_name u = None \/ Twitter.user_username u = None ->
     result_of (Twitter.searchTwitterAccountsViaAPI w o) = Returns []) /\
  (forall w o pages page,
     Facebook.page_search w = Some {| ok := true; content := Some pages |} ->
     page ∈ pages -> Facebook.page_name page = None ->
     result_of (Facebook.searchFacebookAccounts w o) = Returns []) /\
  (forall w o pages users user,
     Facebook.page_search w = Some {| ok := true; content := Some pages |} ->
     Facebook.user_search w = Some {| ok := true; content := Some users |} ->
     user ∈ users -> Facebook.user_name user = None ->
     result_of (Facebook.searchFacebookAccounts w o) = Returns []).
Proof.
  repeat split.
  - intros w o users u Hw Hu Hbad. unfold Twitter.searchTwitterAccountsViaAPI. rewrite Hw.
    edestruct (for_each_throws
                 (Twitter.api_step (keyword o) (default (num_of_Z 2000) (throttleMs o))
                    (default num_0_7 (fuzzyThreshold o))) users u Hu) as [e He].
    { intros s. unfold Twitter.api_step. rewrite bind_result. simpl.
      destruct Hbad as [-> | ->]; [eauto|]. destruct (Twitter.user_name u); eauto. }
    eapply source_throws, He.
  - intros w o pages page Hw Hp Hbad. unfold Facebook.searchFacebookAccounts. rewrite Hw.
    edestruct (for_each_throws
                 (Facebook.page_step (keyword o) (default (num_of_Z 1000) (throttleMs o))
                    (default num_0_7 (fuzzyThreshold o))) pages page Hp) as [e He].
    { intros s. unfold Facebook.page_step. rewrite bind_result, Hbad. simpl. eauto. }
    apply source_throws with e. by rewrite bind_result, He.
  - intros w o pages users user Hw Hw' Hu Hbad.
    destruct (isWellFormed (keyword o)) eqn:Hwf;
      [|by rewrite (proj1 (ill_formed_facebook_sources w o Hwf))].
    unfold Facebook.searchFacebookAccounts. rewrite Hw, Hw'.
    assert (exists e, result_of
              (results ← for_each
                           (Facebook.page_step (keyword o) (default (num_of_Z 1000) (throttleMs o))
                              (default num_0_7 (fuzzyThreshold o))) pages [];
               encodeURIComponent (keyword o);;
               userResponse ← fetch FacebookUserSearch
                                (Some {| ok := true; content := Some users |});
               if negb (ok userResponse) then mret results
               else
                 userData ← read userResponse;
                 for_each
                   (Facebook.user_step (keyword o) (default (num_of_Z 1000) (throttleMs o))
                      (default num_0_7 (fuzzyThreshold o))) userData results) = Throws e)
      as [e He].
    { rewrite bind_result. destruct (result_of (for_each _ pages [])) as [results|e]; [|eauto].
      rewrite encode_well_formed, fetch_result by done. cbn [ok negb]. rewrite read_result.
      apply for_each_throws with user; [done|].
      intros s. unfold Facebook.user_step. rewrite bind_result, Hbad. simpl. eauto. }
    by apply source_throws with e.
Qed.

Lemma malformed_item_empties_results_witness :
  let o := {| keyword := js "acme"; limit := None; throttleMs := None; fuzzyThreshold := None |} in
  let good := {| Twitter.user_name := Some (js "Acme");
                 Twitter.user_username := Some (js "acme");
                 Twitter.user_description := None |} in
  let bad := {| Twitter.user_name := None;
                Twitter.user_username := Some (js "acme_corp");
                Twitter.user_description := None |} in
  let w := {| Twitter.user_search := Some {| ok := true; content := Some [good; bad] |};
              Twitter.nitter_page := None; Twitter.twitter_page := None |} in
  result_of (Twitter.searchTwitterAccountsViaAPI w o) = Returns [].
Proof.
  intros o good bad w.
  apply (proj1 malformed_item_empties_results w o [good; bad] bad).
  - reflexivity.
  - right. left.
  - left. reflexivity.
Defined.

(** ** The two searches of Facebook *)

(** X5.  The user search of Facebook fails in two ways.  A request that
    does not complete, or a body that cannot be read, loses the pages
    already found: the step returns the empty sequence.  A status that is
    not a success keeps them: for a keyword that can be encoded, the step
    returns the pages whose name scores. *)
Theorem facebook_user_search_failure w o pages :
  Facebook.page_search w = Some {| ok := true; content := Some pages |} ->
  Forall (fun p => is_Some (Facebook.page_name p)) pages ->
  let threshold := default num_0_7 (fuzzyThreshold o) in
  let found := page_candidate <$> filter (fun p => page_listed (keyword o) threshold p = true) pages in
  (Facebook.user_search w = None ->
   result_of (Facebook.searchFacebookAccounts w o) = Returns []) /\
  (Facebook.user_search w = Some {| ok := true; content := None |} ->
   result_of (Facebook.searchFacebookAccounts w o) = Returns []) /\
  (forall body, Facebook.user_search w = Some {| ok := false; content := body |} ->
   isWellFormed (keyword o) = true ->
   result_of (Facebook.searchFacebookAccounts w o) = Returns found).
Proof.
  intros Hp Hpages threshold found.
  assert (Hloop : result_of
                    (for_each (Facebook.page_step (keyword o)
                                 (default (num_of_Z 1000) (throttleMs o)) threshold) pages [])
                  = Returns found).
  { rewrite (for_each_result _
               (fun s p => if page_listed (keyword o) threshold p
                           then s ++ [page_candidate p] else s)).
    - by rewrite foldl_push.
    - intros s p Hin. rewrite Forall_forall in Hpages. destruct (Hpages p Hin) as [name Hn].
      by apply facebook_page_step_result with name. }
  repeat split.
  - intros Hu. destruct (isWellFormed (keyword o)) eqn:Hwf;
      [|by rewrite (proj1 (ill_formed_facebook_sources w o Hwf))].
    unfold Facebook.searchFacebookAccounts. rewrite Hp, Hu.
    apply source_throws with NetworkError. fold threshold.
    rewrite bind_result, Hloop, encode_well_formed by done. reflexivity.
  - intros Hu. destruct (isWellFormed (keyword o)) eqn:Hwf;
      [|by rewrite (proj1 (ill_formed_facebook_sources w o Hwf))].
    unfold Facebook.searchFacebookAccounts. rewrite Hp, Hu.
    apply source_throws with ParseError. fold threshold.
    rewrite bind_result, Hloop, encode_well_formed by done. reflexivity.
  - intros body Hu Hwf. unfold Facebook.searchFacebookAccounts. rewrite Hp, Hu.
    apply source_result; [done|]. fold threshold.
    rewrite bind_result, Hloop, encode_well_formed by done. reflexivity.
Qed.

Lemma facebook_user_search_failure_witness :
  let o := {| keyword := js "acme"; limit := None; throttleMs := None; fuzzyThreshold := None |} in
  let page := {| Facebook.page_name := Some (js "ACME"); Facebook.about := None;
                 Facebook.page_link := js "https://www.facebook.com/acme" |} in
  let lost := {| Facebook.page_search := Some {| ok := true; content := Some [page] |};
                 Facebook.user_search := None;
                 Facebook.search_page := None |} in
  let kept := {| Facebook.page_search := Some {| ok := true; content := Some [page] |};
                 Facebook.user_search := Some {| ok := false; content := None |};
                 Facebook.search_page := None |} in
  result_of (Facebook.searchFacebookAccounts lost o) = Returns [] /\
  result_of (Facebook.searchFacebookAccounts kept o) = Returns [page_candidate page].
Proof.
  intros o page lost kept.
  assert (Hpages : Forall (fun p => is_Some (Facebook.page_name p)) [page])
    by (repeat constructor; by eexists).
  split.
  - exact (proj1 (facebook_user_search_failure lost o [page] eq_refl Hpages) eq_refl).
  - exact (proj2 (proj2 (facebook_user_search_failure kept o [page] eq_refl Hpages))
             None eq_refl eq_refl).
Defined.

(** ** The scraping fallbacks *)

(** A loop that pushes the elements it keeps returns them, in order. *)
Lemma filter_loop {A B} (body : list B -> A -> M (list B)) (keep : A -> bool) (f : A -> B) xs :
  (forall s x, x ∈ xs -> result_of (body s x) = Returns (if keep x then s ++ [f x] else s)) ->
  result_of (for_each body xs []) = Returns (f <$> filter (fun x => keep x = true) xs).
Proof.
  intros Hbody. rewrite (for_each_result _ (fun s x => if keep x then s ++ [f x] else s)) by done.
  by rewrite foldl_push.
Qed.

Lemma elem_of_kept {A B} (keep : A -> bool) (f : A -> B) (xs : list A) y :
  y ∈ f <$> filter (fun x => keep x = true) xs <-> exists x, x ∈ xs /\ y = f x /\ keep x = true.
Proof.
  rewrite list_elem_of_fmap. split.
  - intros (x & -> & Hx). apply list_elem_of_filter in Hx as [Hk Hx]. eauto.
  - intros (x & Hx & -> & Hk). exists x. split; [done|]. by apply list_elem_of_filter.
Qed.

(** X6.  For a keyword that is not empty and can be encoded, the Nitter
    fallback lists a match of its pattern exactly when the trimmed name or
    the username scores at least the threshold of the options (0.7 when
    there is none) or the trimmed description contains the keyword. *)
Theorem nitter_inclusion_rule w o matches :
  Twitter.nitter_page w = Some {| ok := true; content := Some matches |} ->
  keyword o <> [] ->
  isWellFormed (keyword o) = true ->
  let threshold := default num_0_7 (fuzzyThreshold o) in
  exists results,
    result_of (Twitter.scrapeTwitterResults w o) = Returns results /\
    forall acc, acc ∈ results <->
      exists m, m ∈ matches /\ acc = nitter_candidate m /\
        (scores (name acc) (keyword o) threshold \/
         scores (Twitter.match_username m) (keyword o) threshold \/
         contains_keyword (description acc) (keyword o)).
Proof.
  intros Hw Hk Henc threshold.
  set (keep := fun m =>
         num_ge (calculateSimilarity (trim (Twitter.match_name m)) (keyword o)) threshold
         || num_ge (calculateSimilarity (Twitter.match_username m) (keyword o)) threshold
         || description_mentions (Some (trim (Twitter.match_description m))) (keyword o)).
  exists (nitter_candidate <$> filter (fun m => keep m = true) matches). split.
  - unfold Twitter.scrapeTwitterResults. rewrite Hw. apply source_result; [done|].
    apply filter_loop.
    intros s m _. unfold Twitter.nitter_step, keep, nitter_candidate, threshold.
    rewrite bind_result. simpl.
    destruct (num_ge _ _ || num_ge _ _); [done|]. simpl.
    by destruct (trim (Twitter.match_description m)) as [|c d]; [|destruct (includes _ _)].
  - intros acc. rewrite elem_of_kept. unfold keep.
    split; intros (m & Hm & -> & Hrule); exists m; (split; [done|]); (split; [done|]).
    + apply orb_true_iff in Hrule as [Hrule|Hrule]; [apply orb_true_iff in Hrule as [?|?]|]; auto.
      right. right. by apply description_mentions_contains.
    + apply orb_true_iff. destruct Hrule as [?|[?|Hd]]; [left|left|right].
      * apply orb_true_iff. by left.
      * apply orb_true_iff. by right.
      * by apply description_mentions_contains in Hd.
Qed.

Lemma nitter_inclusion_rule_witness :
  let o := {| keyword := js "acme"; limit := None; throttleMs := None;
              fuzzyThreshold := Some num_one |} in
  let m := {| Twitter.match_username := js "acme";
              Twitter.match_name := js " Fan club ";
              Twitter.match_description := js "none" |} in
  let w := {| Twitter.user_search := None;
              Twitter.nitter_page := Some {| ok := true; content := Some [m] |};
              Twitter.twitter_page := None |} in
  exists results,
    result_of (Twitter.scrapeTwitterResults w o) = Returns results /\
    Twitter.account (js "Fan club") (Some (js "none")) (js "acme") ∈ results.
Proof.
  intros o m w.
  destruct (nitter_inclusion_rule w o [m] eq_refl) as (results & Hres & Hiff);
    [discriminate|reflexivity|].
  exists results. split; [exact Hres|]. apply Hiff.
  exists m. split; [by left|]. split; [reflexivity|]. right. left. reflexivity.
Defined.

(** X7.  For a keyword that can be encoded, the fallback on the search
    page of Twitter judges every user of the embedded JSON, with the empty
    string for a name, a screen name or a description that is missing: it
    lists the user exactly when the name or the screen name scores at
    least the threshold of the options or the description contains the
    keyword.  A page without the script, or with a script that is not
    JSON, gives the empty sequence after the one request. *)
Theorem direct_inclusion_rule w o :
  isWellFormed (keyword o) = true ->
  let threshold := default num_0_7 (fuzzyThreshold o) in
  (forall users,
     Twitter.twitter_page w = Some {| ok := true; content := Some (Twitter.Script users) |} ->
     exists results,
       result_of (Twitter.scrapeDirectTwitterResults w o) = Returns results /\
       forall acc, acc ∈ results <->
         exists user, user ∈ users /\ acc = web_candidate user /\
           (scores (name acc) (keyword o) threshold \/
            scores (or_empty (Twitter.web_screen_name user)) (keyword o) threshold \/
            contains_keyword (description acc) (keyword o))) /\
  (Twitter.twitter_page w = Some {| ok := true; content := Some Twitter.NoScript |} ->
   Twitter.scrapeDirectTwitterResults w o = (Returns [], [Fetch TwitterWebSearch])) /\
  (Twitter.twitter_page w = Some {| ok := true; content := Some Twitter.BadScript |} ->
   Twitter.scrapeDirectTwitterResults w o = (Returns [], [Fetch TwitterWebSearch])).
Proof.
  intros Henc threshold. split; [|split].
  - intros users Hw.
    set (keep := fun user =>
           num_ge (calculateSimilarity (or_empty (Twitter.web_name user)) (keyword o)) threshold
           || num_ge (calculateSimilarity (or_empty (Twitter.web_screen_name user)) (keyword o))
                threshold
           || includes (toLowerCase (or_empty (Twitter.web_description user)))
                (toLowerCase (keyword o))).
    exists (web_candidate <$> filter (fun user => keep user = true) users). split.
    + unfold Twitter.scrapeDirectTwitterResults. rewrite Hw.
      apply (source_result _ _ (Twitter.Script users)
               (fun html => match html with
                            | Twitter.NoScript => mret []
                            | Twitter.BadScript => throw ParseError
                            | Twitter.Script users => for_each _ users []
                            end)); [done|].
      apply filter_loop. intros s user _.
      unfold Twitter.direct_step, keep, web_candidate, threshold.
      rewrite bind_result. simpl. by destruct (_ || _).
    + intros acc. rewrite elem_of_kept. unfold keep, contains_keyword.
      split; intros (user & Hu & -> & Hrule); exists user; (split; [done|]); (split; [done|]).
      * apply orb_true_iff in Hrule as [Hrule|Hrule];
          [apply orb_true_iff in Hrule as [?|?]|]; eauto.
      * apply orb_true_iff. destruct Hrule as [?|[?|(d & [= <-] & Hd)]]; [left|left|right].
        -- apply orb_true_iff. by left.
        -- apply orb_true_iff. by right.
        -- done.
  - intros Hw. unfold Twitter.scrapeDirectTwitterResults. cbv zeta.
    by rewrite Hw, encode_well_formed.
  - intros Hw. unfold Twitter.scrapeDirectTwitterResults. cbv zeta.
    by rewrite Hw, encode_well_formed.
Qed.

Lemma direct_inclusion_rule_witness :
  let o := {| keyword := js "acme"; limit := None; throttleMs := None; fuzzyThreshold := None |} in
  let user := {| Twitter.web_name := None;
                 Twitter.web_screen_name := Some (js "fans");
                 Twitter.web_description := Some (js "We love ACME") |} in
  let w := {| Twitter.user_search := None; Twitter.nitter_page := None;
              Twitter.twitter_page :=
                Some {| ok := true; content := Some (Twitter.Script [user]) |} |} in
  exists results,
    result_of (Twitter.scrapeDirectTwitterResults w o) = Returns results /\
    Twitter.account (js "") (Some (js "We love ACME")) (js "fans") ∈ results.
Proof.
  intros o user w.
  destruct (proj1 (direct_inclusion_rule w o eq_refl) [user] eq_refl)
    as (results & Hres & Hiff).
  exists results. split; [exact Hres|]. apply Hiff.
  exists user. split; [by left|]. split; [reflexivity|]. right. right.
  eexists. split; reflexivity.
Defined.

(** X9.  For a keyword that can be encoded, the scraping fallback of
    Facebook lists a match of its pattern exactly when the name scores at
    least 0.7, without a description. *)
Theorem facebook_scraper_rule w keyword throttleMs matches :
  Facebook.search_page w = Some {| ok := true; content := Some matches |} ->
  isWellFormed keyword = true ->
  exists results,
    result_of (Facebook.scrapeFacebookResults w keyword throttleMs) = Returns results /\
    forall acc, acc ∈ results <->
      exists m, m ∈ matches /\ acc = match_candidate m /\ scores (name acc) keyword num_0_7.
Proof.
  intros Hw Henc.
  exists (match_candidate <$>
            filter (fun m => num_ge (calculateSimilarity (Facebook.match_name m) keyword) num_0_7
                             = true) matches).
  split.
  - unfold Facebook.scrapeFacebookResults. rewrite Hw. apply source_result; [done|].
    apply (filter_loop _ (fun m => num_ge (calculateSimilarity (Facebook.match_name m) keyword)
                                     num_0_7)).
    intros s m _. unfold Facebook.scrape_step, match_candidate. rewrite bind_result. simpl.
    by destruct (num_ge _ _).
  - intros acc.
    rewrite (elem_of_kept (fun m => num_ge (calculateSimilarity (Facebook.match_name m) keyword)
                                      num_0_7)).
    split; intros (m & Hm & -> & Hrule); exists m; done.
Qed.

Lemma facebook_scraper_rule_witness :
  let m := {| Facebook.match_url := js "https://www.facebook.com/acmes";
              Facebook.match_name := js "Acmes" |} in
  let w := {| Facebook.page_search := None; Facebook.user_search := None;
              Facebook.search_page := Some {| ok := true; content := Some [m] |} |} in
  exists results,
    result_of (Facebook.scrapeFacebookResults w (js "acme") None) = Returns results /\
    match_candidate m ∈ results.
Proof.
  intros m w.
  destruct (facebook_scraper_rule w (js "acme") None [m] eq_refl eq_refl)
    as (results & Hres & Hiff).
  exists results. split; [exact Hres|]. apply Hiff.
  exists m. split; [by left|]. split; reflexivity.
Defined.

(** ** Throttling *)

(** The trace of a loop whose body returns on every element. *)
Lemma for_each_trace_eq {A S} (body : S -> A -> M S) (tr : A -> list event) (xs : list A) :
  (forall s x, x ∈ xs -> trace_of (body s x) = tr x /\ exists s', result_of (body s x) = Returns s') ->
  forall s, trace_of (for_each body xs s) = xs ≫= tr.
Proof.
  induction xs as [|x xs IH]; intros Hbody s; simpl; [done|].
  rewrite bind_trace. destruct (Hbody s x) as [-> [s' ->]]; [by left|].
  f_equal. apply IH. intros s'' x' Hx'. apply Hbody. by right.
Qed.

Lemma source_trace {A S} keyword e (data : A) (k : A -> M (list S)) :
  isWellFormed keyword = true ->
  trace_of (try_catch
              (encodeURIComponent keyword;;
               response ← fetch e (Some {| ok := true; content := Some data |});
               if negb (ok response) then throw StatusError
               else d ← read response; k d)
              (fun _ => mret [])) = Fetch e :: trace_of (k data).
Proof.
  intros Hwf. rewrite encode_well_formed by done.
  simpl. destruct (k data) as [[r|x] t]; simpl; by rewrite ?app_nil_r.
Qed.

(** X10.  For a keyword that can be encoded, each of the three searches
    of Twitter makes the one request for its list and then calls
    [setTimeout] exactly once per candidate, before it judges it, with the
    throttle interval of the options (2000 for the API and 3000 for the
    two fallbacks when there is none); it makes no other request.  With a
    keyword that cannot be encoded it makes no request and no call. *)
Theorem twitter_throttling w o :
  (isWellFormed (keyword o) = true ->
   (forall users,
     Twitter.user_search w = Some {| ok := true; content := Some users |} ->
     Forall (fun u => is_Some (Twitter.user_name u) /\ is_Some (Twitter.user_username u)) users ->
     trace_of (Twitter.searchTwitterAccountsViaAPI w o) =
     Fetch TwitterUserSearch
       :: replicate (length users) (Sleep (default (num_of_Z 2000) (throttleMs o)))) /\
  (forall matches,
     Twitter.nitter_page w = Some {| ok := true; content := Some matches |} ->
     trace_of (Twitter.scrapeTwitterResults w o) =
     Fetch NitterSearch
       :: replicate (length matches) (Sleep (default (num_of_Z 3000) (throttleMs o)))) /\
  (forall users,
     Twitter.twitter_page w = Some {| ok := true; content := Some (Twitter.Script users) |} ->
     trace_of (Twitter.scrapeDirectTwitterResults w o) =
     Fetch TwitterWebSearch
       :: replicate (length users) (Sleep (default (num_of_Z 3000) (throttleMs o))))) /\
  (isWellFormed (keyword o) = false ->
   trace_of (Twitter.searchTwitterAccountsViaAPI w o) = [] /\
   trace_of (Twitter.scrapeTwitterResults w o) = [] /\
   trace_of (Twitter.scrapeDirectTwitterResults w o) = []).
Proof.
  assert (Hone : forall {A} (xs : list A) (ev : event),
             xs ≫= (fun _ => [ev]) = replicate (length xs) ev).
  { intros A xs ev. induction xs as [|x xs IH]; [done|]. by rewrite bind_cons, IH. }
  split; [intros Henc|intros Henc; destruct (ill_formed_sources w o Henc) as (-> & -> & ->); done].
  split; [|split].
  - intros users Hw Hwf. unfold Twitter.searchTwitterAccountsViaAPI.
    rewrite Hw, source_trace by done. f_equal. rewrite <- Hone. apply for_each_trace_eq.
    intros s u Hu. rewrite Forall_forall in Hwf. destruct (Hwf u Hu) as [[name Hn] [username Hun]].
    split.
    + unfold Twitter.api_step. rewrite bind_trace, Hn, Hun. simpl.
      by destruct (_ || _); [|destruct (description_mentions _ _)].
    + rewrite (twitter_api_step_result _ _ _ _ _ _ _ Hn Hun). eauto.
  - intros matches Hw. unfold Twitter.scrapeTwitterResults.
    rewrite Hw, source_trace by done. f_equal. rewrite <- Hone. apply for_each_trace_eq.
    intros s m _. unfold Twitter.nitter_step. rewrite bind_trace, bind_result. simpl.
    destruct (_ || _); [eauto|]. simpl.
    destruct (trim (Twitter.match_description m)) as [|c d]; [eauto|].
    destruct (includes _ _); eauto.
  - intros users Hw. unfold Twitter.scrapeDirectTwitterResults. rewrite Hw.
    rewrite (source_trace _ _ (Twitter.Script users)
               (fun html => match html with
                            | Twitter.NoScript => mret []
                            | Twitter.BadScript => throw ParseError
                            | Twitter.Script users => for_each _ users []
                            end)) by done.
    f_equal. rewrite <- Hone. apply for_each_trace_eq.
    intros s user _. unfold Twitter.direct_step. rewrite bind_trace, bind_result. simpl.
    destruct (_ || _); eauto.
Qed.

Lemma twitter_throttling_witness :
  let o := {| keyword := js "acme"; limit := None; throttleMs := Some (num_of_Z 500);
              fuzzyThreshold := None |} in
  let user := {| Twitter.user_name := Some (js "Fan club");
                 Twitter.user_username := Some (js "fans");
                 Twitter.user_description := None |} in
  let w := {| Twitter.user_search := Some {| ok := true; content := Some [user; user] |};
              Twitter.nitter_page := None; Twitter.twitter_page := None |} in
  trace_of (Twitter.searchTwitterAccountsViaAPI w o) =
  [Fetch TwitterUserSearch; Sleep (num_of_Z 500); Sleep (num_of_Z 500)].
Proof.
  intros o user w.
  apply (proj1 (proj1 (twitter_throttling w o) eq_refl) [user; user] eq_refl).
  repeat constructor; by eexists.
Defined.

(** ** The handlers *)

(** X12.  A request without a keyword, or with the empty string for it, is
    answered with status 400 by the [/api/search] handlers of Twitter and
    Facebook, and a body that is not JSON with status 500; in both cases
    nothing is requested upstream and [setTimeout] is not called. *)
Theorem handlers_reject_without_request :
  (forall body, body_keyword body = None \/ body_keyword body = Some [] ->
     (forall c w, Twitter.api_search c w (Some body) = (Returns (Failed 400), [])) /\
     (forall w, Facebook.api_search w (Some body) = (Returns (Failed 400), []))) /\
  (forall c w, Twitter.api_search c w None = (Returns (Failed 500), [])) /\
  (forall w, Facebook.api_search w None = (Returns (Failed 500), [])).
Proof.
  split; [|by repeat split].
  intros body Hk.
  unfold Twitter.api_search, Facebook.api_search.
  repeat split; intros; simpl; by destruct Hk as [-> | ->].
Qed.

Lemma handlers_reject_without_request_witness :
  let body := {| body_keyword := Some (js ""); body_limit := Some (num_of_Z 10);
                 body_throttleMs := None; body_fuzzyThreshold := None |} in
  let page := {| Facebook.page_name := Some (js "Acme"); Facebook.about := None;
                 Facebook.page_link := js "https://www.facebook.com/acme" |} in
  let w := {| Facebook.page_search := Some {| ok := true; content := Some [page] |};
              Facebook.user_search := Some {| ok := true; content := Some [] |};
              Facebook.search_page := None |} in
  Facebook.api_search w (Some body) = (Returns (Failed 400), []).
Proof.
  intros body page w.
  exact (proj2 (proj1 handlers_reject_without_request body (or_intror eq_refl)) w).
Defined.

(** X13.  A JSON body with a keyword is always answered by [/api/search]
    of Twitter and of Facebook with the keyword, the sequence the search of
    the platform returns and its length, never with an error status,
    whatever the keyword is and whatever the upstream does. *)
Theorem search_handlers_answer body kw :
  body_keyword body = Some kw -> kw <> [] ->
  (forall c w, exists results,
     result_of (Twitter.searchTwitterAccounts c w (Twitter.make_options kw body))
       = Returns results /\
     result_of (Twitter.api_search c w (Some body)) = Returns (Found kw (length results) results)) /\
  (forall w, exists results,
     result_of (Facebook.search w (Facebook.make_options kw body)) = Returns results /\
     result_of (Facebook.api_search w (Some body)) = Returns (Found kw (length results) results)).
Proof.
  intros Hk Hne. destruct kw as [|u kw]; [done|]. repeat split.
  - intros c w.
    destruct (searchTwitterAccounts_returns c w (Twitter.make_options (u :: kw) body))
      as [results Hres].
    exists results. split; [done|]. unfold Twitter.api_search.
    rewrite try_catch_result, bind_result. cbn [result_of mret M_ret ret fst]. rewrite Hk.
    by rewrite bind_result, Hres.
  - intros w.
    destruct (facebook_search_returns w (Facebook.make_options (u :: kw) body))
      as [results Hres].
    exists results. split; [done|]. unfold Facebook.api_search.
    rewrite try_catch_result, bind_result. cbn [result_of mret M_ret ret fst]. rewrite Hk.
    by rewrite bind_result, Hres.
Qed.

Lemma search_handlers_answer_witness :
  let body := {| body_keyword := Some (js "acme"); body_limit := None;
                 body_throttleMs := None; body_fuzzyThreshold := None |} in
  let w := {| Facebook.page_search := None; Facebook.user_search := None;
              Facebook.search_page := None |} in
  exists results,
    result_of (Facebook.search w (Facebook.make_options (js "acme") body)) = Returns results /\
    result_of (Facebook.api_search w (Some body)) = Returns (Found (js "acme") (length results) results).
Proof.
  intros body w.
  apply (proj2 (search_handlers_answer body (js "acme") eq_refl ltac:(discriminate))).
Defined.

(** X22.  A keyword with a lone surrogate cannot be encoded into the
    address of a request.  [/api/search] of Twitter and of Facebook then
    answers with the keyword, the count 0 and the empty sequence, as for a
    search that found nothing, and nothing is requested upstream. *)
Theorem unencodable_keyword_finds_nothing body kw :
  body_keyword body = Some kw -> kw <> [] -> isWellFormed kw = false ->
  (forall c w, Twitter.api_search c w (Some body) = (Returns (Found kw 0 []), [])) /\
  (forall w, Facebook.api_search w (Some body) = (Returns (Found kw 0 []), [])).
Proof.
  intros Hk Hne Hwf. destruct kw as [|u kw]; [done|]. split.
  - intros c w. unfold Twitter.api_search.
    cbn [mbind mret M_bind M_ret bind ret app]. rewrite Hk. cbv zeta.
    destruct (twitter_chain c w (Twitter.make_options (u :: kw) body))
      as (_ & _ & _ & _ & Hnothing).
    by rewrite Hnothing.
  - intros w. unfold Facebook.api_search.
    cbn [mbind mret M_bind M_ret bind ret app]. rewrite Hk. cbv zeta.
    destruct (facebook_chain w (Facebook.make_options (u :: kw) body))
      as (_ & _ & _ & _ & Hnothing).
    by rewrite Hnothing.
Qed.

Lemma unencodable_keyword_finds_nothing_witness :
  let kw := [0x61%N; 0xD83D%N] in
  let body := {| body_keyword := Some kw; body_limit := None;
                 body_throttleMs := None; body_fuzzyThreshold := None |} in
  let page := {| Facebook.page_name := Some kw; Facebook.about := None;
                 Facebook.page_link := js "https://www.facebook.com/a" |} in
  let w := {| Facebook.page_search := Some {| ok := true; content := Some [page] |};
              Facebook.user_search := Some {| ok := true; content := Some [] |};
              Facebook.search_page := None |} in
  Facebook.api_search w (Some body) = (Returns (Found kw 0 []), []).
Proof.
  intros kw body page w.
  exact (proj2 (unencodable_keyword_finds_nothing body kw eq_refl ltac:(discriminate) eq_refl) w).
Defined.

(** ** The check of one account *)

Lemma check_via_api_answer c w username keyword threshold :
  CheckAccount.check_via_api c w username keyword threshold =
  match looked_up c w username with
  | Some user =>
      match CheckAccount.api_name user with
      | Some name =>
          (Returns
             (Some (CheckAccount.Checked
                      (Twitter.account name (CheckAccount.api_description user) username)
                      (CheckAccount.or_flag
                         (num_ge (calculateSimilarity name keyword) threshold
                          || num_ge (calculateSimilarity username keyword) threshold)
                         (CheckAccount.mentions (CheckAccount.api_description user) keyword))
                      (CheckAccount.num_max (calculateSimilarity name keyword)
                         (calculateSimilarity username keyword)))),
           [CheckAccount.UserLookup username])
      | None => (Returns None, [CheckAccount.UserLookup username])
      end
  | None =>
      (Returns None, if Twitter.api_enabled c then [CheckAccount.UserLookup username] else [])
  end.
Proof.
  unfold CheckAccount.check_via_api, looked_up.
  destruct (Twitter.api_enabled c); [|done].
  destruct (CheckAccount.user_lookup w username) as [[[] [[user|]|]]|]; try done.
  cbn [mjoin option_join ok content]. unfold CheckAccount.fetch.
  cbn. destruct (CheckAccount.api_name user); done.
Qed.

Lemma check_via_nitter_answer w username keyword threshold :
  CheckAccount.check_via_nitter w username keyword threshold =
  (match profile_of w username with
   | Some html =>
       let name := match CheckAccount.fullname html with
                   | Some n => trim n | None => username end in
       let description := match CheckAccount.bio html with Some b => trim b | None => [] end in
       Returns
         (Some (CheckAccount.Checked
                  (Twitter.account name (Some description) username)
                  (CheckAccount.Bool
                     (num_ge (calculateSimilarity name keyword) threshold
                      || num_ge (calculateSimilarity username keyword) threshold
                      || includes (toLowerCase description) (toLowerCase keyword)))
                  (CheckAccount.num_max (calculateSimilarity name keyword)
                     (calculateSimilarity username keyword))))
   | None => Returns None
   end, [CheckAccount.ProfilePage username]).
Proof.
  unfold CheckAccount.check_via_nitter, profile_of.
  destruct (CheckAccount.profile_page w username) as [[[] [html|]]|]; done.
Qed.

(** The handler on a request that names the account and the keyword. *)
Lemma check_account_named c w body username keyword :
  names body username keyword ->
  CheckAccount.check_account c w (Some body) =
  let threshold := default num_0_7 (CheckAccount.req_fuzzyThreshold body) in
  match CheckAccount.check_via_api c w username keyword threshold with
  | (Returns (Some answer), requests) => (Returns answer, requests)
  | (_, requests) =>
      match CheckAccount.check_via_nitter w username keyword threshold with
      | (Returns (Some answer), requests') => (Returns answer, requests ++ requests')
      | (_, requests') => (Returns (CheckAccount.Error 404), requests ++ requests')
      end
  end.
Proof.
  intros (Hu & Hune & Hk & Hkne). unfold CheckAccount.check_account.
  cbn [mbind mret CheckAccount.H_bind CheckAccount.H_ret CheckAccount.bind CheckAccount.ret app].
  rewrite Hu, Hk. destruct username as [|u username]; [done|].
  destruct keyword as [|k keyword]; [done|].
  rewrite check_via_api_answer, check_via_nitter_answer.
  destruct (looked_up c w (u :: username)) as [user|].
  - destruct (CheckAccount.api_name user); [done|].
    by destruct (profile_of w (u :: username)).
  - by destruct (profile_of w (u :: username)).
Qed.

(** X16.  [/api/check-account] answers a request without a username or
    without a keyword (absent or empty) with status 400, and a body that is
    not JSON with status 500, without asking anything upstream. *)
Theorem check_account_rejects_without_request c w :
  (forall body,
     CheckAccount.req_username body = None \/ CheckAccount.req_username body = Some [] \/
     CheckAccount.req_keyword body = None \/ CheckAccount.req_keyword body = Some [] ->
     CheckAccount.check_account c w (Some body) = (Returns (CheckAccount.Error 400), [])) /\
  CheckAccount.check_account c w None = (Returns (CheckAccount.Error 500), []).
Proof.
  split; [|done]. intros body H. unfold CheckAccount.check_account.
  cbn [mbind mret CheckAccount.H_bind CheckAccount.H_ret CheckAccount.bind CheckAccount.ret app].
  destruct H as [-> |[-> |[-> | ->]]]; try done;
    by destruct (CheckAccount.req_username body) as [[|u username]|].
Qed.

Lemma check_account_rejects_without_request_witness :
  let c := {| Twitter.USE_API := true; Twitter.TWITTER_BEARER_TOKEN := js "token" |} in
  let w := {| CheckAccount.user_lookup := fun _ => None;
              CheckAccount.profile_page := fun _ => None |} in
  let body := {| CheckAccount.req_username := Some (js "acme_corp");
                 CheckAccount.req_keyword := None;
                 CheckAccount.req_fuzzyThreshold := None |} in
  CheckAccount.check_account c w (Some body) = (Returns (CheckAccount.Error 400), []).
Proof.
  intros c w body.
  apply (proj1 (check_account_rejects_without_request c w) body).
  right. right. left. reflexivity.
Defined.

Lemma looked_up_enabled c w username user :
  looked_up c w username = Some user -> Twitter.api_enabled c = true.
Proof. unfold looked_up. by destruct (Twitter.api_enabled c). Qed.

(** X17.  On a request that names the account and the keyword the handler
    always answers, and the only error status is 404.  It asks the API
    first, when the API is enabled, and loads the Nitter profile only when
    the API gave no user with a name; it makes no other request. *)
Theorem check_account_requests c w body username keyword :
  names body username keyword ->
  let run := CheckAccount.check_account c w (Some body) in
  exists answer,
    CheckAccount.answer_of run = Returns answer /\
    (forall status, answer = CheckAccount.Error status -> status = 404) /\
    CheckAccount.requests_of run =
      (if Twitter.api_enabled c then [CheckAccount.UserLookup username] else [])
      ++ match looked_up c w username ≫= CheckAccount.api_name with
         | Some _ => []
         | None => [CheckAccount.ProfilePage username]
         end.
Proof.
  intros Hnames run. unfold run. rewrite (check_account_named _ _ _ _ _ Hnames). cbv zeta.
  rewrite check_via_api_answer, check_via_nitter_answer.
  destruct (looked_up c w username) as [user|] eqn:Hl.
  - rewrite (looked_up_enabled _ _ _ _ Hl). cbn [mbind option_bind].
    destruct (CheckAccount.api_name user) as [name|].
    + eexists. split; [reflexivity|]. split; [by intros ? [=]|reflexivity].
    + destruct (profile_of w username); eexists; (split; [reflexivity|]);
        (split; [|reflexivity]); by intros ? [= <-].
  - cbn [mbind option_bind].
    destruct (profile_of w username); eexists; (split; [reflexivity|]);
      (split; [|reflexivity]); by intros ? [= <-].
Qed.

Lemma check_account_requests_witness :
  let c := {| Twitter.USE_API := false; Twitter.TWITTER_BEARER_TOKEN := js "token" |} in
  let w := {| CheckAccount.user_lookup := fun _ => None;
              CheckAccount.profile_page := fun _ => None |} in
  let body := {| CheckAccount.req_username := Some (js "acme_corp");
                 CheckAccount.req_keyword := Some (js "acme");
                 CheckAccount.req_fuzzyThreshold := None |} in
  CheckAccount.requests_of (CheckAccount.check_account c w (Some body)) =
  [CheckAccount.ProfilePage (js "acme_corp")].
Proof.
  intros c w body.
  assert (Hnames : names body (js "acme_corp") (js "acme")) by (by repeat split).
  destruct (check_account_requests c w body _ _ Hnames) as (answer & _ & _ & Hrequests).
  exact Hrequests.
Defined.

(** X18.  The handler answers 404 exactly when no source tells about the
    account: the API is disabled, fails or knows no user with a name, and
    the Nitter profile cannot be loaded or read. *)
Theorem check_account_not_found c w body username keyword :
  names body username keyword ->
  CheckAccount.answer_of (CheckAccount.check_account c w (Some body))
    = Returns (CheckAccount.Error 404) <->
  looked_up c w username ≫= CheckAccount.api_name = None /\ profile_of w username = None.
Proof.
  intros Hnames. rewrite (check_account_named _ _ _ _ _ Hnames). cbv zeta.
  rewrite check_via_api_answer, check_via_nitter_answer.
  destruct (looked_up c w username) as [user|]; cbn [mbind option_bind];
    [destruct (CheckAccount.api_name user) as [name|]|];
    try destruct (profile_of w username); cbn; split; try done; by intros [? ?].
Qed.

Lemma check_account_not_found_witness :
  let c := {| Twitter.USE_API := true; Twitter.TWITTER_BEARER_TOKEN := js "token" |} in
  let w := {| CheckAccount.user_lookup := fun _ => Some {| ok := false; content := None |};
              CheckAccount.profile_page := fun _ => None |} in
  let body := {| CheckAccount.req_username := Some (js "acme_corp");
                 CheckAccount.req_keyword := Some (js "acme");
                 CheckAccount.req_fuzzyThreshold := None |} in
  CheckAccount.answer_of (CheckAccount.check_account c w (Some body))
    = Returns (CheckAccount.Error 404).
Proof.
  intros c w body.
  assert (Hnames : names body (js "acme_corp") (js "acme")) by (by repeat split).
  apply (proj2 (check_account_not_found c w body _ _ Hnames)). split; reflexivity.
Defined.

Lemma num_max_ge x y t :
  num_ge (CheckAccount.num_max x y) t = true -> num_ge x t = true \/ num_ge y t = true.
Proof.
  unfold num_ge, CheckAccount.num_max, NaN.
  destruct x as [sx|sx| |sx mx ex], y as [sy|sy| |sy my ey];
    first [ match goal with |- context [if ?b then _ else _] => destruct b end; by auto
          | by destruct t as [| | |[] ? ?]
          | intros H; left; by destruct t as [|[]| |[] ? ?] ].
Qed.

(** X19.  When the handler reports on an account, the url is that of the
    username on Twitter, and [isImpersonating] is [true] exactly when the
    name or the username scores at least the threshold (0.7 when the
    request has none) or the description contains the keyword; a
    [similarityScore] that reaches the threshold always comes with
    [isImpersonating] set to [true]. *)
Theorem check_account_flag c w body username keyword account flag score :
  names body username keyword ->
  CheckAccount.answer_of (CheckAccount.check_account c w (Some body))
    = Returns (CheckAccount.Checked account flag score) ->
  let threshold := default num_0_7 (CheckAccount.req_fuzzyThreshold body) in
  url account = js "https://twitter.com/" ++ username /\
  (flag = CheckAccount.Bool true <->
   scores (name account) keyword threshold \/ scores username keyword threshold \/
   contains_keyword (description account) keyword) /\
  (num_ge score threshold = true -> flag = CheckAccount.Bool true).
Proof.
  intros Hnames Hanswer threshold. pose proof Hnames as (_ & _ & _ & Hk).
  rewrite (check_account_named _ _ _ _ _ Hnames) in Hanswer. cbv zeta in Hanswer.
  fold threshold in Hanswer.
  rewrite check_via_api_answer, check_via_nitter_answer in Hanswer.
  assert (Hapi : forall name description,
            let f := CheckAccount.or_flag
                       (num_ge (calculateSimilarity name keyword) threshold
                        || num_ge (calculateSimilarity username keyword) threshold)
                       (CheckAccount.mentions description keyword) in
            f = CheckAccount.Bool true <->
            scores name keyword threshold \/ scores username keyword threshold \/
            contains_keyword description keyword).
  { intros name description f. unfold f, CheckAccount.or_flag, scores.
    destruct (num_ge (calculateSimilarity name keyword) threshold);
      [cbn [orb]; split; auto|].
    destruct (num_ge (calculateSimilarity username keyword) threshold);
      [cbn [orb]; split; auto|].
    cbn [orb]. rewrite <- (description_mentions_contains description keyword Hk).
    unfold CheckAccount.mentions, description_mentions.
    destruct description as [[|u d]|].
    - split; [done|]. by intros [?|[?|?]].
    - split; [intros [= ->]; auto|]. by intros [?|[?| ->]].
    - split; [done|]. by intros [?|[?|?]]. }
  assert (Hnitter : forall name description,
            let f := CheckAccount.Bool
                       (num_ge (calculateSimilarity name keyword) threshold
                        || num_ge (calculateSimilarity username keyword) threshold
                        || includes (toLowerCase description) (toLowerCase keyword)) in
            f = CheckAccount.Bool true <->
            scores name keyword threshold \/ scores username keyword threshold \/
            contains_keyword (Some description) keyword).
  { intros name description f. unfold f, scores, contains_keyword. split.
    - intros [= H]. apply orb_true_iff in H as [H|H]; [apply orb_true_iff in H as [?|?]|]; eauto.
    - intros H. f_equal. apply orb_true_iff.
      destruct H as [?|[?|(d & [= <-] & ?)]]; [left|left|by right]; apply orb_true_iff; auto. }
  assert (Hmax : forall x y (f : CheckAccount.Flag),
            (num_ge x threshold = true \/ num_ge y threshold = true -> f = CheckAccount.Bool true) ->
            num_ge (CheckAccount.num_max x y) threshold = true -> f = CheckAccount.Bool true).
  { intros x y f Hf Hge. by apply Hf, num_max_ge. }
  destruct (looked_up c w username) as [user|];
    [destruct (CheckAccount.api_name user) as [name|]|];
    try (destruct (profile_of w username) as [html|]; [|done]);
    cbn in Hanswer; injection Hanswer as <- <- <-;
    (split; [done|]); (split; [by apply Hapi || by apply Hnitter|]);
    apply Hmax; intros [?|?]; (apply Hapi || apply Hnitter); auto.
Qed.

Lemma check_account_flag_witness :
  let c := {| Twitter.USE_API := false; Twitter.TWITTER_BEARER_TOKEN := js "token" |} in
  let html := {| CheckAccount.fullname := Some (js " Fan club ");
                 CheckAccount.bio := Some (js "We love ACME") |} in
  let w := {| CheckAccount.user_lookup := fun _ => None;
              CheckAccount.profile_page := fun _ => Some {| ok := true; content := Some html |} |} in
  let body := {| CheckAccount.req_username := Some (js "fans");
                 CheckAccount.req_keyword := Some (js "acme");
                 CheckAccount.req_fuzzyThreshold := None |} in
  let account := Twitter.account (js "Fan club") (Some (js "We love ACME")) (js "fans") in
  let score := CheckAccount.num_max (calculateSimilarity (js "Fan club") (js "acme"))
                 (calculateSimilarity (js "fans") (js "acme")) in
  CheckAccount.answer_of (CheckAccount.check_account c w (Some body))
    = Returns (CheckAccount.Checked account (CheckAccount.Bool true) score) /\
  (scores (js "Fan club") (js "acme") num_0_7 \/ scores (js "fans") (js "acme") num_0_7 \/
   contains_keyword (Some (js "We love ACME")) (js "acme")).
Proof.
  intros c html w body account score.
  assert (Hnames : names body (js "fans") (js "acme")) by (by repeat split).
  assert (Hanswer :
    CheckAccount.answer_of (CheckAccount.check_account c w (Some body))
    = Returns (CheckAccount.Checked account (CheckAccount.Bool true) score))
    by (vm_compute; reflexivity).
  split; [exact Hanswer|].
  exact (proj1 (proj1 (proj2 (check_account_flag c w body _ _ _ _ _ Hnames Hanswer))) eq_refl).
Defined.

(** X20.  The threshold of [/api/check-account] is replaced by 0.7 only
    when the request has none.  A threshold of 0 is kept, and then every
    account the handler can report on is flagged: the username and the
    keyword are not empty, so the score of the username is a number that is
    at least 0. *)
Theorem check_account_zero_threshold c w body username keyword account flag score :
  names body username keyword ->
  CheckAccount.req_fuzzyThreshold body = Some num_zero ->
  Z.of_nat (length (toLowerCase username)) < 2 ^ 53 ->
  Z.of_nat (length (toLowerCase keyword)) < 2 ^ 53 ->
  CheckAccount.answer_of (CheckAccount.check_account c w (Some body))
    = Returns (CheckAccount.Checked account flag score) ->
  flag = CheckAccount.Bool true.
Proof.
  intros Hnames Hzero Hu Hk Hanswer. pose proof Hnames as (_ & Hune & _ & _).
  assert (Hscore : num_ge (calculateSimilarity username keyword) num_zero = true).
  { apply calculateSimilarity_range; [|done|done]. by intros [? _]. }
  rewrite (check_account_named _ _ _ _ _ Hnames) in Hanswer. cbv zeta in Hanswer.
  rewrite Hzero in Hanswer. change (default num_0_7 (Some num_zero)) with num_zero in Hanswer.
  rewrite check_via_api_answer, check_via_nitter_answer in Hanswer.
  rewrite Hscore in Hanswer.
  destruct (looked_up c w username) as [user|];
    [destruct (CheckAccount.api_name user) as [name|]|];
    try (destruct (profile_of w username) as [html|]; [|done]);
    cbv zeta in Hanswer; rewrite orb_true_r in Hanswer;
    cbn in Hanswer; by injection Hanswer as <- <- <-.
Qed.

Lemma check_account_zero_threshold_witness :
  let c := {| Twitter.USE_API := false; Twitter.TWITTER_BEARER_TOKEN := js "token" |} in
  let html := {| CheckAccount.fullname := Some (js "Nobody"); CheckAccount.bio := None |} in
  let w := {| CheckAccount.user_lookup := fun _ => None;
              CheckAccount.profile_page := fun _ => Some {| ok := true; content := Some html |} |} in
  let body := {| CheckAccount.req_username := Some (js "xyz");
                 CheckAccount.req_keyword := Some (js "acme");
                 CheckAccount.req_fuzzyThreshold := Some num_zero |} in
  exists account flag score,
    CheckAccount.answer_of (CheckAccount.check_account c w (Some body))
      = Returns (CheckAccount.Checked account flag score) /\
    num_ge (calculateSimilarity (js "Nobody") (js "acme")) num_0_7 = false /\
    flag = CheckAccount.Bool true.
Proof.
  intros c html w body.
  assert (Hnames : names body (js "xyz") (js "acme")) by (by repeat split).
  assert (Hanswer :
    CheckAccount.answer_of (CheckAccount.check_account c w (Some body))
    = Returns (CheckAccount.Checked
                 (Twitter.account (js "Nobody") (Some (js "")) (js "xyz"))
                 (CheckAccount.Bool true)
                 (CheckAccount.num_max (calculateSimilarity (js "Nobody") (js "acme"))
                    (calculateSimilarity (js "xyz") (js "acme")))))
    by (vm_compute; reflexivity).
  assert (Hu : Z.of_nat (length (toLowerCase (js "xyz"))) < 2 ^ 53) by (simpl; lia).
  assert (Hk : Z.of_nat (length (toLowerCase (js "acme"))) < 2 ^ 53) by (simpl; lia).
  eexists _, _, _. split; [exact Hanswer|]. split; [vm_compute; reflexivity|].
  exact (check_account_zero_threshold c w body _ _ _ _ _ Hnames eq_refl Hu Hk Hanswer).
Defined.

(** X21.  [isImpersonating] is not always a boolean.  When the answer
    comes from the API and neither the name nor the username scores, the
    field is what the guard on the description evaluates to: [undefined]
    for a user without a description, the empty string for an empty
    description.  An answer built from the Nitter profile always carries a
    boolean. *)
Theorem check_account_undefined_flag c w body username keyword :
  names body username keyword ->
  let threshold := default num_0_7 (CheckAccount.req_fuzzyThreshold body) in
  let run := CheckAccount.check_account c w (Some body) in
  (forall user name,
     looked_up c w username = Some user -> CheckAccount.api_name user = Some name ->
     ~ scores name keyword threshold -> ~ scores username keyword threshold ->
     exists score,
       CheckAccount.answer_of run =
       Returns (CheckAccount.Checked
                  (Twitter.account name (CheckAccount.api_description user) username)
                  (match CheckAccount.api_description user with
                   | None => CheckAccount.Undefined
                   | Some [] => CheckAccount.Str []
                   | Some d => CheckAccount.Bool (includes (toLowerCase d) (toLowerCase keyword))
                   end) score)) /\
  (forall account flag score,
     looked_up c w username ≫= CheckAccount.api_name = None ->
     CheckAccount.answer_of run = Returns (CheckAccount.Checked account flag score) ->
     exists b, flag = CheckAccount.Bool b).
Proof.
  intros Hnames threshold run. unfold run.
  rewrite (check_account_named _ _ _ _ _ Hnames). cbv zeta. fold threshold.
  rewrite check_via_api_answer, check_via_nitter_answer. split.
  - intros user name -> -> Hname Husername. unfold scores in Hname, Husername.
    apply not_true_is_false in Hname, Husername. rewrite Hname, Husername.
    eexists. reflexivity.
  - intros account flag score Hnone.
    destruct (looked_up c w username) as [user|]; cbn [mbind option_bind] in Hnone;
      [rewrite Hnone|];
      (destruct (profile_of w username) as [html|]; [|done]);
      cbn; intros [= <- <- <-]; eauto.
Qed.

Lemma check_account_undefined_flag_witness :
  let c := {| Twitter.USE_API := true; Twitter.TWITTER_BEARER_TOKEN := js "token" |} in
  let user := {| CheckAccount.api_name := Some (js "Nobody");
                 CheckAccount.api_description := None |} in
  let w := {| CheckAccount.user_lookup := fun _ =>
                Some {| ok := true; content := Some (Some user) |};
              CheckAccount.profile_page := fun _ => None |} in
  let body := {| CheckAccount.req_username := Some (js "xyz");
                 CheckAccount.req_keyword := Some (js "acme");
                 CheckAccount.req_fuzzyThreshold := None |} in
  exists score,
    CheckAccount.answer_of (CheckAccount.check_account c w (Some body)) =
    Returns (CheckAccount.Checked (Twitter.account (js "Nobody") None (js "xyz"))
               CheckAccount.Undefined score).
Proof.
  intros c user w body.
  assert (Hnames : names body (js "xyz") (js "acme")) by (by repeat split).
  apply (proj1 (check_account_undefined_flag c w body _ _ Hnames) user (js "Nobody")).
  - reflexivity.
  - reflexivity.
  - unfold scores. vm_compute. discriminate.
  - unfold scores. vm_compute. discriminate.
Defined.
